(** * Pano clipboard store: the encrypted, capacity-bounded item store

    A shallow embedding of package [storage] of the Pano clipboard manager
    (the cipher codec, the key provider and the item store) together with the
    properties of its cipher codec and of its item store.

    Conventions of the embedding.
    - A Go [[]byte] is a [list byte]; a Go [string] is a [string].
    - A Go [int] is a [Z].  [maxItems] is only ever assigned [DefaultMaxItems]
      or a value clamped to [10, 500], and every counter is bounded by the
      length of a slice, so no 64-bit operation of the store wraps around
      (lemma [store_arithmetic_in_range]).
    - A Go [error] is a value of the inductive type [error]; the [nil] error is
      [None].
    - [time.Time] is the number of nanoseconds since the Unix epoch.
    - The clock, the random source and the file system are fields of a
      [World] that the effectful functions thread through a state monad.
    - The Go standard library is not part of the repository.  Package
      [encoding/base64] and the shape of [crypto/cipher]'s GCM are modelled;
      the AES block function, the GCM authenticator, SHA-256 and
      [encoding/json] are parameters (classes [BlockPrims] and [StorePrims]). *)

From Stdlib Require Import ZArith NArith Lia List String Ascii DecimalString.
From Stdlib Require Import DecimalPos DecimalZ.
From Stdlib.Strings Require Import Byte.
From stdpp Require Import base option list strings sorting.

Local Open Scope string_scope.
Local Open Scope list_scope.

(** ** Errors and results *)

Inductive error : Type :=
| Errorf (msg : string)                  (* fmt.Errorf without a wrapped cause *)
| Wrapf (msg : string) (cause : error)   (* fmt.Errorf("msg: %w", cause) *)
| KeySizeError (n : nat)                 (* crypto/aes *)
| CorruptInputError                      (* encoding/base64 *)
| EOF                                    (* io.EOF *)
| ErrUnexpectedEOF                       (* io.ErrUnexpectedEOF *)
| errOpen                                (* crypto/cipher: message authentication failed *)
| PathError (op : string) (enoent : bool) (* *fs.PathError; [enoent]: the cause is ENOENT *)
| SyntaxError (msg : string).            (* encoding/json *)

Inductive result (A : Type) : Type :=
| Ok (a : A)
| Err (e : error).
Arguments Ok {A} a.
Arguments Err {A} e.

(** ** The world outside the process *)

Record World : Type := mkWorld {
  clock : nat -> Z;            (* the successive readings of time.Now(), as UnixNano *)
  entropy : list byte;         (* what crypto/rand.Reader still has to deliver *)
  appdata : string;            (* the APPDATA environment variable *)
  dirs : list string;          (* the directories that exist *)
  mkdir_fault : option error;  (* the fault os.MkdirAll meets, if any *)
  mkdir_made : list string;    (* the directories a MkdirAll that meets the
                                  fault has made before it *)
  file : option string;        (* content of clipboard.db; None when absent *)
  read_fault : option error;   (* a fault of os.ReadFile other than absence *)
  write_fault : option error;  (* the fault os.WriteFile meets, if any *)
  write_reach : option nat;    (* how far a WriteFile that meets the fault
                                  gets: None when it cannot open the file,
                                  Some n when it has truncated the file and
                                  written n bytes *)
  machine_id : result string   (* machineid.ProtectedID("pano-clipboard") *)
}.

(** The world with other readings of the clock, another rest of the random
    source, other directories, another content of the file. *)
Definition with_clock (w : World) (c : nat -> Z) : World :=
  mkWorld c (entropy w) (appdata w) (dirs w) (mkdir_fault w) (mkdir_made w)
          (file w) (read_fault w) (write_fault w) (write_reach w)
          (machine_id w).

Definition with_entropy (w : World) (bs : list byte) : World :=
  mkWorld (clock w) bs (appdata w) (dirs w) (mkdir_fault w) (mkdir_made w)
          (file w) (read_fault w) (write_fault w) (write_reach w)
          (machine_id w).

Definition with_dirs (w : World) (ds : list string) : World :=
  mkWorld (clock w) (entropy w) (appdata w) ds (mkdir_fault w)
          (mkdir_made w) (file w) (read_fault w) (write_fault w)
          (write_reach w) (machine_id w).

Definition with_file (w : World) (f : option string) : World :=
  mkWorld (clock w) (entropy w) (appdata w) (dirs w) (mkdir_fault w)
          (mkdir_made w) f (read_fault w) (write_fault w) (write_reach w)
          (machine_id w).

Definition M (A : Type) : Type := World -> A * World.

#[global] Instance M_ret : MRet M := fun A a w => (a, w).
#[global] Instance M_bind : MBind M :=
  fun A B f m w => let '(a, w') := m w in f a w'.

(** fmt.Sprintf("%d", n) *)
Definition Sprintf_d (n : Z) : string := NilZero.string_of_int (Z.to_int n).

(** The range of a Go int on a 64-bit platform. *)
Definition int_range (z : Z) : Prop :=
  (-9223372036854775808 <= z < 9223372036854775808)%Z.

(** len(s) as a Go int *)
Definition len {A : Type} (l : list A) : Z := Z.of_nat (length l).

#[global] Instance byte_eq_dec : EqDecision byte := Byte.byte_eq_dec.

Module bytes.
(** The conversion byte(v) of an unsigned value: truncation to 8 bits. *)
Definition of_N (n : N) : byte :=
  match Byte.of_N (n mod 256) with
  | Some b => b
  | None => x00
  end.

(** a ^ b on bytes *)
Definition xor (a b : byte) : byte :=
  of_N (N.lxor (Byte.to_N a) (Byte.to_N b)).

(** The [width] bytes of [v], most significant first. *)
Fixpoint big_endian (width : nat) (v : N) : list byte :=
  match width with
  | O => []
  | S w => of_N (N.shiftr v (8 * N.of_nat w)) :: big_endian w v
  end.

(** subtle.ConstantTimeCompare(x, y) == 1 *)
Definition equal (x y : list byte) : bool :=
  bool_decide (x = y).
End bytes.

Module time.
(** time.Now(): the next reading of the clock. *)
Definition Now : M Z :=
  fun w => (clock w O, with_clock w (fun n => clock w (S n))).
End time.

Module rand.
(** io.ReadFull(rand.Reader, buf) with len(buf) = n: exactly [n] bytes.
    A source that ends before them is read to its end, and the error is
    io.EOF when it had nothing left and io.ErrUnexpectedEOF otherwise. *)
Definition ReadFull (n : nat) : M (result (list byte)) :=
  fun w =>
    if decide (n <= length (entropy w))%nat
    then (Ok (take n (entropy w)), with_entropy w (drop n (entropy w)))
    else if decide (entropy w = [])
    then (Err EOF, w)
    else (Err ErrUnexpectedEOF, with_entropy w []).
End rand.

Module base64.
(** Package encoding/base64, StdEncoding: the standard alphabet with
    '=' padding, no strict mode. *)
Definition encodeStd : list ascii :=
  list_ascii_of_string
    "ABCDEFGHIJKLMNOPQRSTUVWXYZabcdefghijklmnopqrstuvwxyz0123456789+/".

Definition padChar : ascii := "="%char.

(** enc.encode[v] *)
Definition encode6 (v : N) : ascii :=
  nth (N.to_nat v) encodeStd padChar.

Fixpoint index_of (c : ascii) (l : list ascii) (i : N) : option N :=
  match l with
  | [] => None
  | d :: l' => if Ascii.eqb c d then Some i else index_of c l' (N.succ i)
  end.

(** enc.decodeMap[c], None standing for the entry 0xFF *)
Definition decode6 (c : ascii) : option N := index_of c encodeStd 0%N.

Definition is_newline (c : ascii) : bool :=
  Ascii.eqb c "010"%char || Ascii.eqb c "013"%char.

(** The 24-bit value b0<<16 | b1<<8 | b2 of a group. *)
Definition group (b0 b1 b2 : byte) : N :=
  (Byte.to_N b0 * 65536 + Byte.to_N b1 * 256 + Byte.to_N b2)%N.

(** val>>18&0x3F, val>>12&0x3F, val>>6&0x3F, val&0x3F *)
Definition sextet (val : N) (k : N) : N := ((val / 64 ^ k) mod 64)%N.

Fixpoint Encode (src : list byte) : list ascii :=
  match src with
  | b0 :: b1 :: b2 :: rest =>
      let val := group b0 b1 b2 in
      encode6 (sextet val 3) :: encode6 (sextet val 2) ::
      encode6 (sextet val 1) :: encode6 (sextet val 0) :: Encode rest
  | [b0; b1] =>
      let val := group b0 b1 x00 in
      [encode6 (sextet val 3); encode6 (sextet val 2);
       encode6 (sextet val 1); padChar]
  | [b0] =>
      let val := group b0 x00 x00 in
      [encode6 (sextet val 3); encode6 (sextet val 2); padChar; padChar]
  | [] => []
  end.

Definition EncodeToString (src : list byte) : string :=
  string_of_list_ascii (Encode src).

(** The value d0<<18 | d1<<12 | d2<<6 | d3 of a quantum whose missing
    sextets are zero, and the first [n] of its three bytes. *)
Definition quantum_value (q : list N) : N :=
  (nth 0 q 0 * 262144 + nth 1 q 0 * 4096 + nth 2 q 0 * 64 + nth 3 q 0)%N.

Definition quantum_bytes (q : list N) (n : nat) : list byte :=
  take n (bytes.big_endian 3 (quantum_value q)).

Fixpoint skip_newlines (src : list ascii) : list ascii :=
  match src with
  | c :: rest => if is_newline c then skip_newlines rest else src
  | [] => []
  end.

(** What follows a padding character met after [q]: a second one when only
    two sextets were read, then nothing but line breaks. *)
Definition decode_padding (q : list N) (rest : list ascii)
  : result (list byte) :=
  match length q with
  | 2%nat =>
      match skip_newlines rest with
      | c :: rest' =>
          if Ascii.eqb c padChar then
            match skip_newlines rest' with
            | [] => Ok (quantum_bytes q 1)
            | _ :: _ => Err CorruptInputError
            end
          else Err CorruptInputError
      | [] => Err CorruptInputError
      end
  | 3%nat =>
      match skip_newlines rest with
      | [] => Ok (quantum_bytes q 2)
      | _ :: _ => Err CorruptInputError
      end
  | _ => Err CorruptInputError
  end.

(** The decoding loop; [q] holds the sextets of the quantum being read. *)
Fixpoint Decode (src : list ascii) (q : list N) : result (list byte) :=
  match src with
  | [] =>
      match q with
      | [] => Ok []
      | _ :: _ => Err CorruptInputError
      end
  | c :: rest =>
      match decode6 c with
      | Some v =>
          let q' := q ++ [v] in
          if decide (length q' = 4%nat) then
            match Decode rest [] with
            | Ok out => Ok (quantum_bytes q' 3 ++ out)
            | Err e => Err e
            end
          else Decode rest q'
      | None =>
          if is_newline c then Decode rest q
          else if Ascii.eqb c padChar then decode_padding q rest
          else Err CorruptInputError
      end
  end.

Definition DecodeString (s : string) : result (list byte) :=
  Decode (list_ascii_of_string s) [].
End base64.

(** ** The primitives of the cipher that are taken as given *)

Class BlockPrims : Type := {
  (** The AES block function under a key: the 16-byte block in, the
      128-bit output as a number. *)
  aes_encrypt : list byte -> list byte -> N;
  (** The 128-bit GCM tag of (key, nonce, ciphertext, additional data). *)
  gcm_auth : list byte -> list byte -> list byte -> list byte -> N
}.

Module aes.
Definition BlockSize : nat := 16.

Record Block : Type := mkBlock { block_key : list byte }.

(** aes.NewCipher: the key must be 16, 24 or 32 bytes long. *)
Definition NewCipher (key : list byte) : result Block :=
  let k := length key in
  if decide (k = 16 \/ k = 24 \/ k = 32)%nat
  then Ok (mkBlock key)
  else Err (KeySizeError k).
End aes.

Module cipher.
Record AEAD : Type := mkAEAD { aead_block : aes.Block }.

Definition gcmStandardNonceSize : nat := 12.
Definition gcmTagSize : nat := 16.

(** cipher.NewGCM: fails unless the block size is 16, which it is for AES. *)
Definition NewGCM (b : aes.Block) : result AEAD :=
  if decide (aes.BlockSize = 16%nat) then Ok (mkAEAD b)
  else Err (Errorf "cipher: NewGCM requires 128-bit block cipher").

Definition NonceSize (g : AEAD) : nat := gcmStandardNonceSize.

Section gcm.
Context `{BlockPrims}.

(** Byte [i] of the key stream: counter mode over the blocks
    nonce || be32(2 + i/16), the counter block 1 being kept for the tag. *)
Definition keystream_byte (g : AEAD) (nonce : list byte) (i : nat) : byte :=
  let counter := ((2 + N.of_nat (i / 16)) mod 2 ^ 32)%N in
  let block := aes_encrypt (aes.block_key (aead_block g))
                           (nonce ++ bytes.big_endian 4 counter) in
  nth (i mod 16) (bytes.big_endian 16 block) x00.

Fixpoint ctr_from (g : AEAD) (nonce : list byte) (i : nat)
    (data : list byte) : list byte :=
  match data with
  | [] => []
  | b :: rest =>
      bytes.xor b (keystream_byte g nonce i) :: ctr_from g nonce (S i) rest
  end.

Definition tag (g : AEAD) (nonce ct aad : list byte) : list byte :=
  bytes.big_endian gcmTagSize
    (gcm_auth (aes.block_key (aead_block g)) nonce ct aad).

(** gcm.Seal(dst, nonce, plaintext, additionalData); the caller passes a
    nonce of NonceSize bytes. *)
Definition Seal (g : AEAD) (dst nonce plaintext aad : list byte)
  : list byte :=
  let ct := ctr_from g nonce 0 plaintext in
  dst ++ ct ++ tag g nonce ct aad.

(** gcm.Open(dst, nonce, ciphertext, additionalData) *)
Definition Open (g : AEAD) (dst nonce ciphertext aad : list byte)
  : result (list byte) :=
  if decide (length ciphertext < gcmTagSize)%nat then Err errOpen
  else
    let n := (length ciphertext - gcmTagSize)%nat in
    let ct := take n ciphertext in
    let t := drop n ciphertext in
    if bytes.equal (tag g nonce ct aad) t
    then Ok (dst ++ ctr_from g nonce 0 ct)
    else Err errOpen.
End gcm.
End cipher.

(** ** crypto.go *)

(** The key lengths aes.NewCipher accepts. *)
Definition key_size_ok (key : list byte) : Prop :=
  (length key = 16 \/ length key = 24 \/ length key = 32)%nat.

Section crypto.
Context `{BlockPrims}.

(** Encrypt encrypts data using AES-256-GCM with the hardware key *)
Definition Encrypt (plaintext key : list byte) : M (result string) :=
  match aes.NewCipher key with
  | Err e => mret (Err (Wrapf "failed to create cipher" e))
  | Ok block =>
    match cipher.NewGCM block with
    | Err e => mret (Err (Wrapf "failed to create GCM" e))
    | Ok gcm =>
      r ← rand.ReadFull (cipher.NonceSize gcm);
      match r with
      | Err e => mret (Err (Wrapf "failed to generate nonce" e))
      | Ok nonce =>
          let ciphertext := cipher.Seal gcm nonce nonce plaintext [] in
          mret (Ok (base64.EncodeToString ciphertext))
      end
    end
  end.

(** Decrypt decrypts data using AES-256-GCM with the hardware key *)
Definition Decrypt (ciphertext : string) (key : list byte)
  : result (list byte) :=
  match base64.DecodeString ciphertext with
  | Err e => Err (Wrapf "failed to decode base64" e)
  | Ok data =>
    match aes.NewCipher key with
    | Err e => Err (Wrapf "failed to create cipher" e)
    | Ok block =>
      match cipher.NewGCM block with
      | Err e => Err (Wrapf "failed to create GCM" e)
      | Ok gcm =>
        let nonceSize := cipher.NonceSize gcm in
        if decide (length data < nonceSize)%nat
        then Err (Errorf "ciphertext too short")
        else
          let nonce := take nonceSize data in
          let cipherData := drop nonceSize data in
          match cipher.Open gcm [] nonce cipherData [] with
          | Err e => Err (Wrapf "failed to decrypt" e)
          | Ok plaintext => Ok plaintext
          end
      end
    end
  end.
End crypto.

(** ** database.go: the item store *)

Local Open Scope Z_scope.

Definition DefaultMaxItems : Z := 100.
Definition MaxItemSize : Z := 20 * 1024 * 1024.
Definition DatabaseFile : string := "clipboard.db".

(** ClipboardItem represents a single clipboard entry *)
Record ClipboardItem : Type := mkItem {
  ID : string;
  Type_ : string;      (* "text" or "image" *)
  Content : string;    (* Encrypted content *)
  Timestamp : Z;
  Pinned : bool;
  Size : Z;            (* Original size in bytes *)
  Hash : string        (* Content hash for duplicate detection *)
}.

(** Database manages clipboard items storage.  The mutex is not modelled
    (one operation runs at a time); neither is the field onLimitWarn, which
    the package stores and never calls. *)
Record Database : Type := mkDatabase {
  Items : list ClipboardItem;
  key : list byte;     (* Encryption key (not stored in JSON) *)
  maxItems : Z         (* Configurable max items limit *)
}.

(** What the store takes from the platform and the standard library. *)
Class StorePrims : Type := {
  (** sha256.Sum256, the digest read as a 256-bit number *)
  sha256_Sum256 : list byte -> N;
  (** json.Marshal of the item slice *)
  json_Marshal : list ClipboardItem -> result (list byte);
  (** json.Unmarshal into a slice: what is stored in the destination and
      the error, if any *)
  json_Unmarshal : list byte -> list ClipboardItem * option error;
  runtime_GOOS : string;
  runtime_GOARCH : string
}.

(** The advisory of a full store, and the advisory that carries the number
    of remaining slots, as AddItem returns them. *)
Abbreviation LIMIT_FULL := (Errorf "LIMIT_FULL:0").
Abbreviation LIMIT_WARN remaining :=
  (Errorf ("LIMIT_WARN:" +:+ Sprintf_d remaining)).

Module fmt.
Definition hex_digit (n : N) : ascii :=
  nth (N.to_nat n) (list_ascii_of_string "0123456789abcdef") "0"%char.

(** fmt.Sprintf("%x", b) for a byte array *)
Fixpoint Sprintf_x (b : list byte) : string :=
  match b with
  | [] => EmptyString
  | x :: rest =>
      String (hex_digit (Byte.to_N x / 16))
        (String (hex_digit (Byte.to_N x mod 16)) (Sprintf_x rest))
  end.
End fmt.

Module os.
(** os.IsNotExist: looks into a *PathError, not into an error wrapped by
    fmt.Errorf. *)
Definition IsNotExist (e : error) : bool :=
  match e with
  | PathError _ enoent => enoent
  | _ => false
  end.

Definition Getenv_APPDATA : M string := fun w => (appdata w, w).

(** The directories after one more has been made; making a directory
    that exists changes nothing. *)
Definition made (path : string) (ds : list string) : list string :=
  if decide (path ∈ ds) then ds else path :: ds.

(** os.MkdirAll(path, perm): the directory exists afterwards.  A call that
    meets a fault may have made directories on the way to it. *)
Definition MkdirAll (path : string) : M (option error) :=
  fun w =>
    match mkdir_fault w with
    | Some e => (Some e, with_dirs w (foldr made (dirs w) (mkdir_made w)))
    | None => (None, with_dirs w (made path (dirs w)))
    end.

Definition ReadFile (name : string) : M (result string) :=
  fun w =>
    match read_fault w with
    | Some e => (Err e, w)
    | None =>
        match file w with
        | Some data => (Ok data, w)
        | None => (Err (PathError "open" true), w)
        end
    end.

(** os.WriteFile(name, data, perm): the file is opened with O_TRUNC,
    written and closed.  A call that cannot open the file leaves it as it
    was; a fault met later leaves the file with the bytes written before
    it. *)
Definition WriteFile (name : string) (data : string) : M (option error) :=
  fun w =>
    match write_fault w with
    | Some e =>
        match write_reach w with
        | None => (Some e, w)
        | Some n => (Some e, with_file w (Some (substring 0 n data)))
        end
    | None => (None, with_file w (Some data))
    end.
End os.

Module filepath.
Definition Join (dir name : string) : string := dir +:+ "\" +:+ name.
End filepath.

Section storage.
Context `{BlockPrims} `{StorePrims}.

(** fmt.Sprintf("%x", sha256.Sum256(content)) *)
Definition contentHashOf (content : list byte) : string :=
  fmt.Sprintf_x (bytes.big_endian 32 (sha256_Sum256 content)).

(** GetHardwareKey generates a unique SHA-256 key based on hardware
    information *)
Definition GetHardwareKey : M (result (list byte)) :=
  fun w =>
    match machine_id w with
    | Err e => (Err (Wrapf "failed to get machine ID" e), w)
    | Ok machineID =>
        let combined :=
          machineID +:+ "-" +:+ runtime_GOOS +:+ "-" +:+ runtime_GOARCH in
        let hash := bytes.big_endian 32
                      (sha256_Sum256 (list_byte_of_string combined)) in
        (Ok hash, w)
    end.

(** GetDatabasePath returns the full path to the database file *)
Definition GetDatabasePath : M (result string) :=
  appData ← os.Getenv_APPDATA;
  if decide (appData = EmptyString)
  then mret (Err (Errorf "APPDATA environment variable not set"))
  else
    let panoDir := filepath.Join appData "Pano" in
    err ← os.MkdirAll panoDir;
    match err with
    | Some e => mret (Err (Wrapf "failed to create Pano directory" e))
    | None => mret (Ok (filepath.Join panoDir DatabaseFile))
    end.

(** Load loads the database from disk *)
Definition Load (db : Database) : M (Database * option error) :=
  p ← GetDatabasePath;
  match p with
  | Err e => mret (db, Some e)
  | Ok dbPath =>
    d ← os.ReadFile dbPath;
    match d with
    | Err e => mret (db, Some e)
    | Ok data =>
      match Decrypt data (key db) with
      | Err e => mret (db, Some (Wrapf "failed to decrypt database" e))
      | Ok decrypted =>
        let '(items, err) := json_Unmarshal decrypted in
        let db' := mkDatabase items (key db) (maxItems db) in
        match err with
        | Some e => mret (db', Some (Wrapf "failed to parse database" e))
        | None => mret (db', None)
        end
      end
    end
  end.

(** NewDatabase creates or loads the database *)
Definition NewDatabase : M (result Database) :=
  k ← GetHardwareKey;
  match k with
  | Err e => mret (Err (Wrapf "failed to get hardware key" e))
  | Ok key =>
    let db := mkDatabase [] key DefaultMaxItems in
    '(db', err) ← Load db;
    match err with
    | Some e =>
        (* If file doesn't exist, that's okay *)
        if negb (os.IsNotExist e) then mret (Err e) else mret (Ok db')
    | None => mret (Ok db')
    end
  end.

(** saveInternal saves the database without locking *)
Definition saveInternal (db : Database) : M (option error) :=
  p ← GetDatabasePath;
  match p with
  | Err e => mret (Some e)
  | Ok dbPath =>
    match json_Marshal (Items db) with
    | Err e => mret (Some (Wrapf "failed to marshal database" e))
    | Ok jsonData =>
      r ← Encrypt jsonData (key db);
      match r with
      | Err e => mret (Some (Wrapf "failed to encrypt database" e))
      | Ok encrypted =>
        err ← os.WriteFile dbPath encrypted;
        match err with
        | Some e => mret (Some (Wrapf "failed to write database" e))
        | None => mret None
        end
      end
    end
  end.

(** Save saves the database to disk *)
Definition Save (db : Database) : M (option error) := saveInternal db.

(** The loop that counts the items that are not pinned. *)
Definition countUnpinned (items : list ClipboardItem) : Z :=
  fold_left (fun unpinnedCount item =>
               if negb (Pinned item) then unpinnedCount + 1
               else unpinnedCount)
            items 0.

(** The two loops that separate pinned and unpinned items. *)
Definition separate (items : list ClipboardItem)
  : list ClipboardItem * list ClipboardItem :=
  fold_left (fun '(pinnedItems, unpinnedItems) item =>
               if Pinned item then (pinnedItems ++ [item], unpinnedItems)
               else (pinnedItems, unpinnedItems ++ [item]))
            items ([], []).

(** enforceLimit removes oldest unpinned items to stay within maxItems.
    The slice expressions need 0 <= maxItems, which its only caller,
    SetMaxItems, establishes. *)
Definition enforceLimit (db : Database) : Database :=
  if decide (len (Items db) <= maxItems db) then db
  else
    let '(pinnedItems, unpinnedItems) := separate (Items db) in
    let pinnedItems :=
      if decide (len pinnedItems > maxItems db)
      then take (Z.to_nat (maxItems db)) pinnedItems
      else pinnedItems in
    let availableSlots := maxItems db - len pinnedItems in
    let unpinnedItems :=
      if decide (len unpinnedItems > availableSlots)
      then take (Z.to_nat availableSlots) unpinnedItems
      else unpinnedItems in
    mkDatabase (pinnedItems ++ unpinnedItems) (key db) (maxItems db).

(** SetMaxItems sets the maximum number of items *)
Definition SetMaxItems (db : Database) (max : Z) : M Database :=
  let max := if decide (max < 10) then 10 else max in
  let max := if decide (max > 500) then 500 else max in
  let db := mkDatabase (Items db) (key db) max in
  let db := enforceLimit db in
  _ ← saveInternal db;
  mret db.

(** GetMaxItems returns the current maximum items limit *)
Definition GetMaxItems (db : Database) : Z := maxItems db.

(** IsNearLimit returns true if item count is within 10 of the limit *)
Definition IsNearLimit (db : Database) : bool :=
  bool_decide (len (Items db) >= maxItems db - 10).

(** GetRemainingSlots returns how many more items can be added *)
Definition GetRemainingSlots (db : Database) : Z :=
  let remaining := maxItems db - len (Items db) in
  if decide (remaining < 0) then 0 else remaining.

(** IsFull returns true if at or over limit *)
Definition IsFull (db : Database) : bool :=
  (* Count unpinned items only (pinned don't count toward limit) *)
  let unpinnedCount := countUnpinned (Items db) in
  bool_decide (unpinnedCount >= maxItems db).

(** The test of the duplicate loop on one item. *)
Definition sameContent (contentHash itemType : string)
    (existing : ClipboardItem) : Prop :=
  Hash existing = contentHash /\ Type_ existing = itemType.

#[global] Instance sameContent_dec contentHash itemType existing :
  Decision (sameContent contentHash itemType existing).
Proof. unfold sameContent. apply _. Defined.

Definition withTimestamp (item : ClipboardItem) (t : Z) : ClipboardItem :=
  mkItem (ID item) (Type_ item) (Content item) t (Pinned item) (Size item)
         (Hash item).

Definition withPinned (item : ClipboardItem) (p : bool) : ClipboardItem :=
  mkItem (ID item) (Type_ item) (Content item) (Timestamp item) p
         (Size item) (Hash item).

(** AddItem adds a new clipboard item *)
Definition AddItem (db : Database) (itemType : string) (content : list byte)
  : M (Database * option error) :=
  (* Check size limit *)
  if decide (len content > MaxItemSize) then
    mret (db, Some (Errorf ("item size (" +:+ Sprintf_d (len content)
                            +:+ " bytes) exceeds maximum ("
                            +:+ Sprintf_d MaxItemSize +:+ " bytes)")))
  else
    (* Calculate content hash for duplicate detection *)
    let contentHash := contentHashOf content in
    (* Check for duplicate (same content already exists) *)
    match list_find (sameContent contentHash itemType) (Items db) with
    | Some (i, existing) =>
        (* Move existing item to top instead of creating duplicate *)
        let items :=
          [existing] ++ (take i (Items db) ++ drop (S i) (Items db)) in
        now ← time.Now;
        let items :=
          match items with
          | first :: rest => withTimestamp first now :: rest
          | [] => []
          end in
        let db := mkDatabase items (key db) (maxItems db) in
        err ← saveInternal db;
        mret (db, err)
    | None =>
        (* Count current unpinned items *)
        let unpinnedCount := countUnpinned (Items db) in
        (* Check if we're at the limit - don't add new items if full *)
        if decide (unpinnedCount >= maxItems db) then
          mret (db, Some (Errorf "LIMIT_FULL:0"))
        else
          (* Calculate remaining slots for warning *)
          let remaining := maxItems db - unpinnedCount - 1 in
          let warnNeeded :=
            bool_decide (remaining <= 10) && bool_decide (remaining >= 0) in
          (* Encrypt content *)
          r ← Encrypt content (key db);
          match r with
          | Err e => mret (db, Some (Wrapf "failed to encrypt content" e))
          | Ok encrypted =>
              (* Create new item *)
              id ← time.Now;
              now ← time.Now;
              let item := mkItem (Sprintf_d id) itemType encrypted now false
                                 (len content) contentHash in
              (* Add to beginning of list *)
              let db := mkDatabase ([item] ++ Items db) (key db)
                                   (maxItems db) in
              (* Save to disk *)
              err ← saveInternal db;
              match err with
              | Some e => mret (db, Some e)
              | None =>
                  (* Return warning signal if near limit *)
                  if warnNeeded
                  then mret (db, Some (Errorf ("LIMIT_WARN:"
                                               +:+ Sprintf_d remaining)))
                  else mret (db, None)
              end
          end
    end.

(** GetItem retrieves and decrypts an item by ID *)
Definition GetItem (db : Database) (id : string)
  : result (ClipboardItem * list byte) :=
  match list_find (fun item => ID item = id) (Items db) with
  | Some (i, item) =>
      match Decrypt (Content item) (key db) with
      | Err e => Err (Wrapf "failed to decrypt item" e)
      | Ok decrypted => Ok (item, decrypted)
      end
  | None => Err (Errorf "item not found")
  end.

(** TogglePin toggles the pinned status of an item *)
Definition TogglePin (db : Database) (id : string)
  : M (Database * option error) :=
  match list_find (fun item => ID item = id) (Items db) with
  | Some (i, item) =>
      let db := mkDatabase
                  (<[i := withPinned item (negb (Pinned item))]> (Items db))
                  (key db) (maxItems db) in
      err ← saveInternal db;
      mret (db, err)
  | None => mret (db, Some (Errorf "item not found"))
  end.

(** DeleteItem removes an item from the database *)
Definition DeleteItem (db : Database) (id : string)
  : M (Database * option error) :=
  match list_find (fun item => ID item = id) (Items db) with
  | Some (i, item) =>
      let db := mkDatabase (take i (Items db) ++ drop (S i) (Items db))
                           (key db) (maxItems db) in
      err ← saveInternal db;
      mret (db, err)
  | None => mret (db, Some (Errorf "item not found"))
  end.

(** GetAllItems returns all items (metadata only, no decrypted content).
    Pinned items are returned first, then unpinned items by timestamp *)
Definition GetAllItems (db : Database) : list ClipboardItem :=
  let '(pinned, unpinned) := separate (Items db) in
  [] ++ pinned ++ unpinned.

(** ClearAll removes all items from the database *)
Definition ClearAll (db : Database) : M (Database * option error) :=
  let db := mkDatabase [] (key db) (maxItems db) in
  err ← saveInternal db;
  mret (db, err).

(** GetItemCount returns the number of items in the database *)
Definition GetItemCount (db : Database) : Z := len (Items db).

(** GetPinnedCount returns the number of pinned items *)
Definition GetPinnedCount (db : Database) : Z :=
  fold_left (fun count item => if Pinned item then count + 1 else count)
            (Items db) 0.

(** *** Sequences of operations *)

Inductive operation : Type :=
| OpAddItem (itemType : string) (content : list byte)
| OpTogglePin (id : string)
| OpDeleteItem (id : string)
| OpClearAll
| OpSetMaxItems (max : Z).

Definition perform (db : Database) (o : operation) : M Database :=
  match o with
  | OpAddItem itemType content =>
      '(db', _) ← AddItem db itemType content; mret db'
  | OpTogglePin id => '(db', _) ← TogglePin db id; mret db'
  | OpDeleteItem id => '(db', _) ← DeleteItem db id; mret db'
  | OpClearAll => '(db', _) ← ClearAll db; mret db'
  | OpSetMaxItems max => SetMaxItems db max
  end.

Fixpoint performAll (db : Database) (ops : list operation) : M Database :=
  match ops with
  | [] => mret db
  | o :: rest => db' ← perform db o; performAll db' rest
  end.

(** The empty store, as NewDatabase makes it when there is no file. *)
Definition emptyStore (k : list byte) : Database :=
  mkDatabase [] k DefaultMaxItems.

(** The states the store can be in: the empty store, and what an operation
    makes of a reachable state in any world. *)
Inductive reachable : Database -> Prop :=
| reachable_empty k : reachable (emptyStore k)
| reachable_step db o w :
    reachable db -> reachable (perform db o w).1.
End storage.

(** ** The words of the specification, to compare the code with *)

Definition pinnedOf (items : list ClipboardItem) : list ClipboardItem :=
  filter (fun item => Pinned item = true) items.

Definition unpinnedOf (items : list ClipboardItem) : list ClipboardItem :=
  filter (fun item => Pinned item = false) items.

(** An operation that takes the pin off an item of a store in which the
    items without a pin have already reached maxItems. *)
Definition overfills (db : Database) (o : operation) : Prop :=
  match o with
  | OpTogglePin id =>
      exists i item,
        list_find (fun item => ID item = id) (Items db) = Some (i, item)
        /\ Pinned item = true
        /\ len (unpinnedOf (Items db)) >= maxItems db
  | _ => False
  end.

(** The states the store reaches from the empty store without such an
    operation. *)
Inductive reachable_with_room `{BlockPrims} `{StorePrims}
  : Database -> Prop :=
| reachable_with_room_empty k : reachable_with_room (emptyStore k)
| reachable_with_room_step db o w :
    reachable_with_room db -> ~ overfills db o ->
    reachable_with_room (perform db o w).1.

(** The cap SetMaxItems applies: [max] brought into [10, 500]. *)
Definition clampedCap (max : Z) : Z := Z.min 500 (Z.max 10 max).

(** What eviction retains under a cap: the pinned items in their order, cut
    to the cap, then as many of the leading (newest) unpinned items as the
    cap still has room for. *)
Definition retained (cap : nat) (items : list ClipboardItem)
  : list ClipboardItem :=
  let kept := take cap (pinnedOf items) in
  kept ++ take (cap - length kept) (unpinnedOf items).

(** ** When persistence works

    The conditions under which saveInternal cannot fail: a key of an
    accepted length, a collection json.Marshal accepts, APPDATA set, no
    fault of the file system, and twelve random bytes for each of the
    [draws] envelopes to be made. *)
Definition persistence_works `{StorePrims} (db : Database) (w : World)
    (draws : nat) : Prop :=
  key_size_ok (key db) /\
  (forall items, exists b, json_Marshal items = Ok b) /\
  appdata w <> EmptyString /\ mkdir_fault w = None /\
  write_fault w = None /\
  (12 * draws <= length (entropy w))%nat.

(** The store [db'] is [db] with a new unpinned item in front that holds the
    submission: its kind, its size, its digest, and an envelope of the
    plaintext under the key of the store. *)
Definition inserted `{BlockPrims} `{StorePrims} (db db' : Database)
    (itemType : string) (content : list byte) : Prop :=
  exists item,
    Items db' = item :: Items db /\
    key db' = key db /\ maxItems db' = maxItems db /\
    Type_ item = itemType /\ Pinned item = false /\
    Size item = len content /\ Hash item = contentHashOf content /\
    Decrypt (Content item) (key db) = Ok content.

(** The file holds an envelope of the marshalled collection of [db]. *)
Definition persisted `{BlockPrims} `{StorePrims} (db : Database) (w : World)
  : Prop :=
  exists jsonData e,
    json_Marshal (Items db) = Ok jsonData /\
    file w = Some e /\
    Decrypt e (key db) = Ok jsonData.

(** The digest and kind of an item, and the invariant of the data model that
    no two stored items share them. *)
Definition digestKind (item : ClipboardItem) : string * string :=
  (Hash item, Type_ item).

Definition unique_content (db : Database) : Prop :=
  NoDup (digestKind <$> Items db).

(** The capacity invariant, with the range of maxItems it rests on. *)
Definition within_capacity (db : Database) : Prop :=
  len (unpinnedOf (Items db)) <= maxItems db /\ 10 <= maxItems db <= 500.

(** Two worlds that differ at most in the clock and the random source. *)
Definition same_files (w w' : World) : Prop :=
  appdata w' = appdata w /\ dirs w' = dirs w /\
  mkdir_fault w' = mkdir_fault w /\ mkdir_made w' = mkdir_made w /\
  file w' = file w /\ read_fault w' = read_fault w /\
  write_fault w' = write_fault w /\ write_reach w' = write_reach w /\
  machine_id w' = machine_id w.

(** Two worlds that differ at most in the clock, the random source and the
    directories that exist. *)
Definition same_but_dirs (w w' : World) : Prop :=
  appdata w' = appdata w /\
  mkdir_fault w' = mkdir_fault w /\ mkdir_made w' = mkdir_made w /\
  file w' = file w /\ read_fault w' = read_fault w /\
  write_fault w' = write_fault w /\ write_reach w' = write_reach w /\
  machine_id w' = machine_id w.

(** The world once GetDatabasePath has made sure of the Pano directory. *)
Definition with_Pano (w : World) : World :=
  with_dirs w (os.made (filepath.Join (appdata w) "Pano") (dirs w)).

(** The file after a write that met its fault once the file was open: the
    first [n] bytes of what was to be written. *)
Definition torn (n : nat) (data : string) : option string :=
  Some (substring 0 n data).

(** The errors saveInternal can return: none of them is an advisory. *)
Definition plain_failure (e : error) : Prop :=
  e = Errorf "APPDATA environment variable not set"
  \/ exists msg cause, e = Wrapf msg cause.

(** ** A small instance of the primitives

    Stand-ins for AES, the GCM authenticator, SHA-256 and encoding/json, and
    a world without faults, on which the model runs by computation. *)
Module sample.
Definition mix (modulus : N) (l : list byte) : N :=
  fold_left (fun acc b => ((acc * 257 + Byte.to_N b + 1) mod modulus)%N)
            l 0%N.

(** A 31-bit value spread over 128 bits. *)
Definition spread (m : N) : N :=
  (m * 158456325046979328458246979585)%N.

#[export] Instance block_prims : BlockPrims := {|
  aes_encrypt k block := spread (mix 2147483647 (k ++ block));
  gcm_auth k nonce ct aad :=
    spread (mix 2147483629 (k ++ nonce ++ ct ++ aad))
|}.

#[export] Instance store_prims : StorePrims := {|
  sha256_Sum256 l := spread (spread (mix 618970019642690137449562111 l));
  json_Marshal items :=
    Ok (list_byte_of_string
          ("[" +:+ String.concat "," (map ID items) +:+ "]"));
  json_Unmarshal b :=
    match b with
    | [] => ([], Some (SyntaxError "unexpected end of JSON input"))
    | _ :: _ => ([], None)
    end;
  runtime_GOOS := "windows";
  runtime_GOARCH := "amd64"
|}.

Definition world : World := {|
  clock n := 1700000000000000000 + Z.of_nat n;
  entropy := map (fun n => bytes.of_N (N.of_nat (7 * n + 3))) (seq 0 600);
  appdata := "C:\Users\pano\AppData\Roaming";
  dirs := ["C:\Users\pano\AppData\Roaming"];
  mkdir_fault := None;
  mkdir_made := [];
  file := None;
  read_fault := None;
  write_fault := None;
  write_reach := None;
  machine_id := Ok "4c4c4544-0042-3510-8052-b4c04f4a3332"
|}.

Definition secret : list byte :=
  bytes.big_endian 32
    (spread (spread (mix 2147483647 (list_byte_of_string "pano")))).

Definition text (s : string) : list byte := list_byte_of_string s.

(** The world with a given content of the database file. *)
Definition world_with (f : option string) : World := with_file world f.

Definition store0 : Database := emptyStore secret.

(** The ID of the first item added in [world]. *)
Definition stamp : string := "1700000000000000000".

Definition entry (n : nat) (pinned : bool) : ClipboardItem :=
  mkItem (Sprintf_d (Z.of_nat n)) "text" EmptyString (Z.of_nat n) pinned
         0
         (Sprintf_d (Z.of_nat n)).

(** Ten unpinned items under a cap of ten. *)
Definition fullStore : Database :=
  mkDatabase (map (fun n => entry n false) (seq 0 10)) secret 10.

(** Ten items under a cap of ten, the first of them pinned. *)
Definition pinnedFull : Database :=
  mkDatabase (map (fun n => entry n (Nat.eqb n 0)) (seq 0 10)) secret 10.

(** The empty store under a cap of ten. *)
Definition capTen : Database := mkDatabase [] secret 10.

(** Three pinned items (0, 5, 10) among twelve unpinned ones. *)
Definition mixedStore : Database :=
  mkDatabase (map (fun n => entry n (Nat.eqb (n mod 5) 0)) (seq 0 15))
             secret 100.

(** A pinned item in front of the item that holds "hello". *)
Definition helloItem : ClipboardItem :=
  mkItem stamp "text" EmptyString 1 false 5
         (contentHashOf (text "hello")).

Definition helloStore : Database :=
  mkDatabase [entry 7 true; helloItem] secret 100.

Definition add (s : string) : operation := OpAddItem "text" (text s).

(** One item is added and pinned, ten more are added, and the pin is
    taken off again. *)
Definition overflowing : list operation :=
  [OpSetMaxItems 10; add "a0"; OpTogglePin stamp;
   add "a1"; add "a2"; add "a3"; add "a4"; add "a5";
   add "a6"; add "a7"; add "a8"; add "a9"; add "a10";
   OpTogglePin stamp].

(** One item is added and pinned under a cap of eleven. *)
Definition onePinned : list operation :=
  [OpSetMaxItems 11; add "a0"; OpTogglePin stamp].

(** One item is added, pinned and unpinned again. *)
Definition pinAndUnpin : list operation :=
  [add "a0"; OpTogglePin stamp; OpTogglePin stamp].

(** The first item is pinned, ten more are added, and the cap of ten moves
    the pinned item to the front; there its pin is taken off, and under a
    cap of 500 two more items are added. *)
Definition aged : list operation :=
  [add "a0"; OpTogglePin stamp;
   add "a1"; add "a2"; add "a3"; add "a4"; add "a5";
   add "a6"; add "a7"; add "a8"; add "a9"; add "a10";
   OpSetMaxItems 10; OpTogglePin stamp; OpSetMaxItems 500;
   add "a11"; add "a12"].

Definition elevenMore : list operation :=
  [add "b1"; add "b2"; add "b3"; add "b4"; add "b5"; add "b6";
   add "b7"; add "b8"; add "b9"; add "b10"; add "b11"].
End sample.

(** ** hardware.go: the fingerprint of the key *)

Section fingerprint.
Context `{StorePrims}.

(** GetKeyFingerprint returns a human-readable fingerprint of the hardware
    key *)
Definition GetKeyFingerprint : M (result string) :=
  k ← GetHardwareKey;
  match k with
  | Err e => mret (Err e)
  | Ok key => mret (Ok (fmt.Sprintf_x (take 4 key)))
  end.
End fingerprint.

(** ** What a stored item holds

    An item is sealed under a key when its Content is an envelope that the
    key opens, and Size and Hash are the length and the digest of the
    plaintext, which is within the size limit. *)
Definition sealed `{BlockPrims} `{StorePrims} (k : list byte)
    (item : ClipboardItem) : Prop :=
  exists content,
    Decrypt (Content item) k = Ok content /\
    Size item = len content /\
    Hash item = contentHashOf content /\
    len content <= MaxItemSize.

Definition well_sealed `{BlockPrims} `{StorePrims} (db : Database) : Prop :=
  Forall (sealed (key db)) (Items db).

(** The world with a disk on which os.WriteFile meets the fault [e]:
    before the file is open when [reach] is None, after [n] bytes when it
    is Some n. *)
Definition write_faulty (w : World) (e : error) (reach : option nat)
  : World :=
  mkWorld (clock w) (entropy w) (appdata w) (dirs w) (mkdir_fault w)
          (mkdir_made w) (file w) (read_fault w) (Some e) reach
          (machine_id w).

(** ** The text of an error, and fmt.Sscanf *)

(** The texts of the errors the libraries make themselves. *)
Class ErrorTexts := {
  library_text : error -> string
}.

(** err.Error(): fmt.Errorf("msg: %w", cause) puts the text of the cause
    after the message. *)
Fixpoint Error `{ErrorTexts} (e : error) : string :=
  match e with
  | Errorf msg => msg
  | Wrapf msg cause => msg +:+ ": " +:+ Error cause
  | _ => library_text e
  end.

#[global] Instance int_range_dec (z : Z) : Decision (int_range z).
Proof. unfold int_range. apply _. Defined.

Module scan.
(** isSpace on the one-byte runes: tab, line feed, vertical tab, form
    feed, carriage return and space. *)
Definition isSpace (c : ascii) : bool :=
  match nat_of_ascii c with
  | 9%nat | 10%nat | 11%nat | 12%nat | 13%nat | 32%nat => true
  | _ => false
  end.

Definition isDigit (c : ascii) : bool :=
  (48 <=? nat_of_ascii c)%nat && (nat_of_ascii c <=? 57)%nat.

(** The literal part of a format without spaces, newlines and verbs: each
    of its characters must be the next one of the input. *)
Fixpoint advance (format input : string) : option string :=
  match format with
  | EmptyString => Some input
  | String c format' =>
      match input with
      | String d input' =>
          if Ascii.eqb c d then advance format' input' else None
      | EmptyString => None
      end
  end.

(** ss.SkipSpace where a newline is not a space (Sscanf): None is the
    error "unexpected newline". *)
Fixpoint SkipSpace (s : string) : option string :=
  match s with
  | EmptyString => Some EmptyString
  | String c rest =>
      if Ascii.eqb c "010"%char then None
      else if isSpace c then SkipSpace rest
      else Some s
  end.

(** The digits ss.scanNumber accepts. *)
Fixpoint scanNumber (s : string) : string :=
  match s with
  | EmptyString => EmptyString
  | String c rest =>
      if isDigit c then String c (scanNumber rest) else EmptyString
  end.

(** ss.scanInt for the verb %d into an int: spaces, an optional sign, at
    least one digit, and strconv.ParseInt(tok, 10, 64); None is an error,
    which leaves the operand as it was. *)
Definition scanInt (s : string) : option Z :=
  match SkipSpace s with
  | None => None
  | Some s =>
      let '(negative, s) :=
        match s with
        | String "-"%char rest => (true, rest)
        | String "+"%char rest => (false, rest)
        | _ => (false, s)
        end in
      match NilZero.uint_of_string (scanNumber s) with
      | None => None
      | Some d =>
          let i := if negative : bool then - Z.of_uint d else Z.of_uint d in
          if decide (int_range i) then Some i else None
      end
  end.

(** fmt.Sscanf(str, literal + "%d", &n) *)
Definition Sscanf_d (str literal : string) : option Z :=
  match advance literal str with
  | None => None
  | Some rest => scanInt rest
  end.
End scan.


(** ** clipboard_windows.go: images as device independent bitmaps *)

(** What a Go function does: it returns a value, returns an error, or
    panics. *)
Inductive outcome (A : Type) : Type :=
| Returns (a : A)
| Fails (e : error)
| Panics.
Arguments Returns {A} a.
Arguments Fails {A} e.
Arguments Panics {A}.

(** The conversions int(...) on a 64-bit platform, int32(...), uint32(...)
    and uint8(...) of an integer value. *)
Definition int64 (z : Z) : Z :=
  (z + 9223372036854775808) mod 18446744073709551616 - 9223372036854775808.

Definition int32 (z : Z) : Z := (z + 2147483648) mod 4294967296 - 2147483648.

Definition uint32 (z : Z) : Z := z mod 4294967296.

Definition uint8 (z : Z) : byte := bytes.of_N (Z.to_N (z mod 256)).

(** for i := from; i < from + n; i++ { body }, with a body that can
    panic (None). *)
Fixpoint for_loop {St : Type} (n : nat) (i : Z)
    (body : Z -> St -> option St) (s : St) : option St :=
  match n with
  | O => Some s
  | S n' =>
      match body i s with
      | None => None
      | Some s' => for_loop n' (i + 1) body s'
      end
  end.

(** s[i] and s[i] = v on a slice: None is the panic of an index out of
    range. *)
Definition index (s : list byte) (i : Z) : option byte :=
  if decide (0 <= i < len s) then s !! Z.to_nat i else None.

Definition store (s : list byte) (i : Z) (v : byte) : option (list byte) :=
  if decide (0 <= i < len s) then Some (<[Z.to_nat i := v]> s) else None.

(** The memory the Go runtime hands out: whether make([]byte, n) gets its
    n bytes.  make panics beyond maxAlloc, which is 2^48 bytes on the
    64-bit platforms, and a program that runs out of memory ends there;
    allocations of less than 2^31 bytes are taken to succeed. *)
Class Heap : Type := {
  allocates : Z -> bool;
  allocates_maxAlloc :
    forall n, allocates n = true -> (n <= 281474976710656)%Z;
  allocates_small :
    forall n, (0 <= n < 2147483648)%Z -> allocates n = true
}.

Module image.
(** A Rectangle: Min and Max. *)
Record Rectangle : Type := mkRectangle {
  Min_X : Z; Min_Y : Z; Max_X : Z; Max_Y : Z
}.

(** image.Rect: the rectangle with the coordinates in order. *)
Definition Rect (x0 y0 x1 y1 : Z) : Rectangle :=
  let '(x0, x1) := if decide (x0 > x1) then (x1, x0) else (x0, x1) in
  let '(y0, y1) := if decide (y0 > y1) then (y1, y0) else (y0, y1) in
  mkRectangle x0 y0 x1 y1.

Definition Dx (r : Rectangle) : Z := int64 (Max_X r - Min_X r).
Definition Dy (r : Rectangle) : Z := int64 (Max_Y r - Min_Y r).

(** Point{x, y}.In(r) *)
Definition In (x y : Z) (r : Rectangle) : Prop :=
  Min_X r <= x /\ x < Max_X r /\ Min_Y r <= y /\ y < Max_Y r.

#[global] Instance In_dec x y r : Decision (In x y r).
Proof. unfold In. apply _. Defined.

(** An image.Image: its bounds, and for every point the four values
    (r, g, b, a) that At(x, y).RGBA() returns. *)
Record Image : Type := mkImage {
  Bounds : Rectangle;
  At : Z -> Z -> Z * Z * Z * Z
}.

(** An *image.RGBA *)
Record RGBA : Type := mkRGBA {
  Pix : list byte;
  Stride : Z;
  RGBA_Rect : Rectangle
}.

(** image.NewRGBA: None is the panic on huge or negative dimensions
    (mul3NonNeg(4, w, h) < 0), or that of make when the pixels cannot be
    allocated. *)
Definition NewRGBA `{Heap} (r : Rectangle) : option RGBA :=
  let w := Dx r in
  let h := Dy r in
  if decide (w < 0 \/ h < 0 \/ 4 * w >= 18446744073709551616
             \/ 4 * w * h >= 9223372036854775808)
  then None
  else if allocates (4 * w * h)
  then Some (mkRGBA (replicate (Z.to_nat (4 * w * h)) x00)
                    (int64 (4 * w)) r)
  else None.

(** p.PixOffset(x, y) *)
Definition PixOffset (p : RGBA) (x y : Z) : Z :=
  int64 (int64 (int64 (y - Min_Y (RGBA_Rect p)) * Stride p)
         + int64 (int64 (x - Min_X (RGBA_Rect p)) * 4)).

(** p.Set(x, y, color.RGBA{R, G, B, A}): nothing outside the rectangle;
    None is the panic of the slice expression. *)
Definition Set_ (p : RGBA) (x y : Z) (c : byte * byte * byte * byte)
  : option RGBA :=
  if decide (In x y (RGBA_Rect p)) then
    let i := PixOffset p x y in
    let '(R, G, B, A) := c in
    if decide (0 <= i /\ i + 4 <= len (Pix p)) then
      Some (mkRGBA (<[Z.to_nat (i + 3) := A]>
                      (<[Z.to_nat (i + 2) := B]>
                         (<[Z.to_nat (i + 1) := G]>
                            (<[Z.to_nat i := R]> (Pix p)))))
                   (Stride p) (RGBA_Rect p))
    else None
  else Some p.

(** p.RGBAAt(x, y) *)
Definition RGBAAt (p : RGBA) (x y : Z)
  : option (byte * byte * byte * byte) :=
  if decide (In x y (RGBA_Rect p)) then
    let i := PixOffset p x y in
    if decide (0 <= i /\ i + 4 <= len (Pix p)) then
      R ← Pix p !! Z.to_nat i;
      G ← Pix p !! Z.to_nat (i + 1);
      B ← Pix p !! Z.to_nat (i + 2);
      A ← Pix p !! Z.to_nat (i + 3);
      Some (R, G, B, A)
    else None
  else Some (x00, x00, x00, x00).
End image.

Module dib.
(** BITMAPINFOHEADER structure for DIB format; each field holds a value
    of its Go type. *)
Record bitmapInfoHeader : Type := mkHeader {
  Size : Z;          (* uint32 *)
  Width : Z;         (* int32 *)
  Height : Z;        (* int32 *)
  Planes : Z;        (* uint16 *)
  BitCount : Z;      (* uint16 *)
  Compression : Z;   (* uint32 *)
  ImageSize : Z;     (* uint32 *)
  XPelsPerMeter : Z; (* int32 *)
  YPelsPerMeter : Z; (* int32 *)
  ClrUsed : Z;       (* uint32 *)
  ClrImportant : Z   (* uint32 *)
}.

(** The [width] bytes of [v], least significant first. *)
Fixpoint little_endian (width : nat) (v : Z) : list byte :=
  match width with
  | O => []
  | S w => uint8 v :: little_endian w (v / 256)
  end.

(** The unsigned value of bytes, least significant first. *)
Fixpoint le_value (b : list byte) : Z :=
  match b with
  | [] => 0
  | x :: rest => Z.of_N (Byte.to_N x) + 256 * le_value rest
  end.

(** binary.Write(&buf, binary.LittleEndian, header) *)
Definition binary_Write (h : bitmapInfoHeader) : list byte :=
  little_endian 4 (Size h) ++ little_endian 4 (Width h)
  ++ little_endian 4 (Height h) ++ little_endian 2 (Planes h)
  ++ little_endian 2 (BitCount h) ++ little_endian 4 (Compression h)
  ++ little_endian 4 (ImageSize h) ++ little_endian 4 (XPelsPerMeter h)
  ++ little_endian 4 (YPelsPerMeter h) ++ little_endian 4 (ClrUsed h)
  ++ little_endian 4 (ClrImportant h).

(** binary.Read(reader, binary.LittleEndian, header) on the 40 bytes
    data[:40] *)
Definition binary_Read (data : list byte) : bitmapInfoHeader :=
  let field (from width : nat) := le_value (take width (drop from data)) in
  mkHeader (field 0 4)%nat (int32 (field 4 4)%nat) (int32 (field 8 4)%nat)
           (field 12 2)%nat (field 14 2)%nat (field 16 4)%nat
           (field 20 4)%nat (int32 (field 24 4)%nat)
           (int32 (field 28 4)%nat) (field 32 4)%nat (field 36 4)%nat.

(** uint8(v >> 8) of the four values of a colour *)
Definition to8 (c : Z * Z * Z * Z) : byte * byte * byte * byte :=
  let '(r, g, b, a) := c in
  (uint8 (Z.shiftr r 8), uint8 (Z.shiftr g 8), uint8 (Z.shiftr b 8),
   uint8 (Z.shiftr a 8)).

(** imageToDIB converts image.Image to DIB (Device Independent Bitmap)
    format *)
Definition imageToDIB (img : image.Image) : outcome (list byte) :=
  let bounds := image.Bounds img in
  let width := image.Dx bounds in
  let height := image.Dy bounds in
  (* Get image origin offset (some images don't start at 0,0) *)
  let minX := image.Min_X bounds in
  let minY := image.Min_Y bounds in
  (* Validate dimensions *)
  if decide (width <= 0 \/ height <= 0) then
    Fails (Errorf ("invalid image dimensions: " +:+ Sprintf_d width
                   +:+ "x" +:+ Sprintf_d height))
  else
    (* Calculate row size (must be aligned to 4 bytes) *)
    let rowSize := int64 (Z.quot (int64 (int64 (width * 4) + 3)) 4 * 4) in
    (* Calculate image data size *)
    let imageSize := int64 (rowSize * height) in
    (* Create BITMAPINFOHEADER *)
    let header :=
      mkHeader 40 (int32 width) (int32 height) 1 32 0 (uint32 imageSize)
               0 0 0 0 in
    (* Write pixel data (bottom-up, BGR format) *)
    if decide (imageSize < 0) then Panics
    else
      let pixelData := replicate (Z.to_nat imageSize) x00 in
      let filled :=
        for_loop (Z.to_nat height) 0
          (fun y pixelData =>
             let dstY := int64 (int64 (height - 1) - y) in
             for_loop (Z.to_nat width) 0
               (fun x pixelData =>
                  let '(r8, g8, b8, a8) :=
                    to8 (image.At img (int64 (minX + x))
                                      (int64 (minY + y))) in
                  (* DIB stores pixels as BGRA (not RGBA) *)
                  let idx := int64 (int64 (dstY * rowSize)
                                    + int64 (x * 4)) in
                  pixelData ← store pixelData idx b8;
                  pixelData ← store pixelData (int64 (idx + 1)) g8;
                  pixelData ← store pixelData (int64 (idx + 2)) r8;
                  store pixelData (int64 (idx + 3)) a8)
               pixelData)
          pixelData in
      match filled with
      | None => Panics
      | Some pixelData => Returns (binary_Write header ++ pixelData)
      end.

(** dibToImage converts DIB (Device Independent Bitmap) data to Go
    image.Image *)
Definition dibToImage `{Heap} (data : list byte)
    (header : bitmapInfoHeader) : outcome image.RGBA :=
  let width := Width header in
  let height := Height header in
  let height := if decide (height < 0) then - height else height in
  (* Calculate offset to pixel data *)
  let offset := 40 + ClrUsed header * 4 in
  (* Create RGBA image *)
  match image.NewRGBA (image.Rect 0 0 width height) with
  | None => Panics
  | Some img =>
    (* Calculate row size (must be aligned to 4 bytes) *)
    let rowSize := Z.quot (width * BitCount header + 31) 32 * 4 in
    if decide (len data < int64 (offset + int64 (rowSize * height))) then
      Fails (Errorf "insufficient data for image")
    else if decide (offset > len data) then Panics
    else
      (* Copy pixel data (DIB is stored bottom-up, we need top-down) *)
      let pixelData := drop (Z.to_nat offset) data in
      if decide (BitCount header = 32) then
        (* 32-bit RGBA *)
        match
          for_loop (Z.to_nat height) 0
            (fun y img =>
               let srcY := height - 1 - y in (* Flip vertically *)
               for_loop (Z.to_nat width) 0
                 (fun x img =>
                    let idx := int64 (int64 (srcY * rowSize) + x * 4) in
                    if decide (idx + 3 < len pixelData) then
                      (* BGR to RGB conversion (Windows stores as BGR) *)
                      R ← index pixelData (idx + 2);
                      G ← index pixelData (idx + 1);
                      B ← index pixelData idx;
                      A ← index pixelData (idx + 3);
                      image.Set_ img x y (R, G, B, A)
                    else Some img)
                 img)
            img
        with
        | None => Panics
        | Some img => Returns img
        end
      else if decide (BitCount header = 24) then
        (* 24-bit RGB *)
        match
          for_loop (Z.to_nat height) 0
            (fun y img =>
               let srcY := height - 1 - y in (* Flip vertically *)
               for_loop (Z.to_nat width) 0
                 (fun x img =>
                    let idx := int64 (int64 (srcY * rowSize) + x * 3) in
                    if decide (idx + 2 < len pixelData) then
                      (* BGR to RGB conversion *)
                      R ← index pixelData (idx + 2);
                      G ← index pixelData (idx + 1);
                      B ← index pixelData idx;
                      image.Set_ img x y (R, G, B, xff)
                    else Some img)
                 img)
            img
        with
        | None => Panics
        | Some img => Returns img
        end
      else
        Fails (Errorf ("unsupported bit depth: "
                       +:+ Sprintf_d (BitCount header)))
  end.

(** In words: the 8-bit pixel of [img] at column x and row y of its
    bounds. *)
Definition pixel8 (img : image.Image) (x y : Z)
  : byte * byte * byte * byte :=
  to8 (image.At img (image.Min_X (image.Bounds img) + x)
                    (image.Min_Y (image.Bounds img) + y)).

(** The k-th of the four bytes of a pixel in the bitmap: blue, green,
    red, alpha. *)
Definition bgra (c : byte * byte * byte * byte) (k : Z) : byte :=
  let '(r, g, b, a) := c in
  if decide (k = 0) then b else if decide (k = 1) then g
  else if decide (k = 2) then r else a.

(** The k-th of the four bytes of a pixel in Pix: red, green, blue,
    alpha. *)
Definition rgba (c : byte * byte * byte * byte) (k : Z) : byte :=
  let '(r, g, b, a) := c in
  if decide (k = 0) then r else if decide (k = 1) then g
  else if decide (k = 2) then b else a.

(** A header whose fields hold values of their types. *)
Definition well_typed (h : bitmapInfoHeader) : Prop :=
  0 <= Size h < 4294967296 /\
  -2147483648 <= Width h < 2147483648 /\
  -2147483648 <= Height h < 2147483648 /\
  0 <= Planes h < 65536 /\ 0 <= BitCount h < 65536 /\
  0 <= Compression h < 4294967296 /\ 0 <= ImageSize h < 4294967296 /\
  -2147483648 <= XPelsPerMeter h < 2147483648 /\
  -2147483648 <= YPelsPerMeter h < 2147483648 /\
  0 <= ClrUsed h < 4294967296 /\ 0 <= ClrImportant h < 4294967296.

(** An image the bitmap header can describe: bounds that are Go ints, at
    least one pixel, and less than 2^31 bytes of pixel data. *)
Definition describable (img : image.Image) : Prop :=
  let r := image.Bounds img in
  int_range (image.Min_X r) /\ int_range (image.Max_X r) /\
  int_range (image.Min_Y r) /\ int_range (image.Max_Y r) /\
  0 < image.Max_X r - image.Min_X r /\
  0 < image.Max_Y r - image.Min_Y r /\
  4 * (image.Max_X r - image.Min_X r) * (image.Max_Y r - image.Min_Y r)
  < 2147483648.
End dib.
(** ** monitor.go: the clipboard monitor *)

Module clipboard.
(** The calls the monitor makes to its callbacks. *)
Inductive call : Type :=
| limitCallback (remaining : Z)
| changeCallback (itemType : string) (content : list byte).

(** Monitor handles clipboard monitoring; of a callback the model keeps
    whether it is set. *)
Record Monitor : Type := mkMonitor {
  db : Database;
  lastTextHash : list byte;
  lastImageHash : list byte;
  running : bool;
  onChange : bool;
  onLimitWarn : bool
}.

(** The PNG codec of image/png. *)
Class ImagePrims := {
  png_Encode : image.Image -> result (list byte);
  png_Decode : list byte -> result image.Image
}.

(** The system clipboard as the calls of clipboard_windows.go meet it. *)
Record Board : Type := mkBoard {
  text : result string;           (* what clipboard.ReadAll returns *)
  no_text : error;                (* the error of ReadAll when there is no text *)
  open_fails : bool;              (* OpenClipboard returns 0 *)
  has_DIB : bool;                 (* IsClipboardFormatAvailable(CF_DIB) *)
  has_DIBV5 : bool;               (* IsClipboardFormatAvailable(CF_DIBV5) *)
  block : option (list byte);     (* the memory behind GetClipboardData(CF_DIB); None: no handle *)
  empty_fails : bool;             (* EmptyClipboard returns 0 *)
  alloc_fails : bool;             (* GlobalAlloc returns 0 *)
  lock_fails : bool;              (* GlobalLock returns 0 *)
  set_fails : bool;               (* SetClipboardData returns 0 *)
  slack : list byte;              (* what GlobalSize counts beyond the bytes asked for *)
  errno : string                  (* the text of the last system error *)
}.

(** The clipboard with another content; a bitmap can be had in both
    bitmap formats. *)
Definition with_content (b : Board) (t : result string) (dib : bool)
    (blk : option (list byte)) : Board :=
  mkBoard t (no_text b) (open_fails b) dib dib blk (empty_fails b)
          (alloc_fails b) (lock_fails b) (set_fails b) (slack b) (errno b).

(** clipboard.ReadAll() *)
Definition ReadAll (b : Board) : result string := text b.

(** clipboard.WriteAll(text) of github.com/atotto/clipboard: what it
    makes of the clipboard is left open. *)
Class TextPrims := {
  WriteAll : string -> Board -> outcome unit * Board
}.

(** An *image.RGBA as an image.Image: At(x, y).RGBA() of an 8-bit
    colour. *)
Definition RGBA_Image (p : image.RGBA) : image.Image :=
  image.mkImage (image.RGBA_Rect p)
    (fun x y =>
       match image.RGBAAt p x y with
       | Some (r, g, b, a) =>
           (257 * Z.of_N (Byte.to_N r), 257 * Z.of_N (Byte.to_N g),
            257 * Z.of_N (Byte.to_N b), 257 * Z.of_N (Byte.to_N a))
       | None => (0, 0, 0, 0)
       end).

Section board.
Context `{ErrorTexts} `{Heap}.

(** readClipboardImage reads an image from Windows clipboard (internal) *)
Definition readClipboardImage (b : Board) : outcome image.RGBA :=
  (* Open clipboard *)
  if open_fails b then Fails (Errorf "failed to open clipboard")
  (* Check if DIB format is available *)
  else if negb (has_DIB b) && negb (has_DIBV5 b) then
    Fails (Errorf "no image format available in clipboard")
  else
    (* Get clipboard data handle *)
    match block b with
    | None => Fails (Errorf ("failed to get clipboard data: " +:+ errno b))
    | Some data =>
        (* Lock the memory *)
        if lock_fails b then
          Fails (Errorf ("failed to lock memory: " +:+ errno b))
        (* Get size of clipboard data *)
        else if decide (len data = 0) then
          Fails (Errorf "invalid clipboard data size")
        (* Read the data: the slice of the array of 1 << 30 bytes panics
           beyond that size *)
        else if decide (len data > 1073741824) then Panics
        (* Parse BITMAPINFOHEADER *)
        else if decide (len data < 40) then
          Fails (Errorf "clipboard data too short")
        else
          let header := dib.binary_Read (take 40 data) in
          (* Create image from DIB data *)
          match dib.dibToImage data header with
          | Fails e =>
              Fails (Errorf ("failed to convert DIB to image: "
                             +:+ Error e))
          | Panics => Panics
          | Returns img => Returns img
          end
    end.

(** ReadClipboardImage reads an image from Windows clipboard *)
Definition ReadClipboardImage (b : Board) : outcome image.RGBA :=
  readClipboardImage b.

(** writeClipboardImage writes an image to Windows clipboard (internal) *)
Definition writeClipboardImage (img : image.Image) (b : Board)
  : outcome unit * Board :=
  (* Convert image to DIB format *)
  match dib.imageToDIB img with
  | Fails e =>
      (Fails (Errorf ("failed to convert image to DIB: " +:+ Error e)), b)
  | Panics => (Panics, b)
  | Returns dibData =>
      (* Open clipboard *)
      if open_fails b then (Fails (Errorf "failed to open clipboard"), b)
      (* Empty clipboard *)
      else if empty_fails b then
        (Fails (Errorf "failed to empty clipboard"), b)
      else
        let b := with_content b (Err (no_text b)) false None in
        (* Allocate global memory for DIB data *)
        if alloc_fails b then
          (Fails (Errorf ("failed to allocate global memory: "
                          +:+ errno b)), b)
        (* Lock memory *)
        else if lock_fails b then
          (Fails (Errorf ("failed to lock memory: " +:+ errno b)), b)
        (* Copy data to global memory: the slice of the array of 1 << 30
           bytes panics beyond that size *)
        else if decide (len dibData > 1073741824) then (Panics, b)
        (* Set clipboard data *)
        else if set_fails b then
          (Fails (Errorf ("failed to set clipboard data: " +:+ errno b)), b)
        else
          (Returns tt,
           with_content b (Err (no_text b)) true
                        (Some (dibData ++ slack b)))
  end.

(** WriteClipboardImage writes an image to Windows clipboard *)
Definition WriteClipboardImage (img : image.Image) (b : Board)
  : outcome unit * Board :=
  writeClipboardImage img b.
End board.

Section monitor.
Context `{BlockPrims} `{StorePrims} `{ErrorTexts} `{ImagePrims}
        `{TextPrims} `{Heap}.

(** NewMonitor creates a new clipboard monitor *)
Definition NewMonitor (d : Database) : Monitor :=
  mkMonitor d [] [] false false false.

(** handleText processes new text content.  The result lists the calls to
    the callbacks in the order in which they are issued. *)
Definition handleText (m : Monitor) (text : string)
  : M (Monitor * list call) :=
  let content := list_byte_of_string text in
  let hash := bytes.big_endian 32 (sha256_Sum256 content) in
  (* Check if content has changed *)
  if bool_decide (hash = lastTextHash m) then mret (m, [])
  else
    let m := mkMonitor (db m) hash (lastImageHash m) (running m)
                       (onChange m) (onLimitWarn m) in
    (* Add to database *)
    '(d, err) ← AddItem (db m) "text" content;
    let m := mkMonitor d (lastTextHash m) (lastImageHash m) (running m)
                       (onChange m) (onLimitWarn m) in
    let change :=
      if onChange m then [changeCallback "text" content] else [] in
    match err with
    | Some e =>
        let errStr := Error e in
        if (10 <=? String.length errStr)%nat
           && String.eqb (substring 0 10 errStr) "LIMIT_FULL"
        then
          mret (m, if onLimitWarn m then [limitCallback 0] else [])
        else if (10 <=? String.length errStr)%nat
                && String.eqb (substring 0 10 errStr) "LIMIT_WARN"
        then
          let remaining :=
            match scan.Sscanf_d errStr "LIMIT_WARN:" with
            | Some n => n
            | None => 0
            end in
          (* Continue to trigger onChange since item was added *)
          mret (m, (if onLimitWarn m then [limitCallback remaining]
                    else []) ++ change)
        else mret (m, []) (* Silently ignore other errors *)
    | None => mret (m, change)
    end.

(** handleImage processes new image content.  None is a panic. *)
Definition handleImage (m : Monitor) (img : image.Image)
  : M (Monitor * list call) :=
  (* Convert image to PNG bytes *)
  match png_Encode img with
  | Err e => mret (m, [])
  | Ok content =>
    let hash := bytes.big_endian 32 (sha256_Sum256 content) in
    (* Check if content has changed *)
    if bool_decide (hash = lastImageHash m) then mret (m, [])
    else
      let m := mkMonitor (db m) (lastTextHash m) hash (running m)
                         (onChange m) (onLimitWarn m) in
      (* Add to database *)
      '(d, err) ← AddItem (db m) "image" content;
      let m := mkMonitor d (lastTextHash m) (lastImageHash m) (running m)
                         (onChange m) (onLimitWarn m) in
      let change :=
        if onChange m then [changeCallback "image" content] else [] in
      match err with
      | Some e =>
          let errStr := Error e in
          if (10 <=? String.length errStr)%nat
             && String.eqb (substring 0 10 errStr) "LIMIT_FULL"
          then
            mret (m, if onLimitWarn m then [limitCallback 0] else [])
          else if (10 <=? String.length errStr)%nat
                  && String.eqb (substring 0 10 errStr) "LIMIT_WARN"
          then
            let remaining :=
              match scan.Sscanf_d errStr "LIMIT_WARN:" with
              | Some n => n
              | None => 0
              end in
            mret (m, (if onLimitWarn m then [limitCallback remaining]
                      else []) ++ change)
          else mret (m, []) (* Silently ignore other errors *)
      | None => mret (m, change)
      end
  end.

(** checkClipboard checks if clipboard content has changed.  None is a
    panic of ReadClipboardImage. *)
Definition checkClipboard (m : Monitor) (b : Board)
  : M (option (Monitor * list call)) :=
  (* Try to read image first (if available) *)
  match ReadClipboardImage b with
  | Panics => mret None
  | Returns img => r ← handleImage m (RGBA_Image img); mret (Some r)
  | Fails _ =>
      (* Try to read text *)
      match ReadAll b with
      | Ok t =>
          if decide (t <> EmptyString)
          then r ← handleText m t; mret (Some r)
          else mret (Some (m, []))
      | Err _ => mret (Some (m, []))
      end
  end.

(** CopyToClipboard copies an item to the system clipboard *)
Definition CopyToClipboard (d : Database) (id : string) (b : Board)
  : outcome unit * Board :=
  match GetItem d id with
  | Err e => (Fails (Wrapf "failed to get item" e), b)
  | Ok (item, content) =>
      if decide (Type_ item = "text") then
        match WriteAll (string_of_list_byte content) b with
        | (Fails e, b) =>
            (Fails (Wrapf "failed to write to clipboard" e), b)
        | (Panics, b) => (Panics, b)
        | (Returns _, b) => (Returns tt, b)
        end
      else if decide (Type_ item = "image") then
        (* Decode PNG image and write to clipboard *)
        match png_Decode content with
        | Err e => (Fails (Wrapf "failed to decode image" e), b)
        | Ok img =>
            match WriteClipboardImage img b with
            | (Fails e, b) =>
                (Fails (Wrapf "failed to write image to clipboard" e), b)
            | (Panics, b) => (Panics, b)
            | (Returns _, b) => (Returns tt, b)
            end
        end
      else (Fails (Errorf ("unknown item type: " +:+ Type_ item)), b)
  end.

(** GetItemContent retrieves the decrypted content of an item *)
Definition GetItemContent (d : Database) (id : string)
  : result (list byte) :=
  match GetItem d id with
  | Err e => Err e
  | Ok (_, content) => Ok content
  end.
End monitor.
End clipboard.

(** ** hotkey.go: the global hotkey *)

Module system.
(** Key codes for Windows *)
Definition scCtrlLeft : Z := 29.
Definition scCtrlRight : Z := 3613.
Definition vkCtrlLeft : Z := 162.
Definition vkCtrlRight : Z := 163.
Definition vkCtrl : Z := 17.
Definition scShiftLeft : Z := 42.
Definition scShiftRight : Z := 54.
Definition vkShiftLeft : Z := 160.
Definition vkShiftRight : Z := 161.
Definition vkShift : Z := 16.
Definition scV : Z := 47.
Definition vkV : Z := 86.

(** The kinds of hook.Event the listener tells apart. *)
Inductive EventKind : Type := KeyDown | KeyUp | OtherKind.

Record Event : Type := mkEvent {
  Kind : EventKind;
  Rawcode : Z
}.

(** An event as the loop meets it: with the values of h.running and of
    h.callback (set or nil) that it reads while handling the event. *)
Record Tick : Type := mkTick {
  ev : Event;
  running : bool;
  callback : bool
}.

(** isCtrlKey checks if the rawcode is a Ctrl key *)
Definition isCtrlKey (rawcode : Z) : bool :=
  bool_decide (rawcode = scCtrlLeft) || bool_decide (rawcode = scCtrlRight)
  || bool_decide (rawcode = vkCtrlLeft)
  || bool_decide (rawcode = vkCtrlRight) || bool_decide (rawcode = vkCtrl).

(** isShiftKey checks if the rawcode is a Shift key *)
Definition isShiftKey (rawcode : Z) : bool :=
  bool_decide (rawcode = scShiftLeft)
  || bool_decide (rawcode = scShiftRight)
  || bool_decide (rawcode = vkShiftLeft)
  || bool_decide (rawcode = vkShiftRight) || bool_decide (rawcode = vkShift).

(** isVKey checks if the rawcode is the V key *)
Definition isVKey (rawcode : Z) : bool :=
  bool_decide (rawcode = scV) || bool_decide (rawcode = vkV).

(** The loop of listenForHotkey from a state of the two flags: for each
    event handled, whether the callback was launched. *)
Fixpoint listen (ctrlPressed shiftPressed : bool) (ticks : list Tick)
  : list bool :=
  match ticks with
  | [] => []
  | t :: rest =>
      (* Check if we should stop *)
      if negb (running t) then []
      else
        match Kind (ev t) with
        | KeyDown =>
            let ctrlPressed :=
              if isCtrlKey (Rawcode (ev t)) then true else ctrlPressed in
            let shiftPressed :=
              if isShiftKey (Rawcode (ev t)) then true else shiftPressed in
            (if isVKey (Rawcode (ev t)) && ctrlPressed && shiftPressed
             then callback t else false)
            :: listen ctrlPressed shiftPressed rest
        | KeyUp =>
            let ctrlPressed :=
              if isCtrlKey (Rawcode (ev t)) then false else ctrlPressed in
            let shiftPressed :=
              if isShiftKey (Rawcode (ev t)) then false else shiftPressed in
            false :: listen ctrlPressed shiftPressed rest
        | OtherKind => false :: listen ctrlPressed shiftPressed rest
        end
  end.

(** listenForHotkey listens for Ctrl+Shift+V combination *)
Definition listenForHotkey (ticks : list Tick) : list bool :=
  listen false false ticks.

(** The value of the flag of a family of keys after the loop has handled
    [evs], from the value [before]. *)
Definition pressed (isKey : Z -> bool) (before : bool) (evs : list Event)
  : bool :=
  fold_left (fun flag e =>
               match Kind e with
               | KeyDown => if isKey (Rawcode e) then true else flag
               | KeyUp => if isKey (Rawcode e) then false else flag
               | OtherKind => flag
               end) evs before.

(** In words: a key of the family is held after [evs] when one of the
    events is a key-down of the family and no later one is a key-up of
    the family. *)
Definition held (isKey : Z -> bool) (evs : list Event) : Prop :=
  exists before e after,
    evs = before ++ e :: after /\
    Kind e = KeyDown /\ isKey (Rawcode e) = true /\
    Forall (fun e' => ~ (Kind e' = KeyUp /\ isKey (Rawcode e') = true))
           after.
End system.


(** ** database.go: the store with the fixed limit *)

Module legacy.
Definition MaxItems : Z := 100.

(** ClipboardItem represents a single clipboard entry *)
Record ClipboardItem : Type := mkItem {
  ID : string;
  Type_ : string;
  Content : string;
  Timestamp : Z;
  Pinned : bool;
  Size : Z
}.

(** Database manages clipboard items storage *)
Record Database : Type := mkDatabase {
  Items : list ClipboardItem;
  key : list byte
}.

(** encoding/json on the items of this store. *)
Class Prims := {
  json_Marshal : list ClipboardItem -> result (list byte)
}.

Section store.
Context `{BlockPrims} `{Prims}.

(** Save saves the database to disk *)
Definition Save (db : Database) : M (option error) :=
  p ← GetDatabasePath;
  match p with
  | Err e => mret (Some e)
  | Ok dbPath =>
    (* Convert to JSON *)
    match json_Marshal (Items db) with
    | Err e => mret (Some (Wrapf "failed to marshal database" e))
    | Ok jsonData =>
      (* Encrypt the entire database *)
      r ← Encrypt jsonData (key db);
      match r with
      | Err e => mret (Some (Wrapf "failed to encrypt database" e))
      | Ok encrypted =>
        (* Write to file *)
        err ← os.WriteFile dbPath encrypted;
        match err with
        | Some e => mret (Some (Wrapf "failed to write database" e))
        | None => mret None
        end
      end
    end
  end.

(** enforceLimit removes oldest unpinned items to stay within MaxItems *)
Definition enforceLimit (db : Database) : Database :=
  if decide (len (Items db) <= MaxItems) then db
  else
    (* Separate pinned and unpinned items *)
    let '(pinnedItems, unpinnedItems) :=
      fold_left (fun '(pinnedItems, unpinnedItems) item =>
                   if Pinned item
                   then (pinnedItems ++ [item], unpinnedItems)
                   else (pinnedItems, unpinnedItems ++ [item]))
                (Items db) ([], []) in
    (* If pinned items exceed MaxItems, keep only the newest pinned items *)
    let pinnedItems :=
      if decide (len pinnedItems > MaxItems)
      then take (Z.to_nat MaxItems) pinnedItems
      else pinnedItems in
    (* Calculate how many unpinned items we can keep *)
    let availableSlots := MaxItems - len pinnedItems in
    (* Keep the newest unpinned items *)
    let unpinnedItems :=
      if decide (len unpinnedItems > availableSlots)
      then take (Z.to_nat availableSlots) unpinnedItems
      else unpinnedItems in
    (* Combine: pinned items first, then unpinned items *)
    mkDatabase (pinnedItems ++ unpinnedItems) (key db).

(** AddItem adds a new clipboard item *)
Definition AddItem (db : Database) (itemType : string)
    (content : list byte) : M (Database * option error) :=
  (* Check size limit *)
  if decide (len content > MaxItemSize) then
    mret (db, Some (Errorf ("item size (" +:+ Sprintf_d (len content)
                            +:+ " bytes) exceeds maximum ("
                            +:+ Sprintf_d MaxItemSize +:+ " bytes)")))
  else
    (* Encrypt content *)
    r ← Encrypt content (key db);
    match r with
    | Err e => mret (db, Some (Wrapf "failed to encrypt content" e))
    | Ok encrypted =>
        (* Create new item *)
        id ← time.Now;
        now ← time.Now;
        let item := mkItem (Sprintf_d id) itemType encrypted now false
                           (len content) in
        (* Add to beginning of list *)
        let db := mkDatabase ([item] ++ Items db) (key db) in
        (* Remove oldest unpinned items if we exceed the limit *)
        let db := enforceLimit db in
        (* Save to disk *)
        err ← Save db;
        mret (db, err)
    end.

(** GetAllItems returns all items (metadata only, no decrypted content) *)
Definition GetAllItems (db : Database) : list ClipboardItem := Items db.

(** GetItemCount returns the number of items in the database *)
Definition GetItemCount (db : Database) : Z := len (Items db).
End store.
End legacy.
(** ** More of the small instance *)

Module sample_more.
Import sample.

#[export] Instance error_texts : ErrorTexts := {|
  library_text e :=
    match e with
    | KeySizeError n => "crypto/aes: invalid key size"
    | CorruptInputError => "illegal base64 data"
    | ErrUnexpectedEOF => "unexpected EOF"
    | errOpen => "cipher: message authentication failed"
    | PathError op _ => op
    | SyntaxError msg => msg
    | _ => EmptyString
    end
|}.

(** A heap that gives what the runtime can address. *)
#[export] Instance heap : Heap := {|
  allocates n := Z.leb n 281474976710656;
  allocates_maxAlloc := ltac:(intros n Hn; now apply Z.leb_le);
  allocates_small := ltac:(intros n Hn; apply Z.leb_le; lia)
|}.

(** The envelope Encrypt makes of "hello" in [world]. *)
Definition helloEnvelope : string :=
  match (Encrypt (text "hello") secret world).1 with
  | Ok e => e
  | Err _ => EmptyString
  end.

(** The world with a disk that is full: the file is opened, and nothing
    can be written. *)
Definition diskFull : World :=
  write_faulty world (PathError "write" false) (Some 0%nat).

(** The world with a disk that fails a write after four bytes. *)
Definition tornDisk : World :=
  write_faulty world (PathError "write" false) (Some 4%nat).

(** The world with a random source that ends after five bytes. *)
Definition fiveBytes : World := with_entropy world (take 5 (entropy world)).

(** A stand-in for encoding/json that reads back what it writes: between
    brackets, every field of every item on a line of its own. *)
Definition line (s : string) : string := s +:+ String "010"%char EmptyString.

Definition marshal_item (item : ClipboardItem) : string :=
  line (ID item) +:+ line (Type_ item) +:+ line (Content item)
  +:+ line (Sprintf_d (Timestamp item))
  +:+ line (if Pinned item then "true" else "false")
  +:+ line (Sprintf_d (Size item)) +:+ line (Hash item).

Definition marshal (items : list ClipboardItem) : string :=
  line "[" +:+ String.concat EmptyString (map marshal_item items) +:+ "]".

Fixpoint lines (s : string) (field : string) : list string :=
  match s with
  | EmptyString => [field]
  | String c s' =>
      if Ascii.eqb c "010"%char then field :: lines s' EmptyString
      else lines s' (field +:+ String c EmptyString)
  end.

Definition number (s : string) : option Z :=
  Z.of_int <$> NilZero.int_of_string s.

Fixpoint unmarshal_items (fs : list string)
  : list ClipboardItem * option error :=
  match fs with
  | id :: ty :: content :: ts :: pinned :: size :: hash :: rest =>
      match number ts, number size with
      | Some t, Some z =>
          let '(items, err) := unmarshal_items rest in
          (mkItem id ty content t (String.eqb pinned "true") z hash :: items,
           err)
      | _, _ => ([], Some (SyntaxError "invalid character"))
      end
  | ["]"] => ([], None)
  | _ => ([], Some (SyntaxError "unexpected end of JSON input"))
  end.

Definition unmarshal (b : list byte) : list ClipboardItem * option error :=
  match lines (string_of_list_byte b) EmptyString with
  | "[" :: fs => unmarshal_items fs
  | _ => ([], Some (SyntaxError "unexpected end of JSON input"))
  end.

(** The primitives of the store with this stand-in. *)
Definition codec_prims : StorePrims := {|
  sha256_Sum256 := sha256_Sum256;
  json_Marshal items := Ok (list_byte_of_string (marshal items));
  json_Unmarshal := unmarshal;
  runtime_GOOS := runtime_GOOS;
  runtime_GOARCH := runtime_GOARCH
|}.

(** The world without APPDATA. *)
Definition homeless : World :=
  mkWorld (clock world) (entropy world) EmptyString (dirs world)
          (mkdir_fault world) (mkdir_made world) (file world)
          (read_fault world) (write_fault world) (write_reach world)
          (machine_id world).

(** A monitor with both callbacks set, on the store that is full. *)
Definition fullMonitor : clipboard.Monitor :=
  clipboard.mkMonitor fullStore [] [] true true true.

Definition press (rawcode : Z) : system.Tick :=
  system.mkTick (system.mkEvent system.KeyDown rawcode) true true.

Definition release (rawcode : Z) : system.Tick :=
  system.mkTick (system.mkEvent system.KeyUp rawcode) true true.

(** Left Ctrl, right Shift, V. *)
Definition chord : list system.Tick :=
  [press system.scCtrlLeft; press system.vkShiftRight; press system.vkV].

(** A picture of two by two pixels with its origin at (3, 5). *)
Definition tile : image.Image :=
  image.mkImage (image.mkRectangle 3 5 5 7)
                (fun x y => (x * 4369, y * 4369, 65535, 65535)).

#[export] Instance image_prims : clipboard.ImagePrims := {|
  clipboard.png_Encode img :=
    Ok (dib.little_endian 4 (image.Dx (image.Bounds img))
        ++ dib.little_endian 4 (image.Dy (image.Bounds img)));
  clipboard.png_Decode data :=
    match data with
    | [] => Err (Errorf "png: invalid format: not a PNG file")
    | _ :: _ => Ok tile
    end
|}.

(** An empty clipboard on which every call works. *)
Definition board0 : clipboard.Board :=
  clipboard.mkBoard (Err (Errorf "clipboard is empty"))
                    (Errorf "clipboard is empty") false false false
                    None false false false false [] EmptyString.

(** A WriteAll that works and keeps the text as it is. *)
#[export] Instance text_prims : clipboard.TextPrims := {|
  clipboard.WriteAll t b :=
    (Returns tt, clipboard.with_content b (Ok t) false None)
|}.

(** A bitmap of 40 bytes that announces a width of -2 and one colour. *)
Definition crafted : list byte :=
  dib.binary_Write (dib.mkHeader 40 (-2) 1 1 32 0 0 0 0 1 0).

Definition craftedBoard : clipboard.Board :=
  clipboard.mkBoard (Err (Errorf "clipboard is empty"))
                    (Errorf "clipboard is empty") false true true
                    (Some crafted) false false false false [] EmptyString.

(** The store after "a0" was added, and a monitor on it. *)
Definition store1 : Database := (perform store0 (add "a0") world).1.

Definition monitor1 : clipboard.Monitor :=
  clipboard.mkMonitor store1 [] [] true true true.

#[export] Instance legacy_prims : legacy.Prims := {|
  legacy.json_Marshal items :=
    Ok (list_byte_of_string
          ("[" +:+ String.concat "," (map legacy.ID items) +:+ "]"))
|}.

(** A bitmap of 24 bits per pixel, one pixel wide, with two rows and a
    negative height. *)
Definition topDownHeader : dib.bitmapInfoHeader :=
  dib.mkHeader 40 1 (-2) 1 24 0 0 0 0 0 0.

Definition topDown : list byte :=
  dib.binary_Write topDownHeader
  ++ [x01; x02; x03; x00; x04; x05; x06; x00].

End sample_more.

(** * Properties of the cipher codec *)

Section bytes_facts.
Local Open Scope N_scope.

Lemma to_N_lt (b : byte) : Byte.to_N b < 256.
Proof. pose proof (Byte.to_N_bounded b). lia. Qed.

Lemma of_N_to_N (b : byte) : bytes.of_N (Byte.to_N b) = b.
Proof.
  unfold bytes.of_N.
  rewrite N.mod_small by apply to_N_lt.
  now rewrite Byte.of_to_N.
Qed.

Lemma of_N_small (n : N) (b : byte) :
  n < 256 -> Byte.to_N b = n -> bytes.of_N n = b.
Proof. intros _ <-. apply of_N_to_N. Qed.

Lemma to_N_of_N (n : N) : Byte.to_N (bytes.of_N n) = n mod 256.
Proof.
  unfold bytes.of_N.
  destruct (Byte.of_N (n mod 256)) as [b|] eqn:E.
  - now apply Byte.to_of_N.
  - apply Byte.of_N_None_iff in E.
    pose proof (N.mod_upper_bound n 256). lia.
Qed.

Lemma lxor_lt_256 (a b : N) : a < 256 -> b < 256 -> N.lxor a b < 256.
Proof.
  intros Ha Hb.
  destruct (N.eq_dec (N.lxor a b) 0) as [->|Hx]; [lia|].
  change 256 with (2 ^ 8) in *.
  apply N.log2_lt_pow2; [lia|].
  pose proof (N.log2_lxor a b) as Hl.
  assert (N.log2 a < 8).
  { destruct (N.eq_dec a 0) as [->|]; [reflexivity|].
    apply N.log2_lt_pow2; lia. }
  assert (N.log2 b < 8).
  { destruct (N.eq_dec b 0) as [->|]; [reflexivity|].
    apply N.log2_lt_pow2; lia. }
  lia.
Qed.

(** Xor-ing twice with the same byte gives the byte back. *)
Lemma xor_involutive (a k : byte) : bytes.xor (bytes.xor a k) k = a.
Proof.
  unfold bytes.xor at 1.
  apply of_N_small.
  - apply lxor_lt_256; apply to_N_lt.
  - unfold bytes.xor. rewrite to_N_of_N.
    rewrite N.mod_small by (apply lxor_lt_256; apply to_N_lt).
    rewrite N.lxor_assoc, N.lxor_nilpotent, N.lxor_0_r.
    reflexivity.
Qed.

Lemma big_endian_length (w : nat) (v : N) :
  length (bytes.big_endian w v) = w.
Proof. induction w; simpl; congruence. Qed.

Lemma bytes_equal_refl (x : list byte) : bytes.equal x x = true.
Proof. unfold bytes.equal. now apply bool_decide_eq_true. Qed.
End bytes_facts.

Section base64_facts.
Local Open Scope N_scope.

(** The alphabet is injective: looking up the character of a sextet gives
    the sextet back. *)
Lemma decode6_encode6 (v : N) :
  v < 64 -> base64.decode6 (base64.encode6 v) = Some v.
Proof.
  intros Hv.
  destruct v as [|p]; [reflexivity|].
  do 6 (destruct p as [p|p|]; try reflexivity; try lia).
Qed.

Lemma sextet_lt (val k : N) : base64.sextet val k < 64.
Proof. unfold base64.sextet. apply N.mod_upper_bound. lia. Qed.

Lemma group_lt (b0 b1 b2 : byte) : base64.group b0 b1 b2 < 16777216.
Proof.
  unfold base64.group.
  pose proof (to_N_lt b0). pose proof (to_N_lt b1). pose proof (to_N_lt b2).
  lia.
Qed.

(** A 24-bit value is the sum of its four base-64 digits. *)
Lemma sextets_value (v : N) :
  v < 16777216 ->
  base64.quantum_value
    [base64.sextet v 3; base64.sextet v 2; base64.sextet v 1;
     base64.sextet v 0] = v.
Proof.
  intros Hv. unfold base64.quantum_value, base64.sextet. simpl nth.
  change (64 ^ 3) with (64 * 64 * 64). change (64 ^ 2) with (64 * 64).
  change (64 ^ 1) with 64. change (64 ^ 0) with 1.
  rewrite N.div_1_r.
  rewrite <- !N.Div0.div_div.
  pose proof (N.div_mod v 64 ltac:(lia)).
  pose proof (N.div_mod (v / 64) 64 ltac:(lia)).
  pose proof (N.div_mod (v / 64 / 64) 64 ltac:(lia)).
  assert (Hq : v / 64 / 64 / 64 < 64)
    by (do 3 apply N.Div0.div_lt_upper_bound; lia).
  rewrite (N.mod_small (v / 64 / 64 / 64)) by exact Hq.
  lia.
Qed.

(** The three bytes of a group are the big-endian bytes of its value. *)
Lemma group_bytes (b0 b1 b2 : byte) :
  bytes.big_endian 3 (base64.group b0 b1 b2) = [b0; b1; b2].
Proof.
  unfold base64.group.
  pose proof (to_N_lt b0) as H0. pose proof (to_N_lt b1) as H1.
  pose proof (to_N_lt b2) as H2.
  set (a := Byte.to_N b0) in *. set (b := Byte.to_N b1) in *.
  set (c := Byte.to_N b2) in *.
  assert (E1 : (a * 65536 + b * 256 + c) / 256 = a * 256 + b).
  { replace (a * 65536 + b * 256 + c) with (c + (a * 256 + b) * 256) by lia.
    rewrite N.div_add by lia. rewrite N.div_small by lia. lia. }
  assert (E2 : (a * 65536 + b * 256 + c) / 65536 = a).
  { change 65536 with (256 * 256) at 2.
    rewrite <- N.Div0.div_div, E1.
    replace (a * 256 + b) with (b + a * 256) by lia.
    rewrite N.div_add by lia. rewrite N.div_small by lia. lia. }
  cbn [bytes.big_endian]. rewrite !N.shiftr_div_pow2.
  change (2 ^ (8 * N.of_nat 2)) with 65536.
  change (2 ^ (8 * N.of_nat 1)) with 256.
  change (2 ^ (8 * N.of_nat 0)) with 1.
  rewrite N.div_1_r, E1, E2.
  f_equal; [|f_equal; [|f_equal]].
  - now apply of_N_small.
  - unfold bytes.of_N.
    replace ((a * 256 + b) mod 256) with b.
    + subst b. now rewrite Byte.of_to_N.
    + replace (a * 256 + b) with (b + a * 256) by lia.
      rewrite N.Div0.mod_add. symmetry. now apply N.mod_small.
  - unfold bytes.of_N.
    replace ((a * 65536 + b * 256 + c) mod 256) with c.
    + subst c. now rewrite Byte.of_to_N.
    + replace (a * 65536 + b * 256 + c) with (c + (a * 256 + b) * 256) by lia.
      rewrite N.Div0.mod_add. symmetry. now apply N.mod_small.
Qed.
End base64_facts.

Section base64_roundtrip.
Local Open Scope N_scope.

Lemma list_ind3 {A : Type} (P : list A -> Prop) :
  P [] -> (forall a, P [a]) -> (forall a b, P [a; b]) ->
  (forall a b c l, P l -> P (a :: b :: c :: l)) ->
  forall l, P l.
Proof.
  intros H0 H1 H2 H3 l.
  cut (P l /\ (forall a, P (a :: l)) /\ (forall a b, P (a :: b :: l))).
  { intros [Hl _]. exact Hl. }
  induction l as [|x l (IH0 & IH1 & IH2)].
  - repeat split; auto.
  - repeat split; auto.
Qed.

Lemma Decode_sextet (c : ascii) (v : N) (rest : list ascii) (q : list N) :
  base64.decode6 c = Some v ->
  base64.Decode (c :: rest) q =
    if decide (length (q ++ [v]) = 4%nat) then
      match base64.Decode rest [] with
      | Ok out => Ok (base64.quantum_bytes (q ++ [v]) 3 ++ out)
      | Err e => Err e
      end
    else base64.Decode rest (q ++ [v]).
Proof. intros Hc. simpl. rewrite Hc. reflexivity. Qed.

Lemma low_sextet_two_bytes (b0 b1 : byte) :
  base64.sextet (base64.group b0 b1 x00) 0 = 0.
Proof.
  unfold base64.sextet, base64.group.
  change (Byte.to_N x00) with 0. change (64 ^ 0) with 1.
  rewrite N.div_1_r.
  replace (Byte.to_N b0 * 65536 + Byte.to_N b1 * 256 + 0)
    with ((Byte.to_N b0 * 1024 + Byte.to_N b1 * 4) * 64) by lia.
  apply N.Div0.mod_mul.
Qed.

Lemma low_sextets_one_byte (b0 : byte) :
  base64.sextet (base64.group b0 x00 x00) 1 = 0.
Proof.
  unfold base64.sextet, base64.group.
  change (Byte.to_N x00) with 0. change (64 ^ 1) with 64.
  replace (Byte.to_N b0 * 65536 + 0 * 256 + 0)
    with ((Byte.to_N b0 * 1024) * 64) by lia.
  rewrite N.div_mul by lia.
  replace (Byte.to_N b0 * 1024) with ((Byte.to_N b0 * 16) * 64) by lia.
  apply N.Div0.mod_mul.
Qed.

Lemma quantum_full (b0 b1 b2 : byte) :
  let val := base64.group b0 b1 b2 in
  base64.quantum_bytes
    [base64.sextet val 3; base64.sextet val 2; base64.sextet val 1;
     base64.sextet val 0] 3 = [b0; b1; b2].
Proof.
  intros val. unfold base64.quantum_bytes.
  rewrite sextets_value by apply group_lt.
  unfold val. rewrite group_bytes. reflexivity.
Qed.

Lemma quantum_two (b0 b1 : byte) :
  let val := base64.group b0 b1 x00 in
  base64.quantum_bytes
    [base64.sextet val 3; base64.sextet val 2; base64.sextet val 1] 2
  = [b0; b1].
Proof.
  intros val. unfold base64.quantum_bytes.
  replace (base64.quantum_value
             [base64.sextet val 3; base64.sextet val 2; base64.sextet val 1])
    with (base64.quantum_value
             [base64.sextet val 3; base64.sextet val 2; base64.sextet val 1;
              base64.sextet val 0]).
  - rewrite sextets_value by apply group_lt.
    unfold val. rewrite group_bytes. reflexivity.
  - unfold val at 4. rewrite low_sextet_two_bytes. reflexivity.
Qed.

Lemma quantum_one (b0 : byte) :
  let val := base64.group b0 x00 x00 in
  base64.quantum_bytes [base64.sextet val 3; base64.sextet val 2] 1 = [b0].
Proof.
  intros val. unfold base64.quantum_bytes.
  replace (base64.quantum_value [base64.sextet val 3; base64.sextet val 2])
    with (base64.quantum_value
             [base64.sextet val 3; base64.sextet val 2; base64.sextet val 1;
              base64.sextet val 0]).
  - rewrite sextets_value by apply group_lt.
    unfold val. rewrite group_bytes. reflexivity.
  - unfold val at 3 4.
    rewrite low_sextets_one_byte, (low_sextet_two_bytes b0 x00).
    reflexivity.
Qed.

Lemma Decode_pad (rest : list ascii) (q : list N) :
  base64.Decode (base64.padChar :: rest) q = base64.decode_padding q rest.
Proof. reflexivity. Qed.

Ltac decode_sextets :=
  repeat (rewrite (Decode_sextet _ _ _ _
                     (decode6_encode6 _ (sextet_lt _ _)));
          cbn [app length];
          match goal with
          | |- context [decide (?n = 4%nat)] =>
              destruct (decide (n = 4%nat)) as [?|?]; try discriminate
          end).

(** Decoding what the encoder wrote gives the bytes back. *)
Lemma Decode_Encode (src : list byte) :
  base64.Decode (base64.Encode src) [] = Ok src.
Proof.
  induction src as [|b0|b0 b1|b0 b1 b2 rest IH] using list_ind3.
  - reflexivity.
  - cbn [base64.Encode]. decode_sextets.
    rewrite Decode_pad.
    change (base64.decode_padding ?q [base64.padChar])
      with (@Ok (list byte) (base64.quantum_bytes q 1)).
    now rewrite quantum_one.
  - cbn [base64.Encode]. decode_sextets.
    rewrite Decode_pad.
    change (base64.decode_padding ?q [])
      with (@Ok (list byte) (base64.quantum_bytes q 2)).
    now rewrite quantum_two.
  - cbn [base64.Encode]. decode_sextets; [|congruence].
    rewrite IH. now rewrite quantum_full.
Qed.

Lemma DecodeString_EncodeToString (src : list byte) :
  base64.DecodeString (base64.EncodeToString src) = Ok src.
Proof.
  unfold base64.DecodeString, base64.EncodeToString.
  rewrite list_ascii_of_string_of_list_ascii.
  apply Decode_Encode.
Qed.
End base64_roundtrip.

Section cipher_facts.
Context `{BlockPrims}.

Lemma ctr_from_length (g : cipher.AEAD) (nonce : list byte) (i : nat)
    (data : list byte) :
  length (cipher.ctr_from g nonce i data) = length data.
Proof.
  revert i. induction data as [|b rest IH]; intros i; simpl; [reflexivity|].
  now rewrite IH.
Qed.

(** Counter mode is its own inverse. *)
Lemma ctr_from_involutive (g : cipher.AEAD) (nonce : list byte) (i : nat)
    (data : list byte) :
  cipher.ctr_from g nonce i (cipher.ctr_from g nonce i data) = data.
Proof.
  revert i. induction data as [|b rest IH]; intros i; simpl; [reflexivity|].
  now rewrite xor_involutive, IH.
Qed.

Lemma tag_length (g : cipher.AEAD) (nonce ct aad : list byte) :
  length (cipher.tag g nonce ct aad) = cipher.gcmTagSize.
Proof. apply big_endian_length. Qed.

(** Opening what was sealed under the same nonce and additional data
    gives the plaintext back. *)
Lemma Open_Seal (g : cipher.AEAD) (nonce plaintext aad : list byte) :
  cipher.Open g [] nonce (cipher.Seal g [] nonce plaintext aad) aad
  = Ok plaintext.
Proof.
  unfold cipher.Open, cipher.Seal. cbn [app].
  set (ct := cipher.ctr_from g nonce 0 plaintext).
  rewrite length_app, tag_length.
  destruct (decide _) as [Hlt|_]; [lia|].
  replace (length ct + cipher.gcmTagSize - cipher.gcmTagSize)%nat
    with (length ct) by lia.
  rewrite take_app_length, drop_app_length, bytes_equal_refl.
  unfold ct. now rewrite ctr_from_involutive.
Qed.

Lemma Seal_dst (g : cipher.AEAD) (dst nonce plaintext aad : list byte) :
  cipher.Seal g dst nonce plaintext aad
  = dst ++ cipher.Seal g [] nonce plaintext aad.
Proof. reflexivity. Qed.

Lemma NewCipher_ok (key : list byte) :
  key_size_ok key -> aes.NewCipher key = Ok (aes.mkBlock key).
Proof.
  intros Hk. unfold aes.NewCipher.
  destruct (decide _) as [_|Hn]; [reflexivity|now elim Hn].
Qed.

Lemma NewCipher_inv (key : list byte) (b : aes.Block) :
  aes.NewCipher key = Ok b -> key_size_ok key /\ b = aes.mkBlock key.
Proof.
  unfold aes.NewCipher.
  destruct (decide _) as [Hk|_]; [|discriminate].
  intros [= <-]. split; [exact Hk|reflexivity].
Qed.

(** A ReadFull that returns bytes has taken them from the front of the
    random source. *)
Lemma ReadFull_Ok (n : nat) (w w' : World) (bs : list byte) :
  rand.ReadFull n w = (Ok bs, w') ->
  (n <= length (entropy w))%nat /\ bs = take n (entropy w) /\
  w' = with_entropy w (drop n (entropy w)).
Proof.
  unfold rand.ReadFull.
  destruct (decide (n <= _)%nat) as [Hle|_];
    [|destruct (decide _); discriminate].
  intros [= <- <-]. auto.
Qed.

(** What Encrypt returns when it returns an envelope: the base64 text of
    nonce || ciphertext || tag for the twelve bytes the random source
    delivered. *)
Lemma Encrypt_Ok_inv (plaintext key : list byte) (w w' : World)
    (e : string) :
  Encrypt plaintext key w = (Ok e, w') ->
  exists g nonce,
    aes.NewCipher key = Ok (cipher.aead_block g) /\
    length nonce = cipher.gcmStandardNonceSize /\
    rand.ReadFull cipher.gcmStandardNonceSize w = (Ok nonce, w') /\
    e = base64.EncodeToString
          (nonce ++ cipher.Seal g [] nonce plaintext []).
Proof.
  unfold Encrypt.
  destruct (aes.NewCipher key) as [b|err] eqn:Eb; [|discriminate].
  unfold cipher.NewGCM.
  destruct (decide _) as [_|Hn]; [|now elim Hn].
  unfold mbind, M_bind, mret, M_ret, cipher.NonceSize.
  destruct (rand.ReadFull cipher.gcmStandardNonceSize w) as [r w1] eqn:Er.
  destruct r as [nonce|err]; [|discriminate].
  intros [= <- <-].
  exists (cipher.mkAEAD b), nonce. repeat split; try assumption.
  unfold rand.ReadFull in Er.
  destruct (decide _) as [Hle|_]; [|destruct (decide _); discriminate].
  injection Er as <- _. rewrite length_take. lia.
Qed.

Lemma Encrypt_succeeds (plaintext key : list byte) (w : World) :
  key_size_ok key ->
  (cipher.gcmStandardNonceSize <= length (entropy w))%nat ->
  exists e w', Encrypt plaintext key w = (Ok e, w').
Proof.
  intros Hk Hent. unfold Encrypt.
  rewrite (NewCipher_ok _ Hk). unfold cipher.NewGCM.
  destruct (decide _) as [_|Hn]; [|now elim Hn].
  unfold mbind, M_bind, mret, M_ret, cipher.NonceSize, rand.ReadFull.
  destruct (decide _) as [_|Hn]; [|now elim Hn].
  eauto.
Qed.

(** Decrypt undoes Encrypt, whatever nonce was drawn. *)
Lemma Decrypt_of_Encrypt (plaintext key : list byte) (w w' : World)
    (e : string) :
  Encrypt plaintext key w = (Ok e, w') -> Decrypt e key = Ok plaintext.
Proof.
  intros (g & nonce & Hb & Hlen & _ & ->)%Encrypt_Ok_inv.
  unfold Decrypt.
  rewrite DecodeString_EncodeToString, Hb.
  unfold cipher.NewGCM.
  destruct (decide _) as [_|Hn]; [|now elim Hn].
  unfold cipher.NonceSize. rewrite length_app, Hlen.
  destruct (decide _) as [Hlt|_]; [lia|].
  rewrite <- Hlen at 1 2.
  rewrite take_app_length, drop_app_length.
  destruct g as [b]. cbn [cipher.aead_block].
  now rewrite Open_Seal.
Qed.
End cipher_facts.

(** * Properties of the item store *)

(** Case analysis on the flag of an item, simplifying the filters. *)
Ltac case_pinned x :=
  let E := fresh "Epin" in
  destruct (Pinned x) eqn:E;
  repeat match goal with
         | |- context [decide (?a = ?b)] =>
             destruct (decide (a = b)); try congruence
         end.

Section counting_facts.
Local Open Scope Z_scope.

Lemma countUnpinned_from (items : list ClipboardItem) (n : Z) :
  fold_left (fun unpinnedCount item =>
               if negb (Pinned item) then unpinnedCount + 1
               else unpinnedCount) items n
  = n + len (unpinnedOf items).
Proof.
  unfold len, unpinnedOf.
  revert n. induction items as [|x items IH]; intros n; simpl; [lia|].
  rewrite IH, filter_cons.
  case_pinned x; simpl; lia.
Qed.

(** The counting loop counts the items that are not pinned. *)
Lemma countUnpinned_len (items : list ClipboardItem) :
  countUnpinned items = len (unpinnedOf items).
Proof. unfold countUnpinned. rewrite countUnpinned_from. lia. Qed.

Lemma countUnpinned_cons (x : ClipboardItem) (items : list ClipboardItem) :
  countUnpinned (x :: items)
  = (if Pinned x then 0 else 1) + countUnpinned items.
Proof.
  rewrite !countUnpinned_len. unfold len, unpinnedOf.
  rewrite filter_cons.
  case_pinned x; simpl; lia.
Qed.

Lemma countUnpinned_app (l1 l2 : list ClipboardItem) :
  countUnpinned (l1 ++ l2) = countUnpinned l1 + countUnpinned l2.
Proof.
  rewrite !countUnpinned_len. unfold len, unpinnedOf.
  rewrite filter_app, length_app. lia.
Qed.

Lemma countUnpinned_nonneg (items : list ClipboardItem) :
  0 <= countUnpinned items.
Proof. rewrite countUnpinned_len. unfold len. lia. Qed.

Lemma countUnpinned_le_len (items : list ClipboardItem) :
  countUnpinned items <= len items.
Proof.
  rewrite countUnpinned_len. unfold len, unpinnedOf.
  pose proof (length_filter (fun item => Pinned item = false) items). lia.
Qed.

Lemma separate_from (items p u : list ClipboardItem) :
  fold_left (fun '(pinnedItems, unpinnedItems) item =>
               if Pinned item then (pinnedItems ++ [item], unpinnedItems)
               else (pinnedItems, unpinnedItems ++ [item]))
            items (p, u)
  = (p ++ pinnedOf items, u ++ unpinnedOf items).
Proof.
  unfold pinnedOf, unpinnedOf.
  revert p u. induction items as [|x items IH]; intros p u.
  - simpl. now rewrite !app_nil_r.
  - cbn [fold_left]. rewrite !filter_cons.
    case_pinned x; rewrite IH; now rewrite <- ?app_assoc.
Qed.

(** With maxItems in [10, 500] and a slice length that is an int, every
    integer the store computes is an int: the 64-bit arithmetic of the
    source and the arithmetic on Z agree. *)
Lemma store_arithmetic_in_range (db : Database) :
  10 <= maxItems db <= 500 -> int_range (len (Items db)) ->
  int_range (countUnpinned (Items db)) /\
  int_range (maxItems db - countUnpinned (Items db) - 1) /\
  int_range (maxItems db - 10) /\
  int_range (maxItems db - len (Items db)).
Proof.
  unfold int_range. intros Hmax Hlen.
  pose proof (countUnpinned_nonneg (Items db)).
  pose proof (countUnpinned_le_len (Items db)).
  repeat split; lia.
Qed.

(** The separating loops compute the two filters. *)
Lemma separate_filters (items : list ClipboardItem) :
  separate items = (pinnedOf items, unpinnedOf items).
Proof. unfold separate. now rewrite separate_from. Qed.

Lemma pinned_unpinned_length (items : list ClipboardItem) :
  (length (pinnedOf items) + length (unpinnedOf items))%nat = length items.
Proof.
  unfold pinnedOf, unpinnedOf.
  induction items as [|x items IH]; [reflexivity|].
  rewrite !filter_cons.
  case_pinned x; simpl; lia.
Qed.
End counting_facts.

Section introspection.
Local Open Scope Z_scope.

(** C10 — GetRemainingSlots is never negative: in every store state, also
    when more items are stored than maxItems, it returns a value >= 0; it
    returns 0 where the difference maxItems - len(Items) is negative and
    the difference itself otherwise. *)
Theorem GetRemainingSlots_never_negative (db : Database) :
  0 <= GetRemainingSlots db /\
  (len (Items db) > maxItems db -> GetRemainingSlots db = 0) /\
  (len (Items db) <= maxItems db ->
   GetRemainingSlots db = maxItems db - len (Items db)).
Proof.
  unfold GetRemainingSlots.
  destruct (decide (maxItems db - len (Items db) < 0)); repeat split; lia.
Qed.

(** IsFull compares the number of unpinned items with maxItems. *)
Lemma IsFull_unpinned (db : Database) :
  IsFull db = bool_decide (len (unpinnedOf (Items db)) >= maxItems db).
Proof. unfold IsFull. now rewrite countUnpinned_len. Qed.

(** IsNearLimit and GetRemainingSlots compare the number of all items,
    pinned ones included, with maxItems. *)
Lemma IsNearLimit_all_items (db : Database) :
  IsNearLimit db = true <->
  len (pinnedOf (Items db)) + len (unpinnedOf (Items db))
    >= maxItems db - 10.
Proof.
  unfold IsNearLimit, len. rewrite bool_decide_eq_true.
  pose proof (pinned_unpinned_length (Items db)). lia.
Qed.

Lemma GetRemainingSlots_all_items (db : Database) :
  GetRemainingSlots db
  = Z.max 0 (maxItems db - len (pinnedOf (Items db))
                         - len (unpinnedOf (Items db))).
Proof.
  unfold GetRemainingSlots, len.
  pose proof (pinned_unpinned_length (Items db)).
  destruct (decide _); lia.
Qed.
End introspection.

Section eviction.
Context `{BlockPrims} `{StorePrims}.
Local Open Scope Z_scope.

Lemma clampedCap_range (max : Z) : 10 <= clampedCap max <= 500.
Proof. unfold clampedCap. lia. Qed.

Lemma SetMaxItems_cap (max : Z) :
  (let m := if decide (max < 10) then 10 else max in
   if decide (m > 500) then 500 else m) = clampedCap max.
Proof.
  unfold clampedCap. cbv zeta.
  destruct (decide (max < 10)); destruct (decide (_ > 500)); lia.
Qed.

Lemma pinnedOf_pinned (items : list ClipboardItem) :
  Forall (fun item => Pinned item = true) (pinnedOf items).
Proof. unfold pinnedOf. apply Forall_forall. intros x Hx.
       now apply list_elem_of_filter in Hx as [Hp _]. Qed.

Lemma unpinnedOf_unpinned (items : list ClipboardItem) :
  Forall (fun item => Pinned item = false) (unpinnedOf items).
Proof. unfold unpinnedOf. apply Forall_forall. intros x Hx.
       now apply list_elem_of_filter in Hx as [Hp _]. Qed.

Lemma pinnedOf_all (items : list ClipboardItem) :
  Forall (fun item => Pinned item = true) items -> pinnedOf items = items.
Proof.
  unfold pinnedOf. induction 1 as [|x l Hx _ IH]; [reflexivity|].
  rewrite filter_cons, IH. destruct (decide _); congruence.
Qed.

Lemma pinnedOf_none (items : list ClipboardItem) :
  Forall (fun item => Pinned item = false) items -> pinnedOf items = [].
Proof.
  unfold pinnedOf. induction 1 as [|x l Hx _ IH]; [reflexivity|].
  rewrite filter_cons, IH. destruct (decide _); congruence.
Qed.

Lemma unpinnedOf_all (items : list ClipboardItem) :
  Forall (fun item => Pinned item = false) items -> unpinnedOf items = items.
Proof.
  unfold unpinnedOf. induction 1 as [|x l Hx _ IH]; [reflexivity|].
  rewrite filter_cons, IH. destruct (decide _); congruence.
Qed.

Lemma unpinnedOf_none (items : list ClipboardItem) :
  Forall (fun item => Pinned item = true) items -> unpinnedOf items = [].
Proof.
  unfold unpinnedOf. induction 1 as [|x l Hx _ IH]; [reflexivity|].
  rewrite filter_cons, IH. destruct (decide _); congruence.
Qed.

(** Beyond the cap, enforceLimit keeps what the specification retains. *)
Lemma enforceLimit_retained (db : Database) :
  0 <= maxItems db -> len (Items db) > maxItems db ->
  enforceLimit db
  = mkDatabase (retained (Z.to_nat (maxItems db)) (Items db))
               (key db) (maxItems db).
Proof.
  intros Hcap Hlen. unfold enforceLimit, retained.
  destruct (decide _) as [Hle|_]; [lia|].
  rewrite separate_filters.
  set (P := pinnedOf (Items db)). set (U := unpinnedOf (Items db)).
  set (cap := maxItems db) in *.
  assert (HP : (if decide (len P > cap) then take (Z.to_nat cap) P else P)
               = take (Z.to_nat cap) P).
  { destruct (decide _) as [|Hn]; [reflexivity|].
    symmetry. apply take_ge. unfold len in Hn. lia. }
  rewrite HP. clear HP.
  set (P' := take (Z.to_nat cap) P).
  assert (HlenP : (length P' <= Z.to_nat cap)%nat)
    by (unfold P'; rewrite length_take; lia).
  replace (Z.to_nat (cap - len P')) with (Z.to_nat cap - length P')%nat
    by (unfold len; lia).
  destruct (decide (len U > cap - len P')) as [|Hn]; [reflexivity|].
  f_equal. f_equal. symmetry. apply take_ge. unfold len in Hn. lia.
Qed.

Lemma pinnedOf_app (l1 l2 : list ClipboardItem) :
  pinnedOf (l1 ++ l2) = pinnedOf l1 ++ pinnedOf l2.
Proof. apply filter_app. Qed.

Lemma unpinnedOf_app (l1 l2 : list ClipboardItem) :
  unpinnedOf (l1 ++ l2) = unpinnedOf l1 ++ unpinnedOf l2.
Proof. apply filter_app. Qed.

Lemma retained_pinned (cap : nat) (items : list ClipboardItem) :
  pinnedOf (retained cap items) = take cap (pinnedOf items).
Proof.
  unfold retained. rewrite pinnedOf_app.
  rewrite (pinnedOf_all (take cap (pinnedOf items)))
    by apply Forall_take, pinnedOf_pinned.
  rewrite (pinnedOf_none (take _ (unpinnedOf items)))
    by apply Forall_take, unpinnedOf_unpinned.
  apply app_nil_r.
Qed.

Lemma retained_unpinned (cap : nat) (items : list ClipboardItem) :
  unpinnedOf (retained cap items)
  = take (cap - length (take cap (pinnedOf items))) (unpinnedOf items).
Proof.
  unfold retained. rewrite unpinnedOf_app.
  rewrite (unpinnedOf_none (take cap (pinnedOf items)))
    by apply Forall_take, pinnedOf_pinned.
  rewrite (unpinnedOf_all (take _ (unpinnedOf items)))
    by apply Forall_take, unpinnedOf_unpinned.
  reflexivity.
Qed.

Lemma SetMaxItems_db (db : Database) (max : Z) (w : World) :
  (SetMaxItems db max w).1
  = enforceLimit (mkDatabase (Items db) (key db) (clampedCap max)).
Proof.
  unfold SetMaxItems. rewrite SetMaxItems_cap.
  unfold mbind, M_bind, mret, M_ret.
  now destruct (saveInternal _ w).
Qed.

Lemma sorted_take_drop (items : list ClipboardItem) (n : nat)
    (x y : ClipboardItem) :
  StronglySorted (fun a b => Timestamp a >= Timestamp b) items ->
  x ∈ take n items -> y ∈ drop n items -> Timestamp x >= Timestamp y.
Proof.
  intros Hs. revert n.
  induction Hs as [|a l Hl IH Ha]; intros n Hx Hy.
  - rewrite take_nil in Hx. now apply elem_of_nil in Hx.
  - destruct n as [|n]; [now apply elem_of_nil in Hx|].
    cbn [take drop] in Hx, Hy.
    apply elem_of_cons in Hx as [->|Hx].
    + rewrite Forall_forall in Ha. apply Ha.
      exact (elem_of_sublist _ _ _ Hy (sublist_drop l n)).
    + now apply (IH n).
Qed.

(** What SetMaxItems retains: when the store holds more items than the
    clamped cap, SetMaxItems(max) sets maxItems to max clamped to
    [10, 500] and retains exactly the pinned items in their order (the
    first cap-many of them when the pinned alone exceed the cap) followed
    by the leading unpinned items that fill the remaining capacity; every
    other unpinned item is dropped.  Where the unpinned items are stored
    from newest to oldest, no dropped item is newer than a retained one.
    With 3 pinned and 12 unpinned items and SetMaxItems(10), the 3 pinned
    and the 7 leading unpinned are retained. *)
Lemma SetMaxItems_retains_leading (db : Database) (max : Z) (w : World) :
  len (Items db) > clampedCap max ->
  let cap := Z.to_nat (clampedCap max) in
  let db' := (SetMaxItems db max w).1 in
  maxItems db' = clampedCap max /\ 10 <= maxItems db' <= 500 /\
  Items db' = retained cap (Items db) /\
  pinnedOf (Items db') = take cap (pinnedOf (Items db)) /\
  unpinnedOf (Items db')
    = take (cap - length (pinnedOf (Items db'))) (unpinnedOf (Items db)) /\
  (StronglySorted (fun a b => Timestamp a >= Timestamp b)
                  (unpinnedOf (Items db)) ->
   forall kept dropped,
     kept ∈ unpinnedOf (Items db') ->
     dropped ∈ drop (cap - length (pinnedOf (Items db')))
                    (unpinnedOf (Items db)) ->
     Timestamp kept >= Timestamp dropped) /\
  (length (pinnedOf (Items db)) = 3%nat ->
   length (unpinnedOf (Items db)) = 12%nat -> max = 10 ->
   Items db' = pinnedOf (Items db) ++ take 7 (unpinnedOf (Items db))).
Proof.
  intros Hlen cap db'.
  pose proof (clampedCap_range max) as Hcap.
  assert (Hdb' : db' = mkDatabase (retained cap (Items db)) (key db)
                                  (clampedCap max)).
  { unfold db'. rewrite SetMaxItems_db.
    rewrite enforceLimit_retained; cbn [Items maxItems key];
      [reflexivity|lia|lia]. }
  rewrite Hdb'. cbn [Items maxItems].
  rewrite retained_pinned, retained_unpinned.
  repeat split; try lia.
  { intros Hsorted kept dropped Hk Hd.
    eapply sorted_take_drop; eassumption. }
  intros HP HU ->. unfold retained, cap.
  change (Z.to_nat (clampedCap 10)) with 10%nat.
  rewrite (take_ge (pinnedOf (Items db))) by lia.
  rewrite HP. reflexivity.
Qed.
End eviction.

Section persistence_facts.
Context `{BlockPrims} `{StorePrims}.

Lemma same_files_refl (w : World) : same_files w w.
Proof. now repeat split. Qed.

Lemma same_files_trans (w1 w2 w3 : World) :
  same_files w1 w2 -> same_files w2 w3 -> same_files w1 w3.
Proof. unfold same_files. intuition congruence. Qed.

Lemma Now_same_files (w : World) : same_files w (time.Now w).2.
Proof. now repeat split. Qed.

Lemma Now_entropy (w : World) : entropy (time.Now w).2 = entropy w.
Proof. reflexivity. Qed.

Lemma Encrypt_same_files (plaintext k : list byte) (w : World) :
  same_files w (Encrypt plaintext k w).2.
Proof.
  unfold Encrypt.
  destruct (aes.NewCipher k); [|apply same_files_refl].
  destruct (cipher.NewGCM _); [|apply same_files_refl].
  unfold mbind, M_bind, mret, M_ret, rand.ReadFull.
  destruct (decide _); [now repeat split|].
  destruct (decide _); now repeat split.
Qed.

Lemma Encrypt_works (plaintext k : list byte) (w : World) :
  key_size_ok k -> (12 <= length (entropy w))%nat ->
  exists e w',
    Encrypt plaintext k w = (Ok e, w') /\
    same_files w w' /\
    length (entropy w') = (length (entropy w) - 12)%nat.
Proof.
  intros Hk Hent.
  destruct (Encrypt_succeeds plaintext k w Hk Hent) as (e & w' & He).
  exists e, w'. split; [exact He|].
  split.
  - pose proof (Encrypt_same_files plaintext k w) as Hs.
    now rewrite He in Hs.
  - apply Encrypt_Ok_inv in He as (g & nonce & _ & _ & Hr & _).
    unfold rand.ReadFull in Hr.
    destruct (decide _); [|destruct (decide _); discriminate].
    injection Hr as _ Hw'. subst w'. cbn [entropy with_entropy].
    rewrite length_drop. reflexivity.
Qed.

Lemma same_but_dirs_refl (w : World) : same_but_dirs w w.
Proof. now repeat split. Qed.

Lemma same_but_dirs_trans (w1 w2 w3 : World) :
  same_but_dirs w1 w2 -> same_but_dirs w2 w3 -> same_but_dirs w1 w3.
Proof. unfold same_but_dirs. intuition congruence. Qed.

Lemma same_files_but_dirs (w w' : World) :
  same_files w w' -> same_but_dirs w w'.
Proof. unfold same_files, same_but_dirs. tauto. Qed.

(** GetDatabasePath touches nothing but the directories. *)
Lemma GetDatabasePath_world (w : World) :
  same_but_dirs w (GetDatabasePath w).2 /\
  clock (GetDatabasePath w).2 = clock w /\
  entropy (GetDatabasePath w).2 = entropy w.
Proof.
  unfold GetDatabasePath, mbind, M_bind, mret, M_ret,
    os.Getenv_APPDATA, os.MkdirAll.
  destruct (decide _); [now repeat split|].
  destruct (mkdir_fault w) eqn:Hm; cbn; unfold same_but_dirs; cbn;
    rewrite Hm; now repeat split.
Qed.

Lemma GetDatabasePath_ok (w : World) :
  appdata w <> EmptyString -> mkdir_fault w = None ->
  exists p, GetDatabasePath w = (Ok p, with_Pano w).
Proof.
  intros Ha Hm.
  unfold GetDatabasePath, mbind, M_bind, mret, M_ret,
    os.Getenv_APPDATA, os.MkdirAll.
  destruct (decide _); [contradiction|].
  rewrite Hm. eauto.
Qed.

Lemma GetDatabasePath_err (w w' : World) (e : error) :
  GetDatabasePath w = (Err e, w') -> plain_failure e.
Proof.
  unfold GetDatabasePath, mbind, M_bind, mret, M_ret,
    os.Getenv_APPDATA, os.MkdirAll.
  destruct (decide _); [intros [= <- _]; now left|].
  destruct (mkdir_fault w); [|discriminate].
  intros [= <- _]. right. eauto.
Qed.

(** A save that reports no error has written an envelope of the marshalled
    collection, which the key of the store opens again. *)
Lemma saveInternal_None (db : Database) (w w' : World) :
  saveInternal db w = (None, w') ->
  exists jsonData e,
    json_Marshal (Items db) = Ok jsonData /\
    file w' = Some e /\
    Decrypt e (key db) = Ok jsonData.
Proof.
  unfold saveInternal. unfold mbind at 1, M_bind at 1.
  destruct (GetDatabasePath w) as [[p|e] w1] eqn:Hp;
    [|unfold mret, M_ret; discriminate].
  destruct (json_Marshal (Items db)) as [jsonData|e];
    [|unfold mret, M_ret; discriminate].
  unfold mbind, M_bind.
  destruct (Encrypt jsonData (key db) w1) as [[enc|e] w2] eqn:He;
    [|unfold mret, M_ret; discriminate].
  unfold os.WriteFile, mret, M_ret.
  destruct (write_fault w2); [destruct (write_reach w2); discriminate|].
  intros [= <-]. exists jsonData, enc. repeat split.
  eapply Decrypt_of_Encrypt; eassumption.
Qed.

(** A save that reports an error: the error is none of the advisories, and
    the file is as it was unless the fault was met once the file was open;
    then the file holds the first bytes of the new envelope. *)
Lemma saveInternal_Some (db : Database) (w w' : World) (e : error) :
  saveInternal db w = (Some e, w') ->
  plain_failure e /\
  (same_but_dirs w w'
   \/ exists n enc w1,
        write_reach w = Some n /\ same_but_dirs w w1 /\
        w' = with_file w1 (torn n enc)).
Proof.
  unfold saveInternal. unfold mbind at 1, M_bind at 1.
  pose proof (GetDatabasePath_world w) as (Hw & _ & _).
  destruct (GetDatabasePath w) as [[p|e1] w1] eqn:Hp; cbn [snd] in Hw.
  2:{ unfold mret, M_ret. intros [= <- <-].
      split; [eapply GetDatabasePath_err, Hp|now left]. }
  destruct (json_Marshal (Items db)) as [jsonData|e1].
  2:{ unfold mret, M_ret. intros [= <- <-].
      split; [right; eauto|now left]. }
  unfold mbind, M_bind.
  pose proof (Encrypt_same_files jsonData (key db) w1) as Hs.
  apply same_files_but_dirs in Hs.
  pose proof (same_but_dirs_trans _ _ _ Hw Hs) as Hws.
  destruct (Encrypt jsonData (key db) w1) as [[enc|e1] w2]; cbn [snd] in *.
  2:{ unfold mret, M_ret. intros [= <- <-].
      split; [right; eauto|now left]. }
  unfold os.WriteFile, mret, M_ret.
  destruct (write_fault w2); [|discriminate].
  destruct (write_reach w2) as [n|] eqn:Hreach.
  - intros [= <- <-]. split; [right; eauto|].
    right. exists n, enc, w2. repeat split; try apply Hws.
    destruct Hws as (_ & _ & _ & _ & _ & _ & Hr & _). congruence.
  - intros [= <- <-]. split; [right; eauto|now left].
Qed.

(** A save that fails before the file is open leaves the file as it
    was. *)
Lemma saveInternal_Some_file (db : Database) (w w' : World) (e : error) :
  saveInternal db w = (Some e, w') ->
  write_reach w = None -> file w' = file w.
Proof.
  intros Hsave Hreach.
  destruct (saveInternal_Some db w w' e Hsave)
    as (_ & [Hs | (n & enc & w1 & Hn & _)]); [|congruence].
  apply Hs.
Qed.

Lemma persistence_works_key (db db' : Database) (w : World) (n : nat) :
  key db' = key db -> persistence_works db w n -> persistence_works db' w n.
Proof. unfold persistence_works. intros ->. tauto. Qed.

Lemma persistence_works_Now (db : Database) (w : World) (n : nat) :
  persistence_works db w n -> persistence_works db (time.Now w).2 n.
Proof. unfold persistence_works. cbn. tauto. Qed.

Lemma persistence_works_Pano (db : Database) (w : World) (n : nat) :
  persistence_works db w n -> persistence_works db (with_Pano w) n.
Proof. unfold persistence_works. cbn. tauto. Qed.

Lemma persistence_works_Encrypt (db : Database) (w : World) (n : nat)
    (plaintext : list byte) :
  persistence_works db w (S n) ->
  exists e w',
    Encrypt plaintext (key db) w = (Ok e, w') /\
    persistence_works db w' n.
Proof.
  intros (Hk & Hj & Ha & Hm & Hwf & Hent).
  destruct (Encrypt_works plaintext (key db) w Hk ltac:(lia))
    as (e & w' & He & (Ea & _ & Em & _ & _ & _ & Ew & _) & Hlen).
  exists e, w'. split; [exact He|].
  unfold persistence_works. rewrite Ea, Em, Ew, Hlen.
  repeat split; try assumption. lia.
Qed.

(** Where persistence works, a save reports no error. *)
Lemma saveInternal_works (db : Database) (w : World) (n : nat) :
  persistence_works db w (S n) ->
  exists w', saveInternal db w = (None, w') /\ persistence_works db w' n.
Proof.
  intros Hw. pose proof Hw as (Hk & Hj & Ha & Hm & Hwf & Hent).
  apply persistence_works_Pano in Hw.
  unfold saveInternal. unfold mbind at 1, M_bind at 1.
  destruct (GetDatabasePath_ok w Ha Hm) as (p & ->).
  destruct (Hj (Items db)) as (jsonData & ->).
  unfold mbind, M_bind.
  destruct (persistence_works_Encrypt db (with_Pano w) n jsonData Hw)
    as (e & w1 & -> & Hw1).
  pose proof Hw1 as (_ & _ & Ha1 & Hm1 & Hwf1 & Hent1).
  unfold os.WriteFile, mret, M_ret. rewrite Hwf1.
  eexists. split; [reflexivity|].
  unfold persistence_works. cbn. tauto.
Qed.
End persistence_facts.

Section toggle.
Context `{BlockPrims} `{StorePrims}.

Lemma TogglePin_found (db : Database) (id : string) (w : World)
    (i : nat) (item : ClipboardItem) :
  list_find (fun x => ID x = id) (Items db) = Some (i, item) ->
  (TogglePin db id w).1.1
  = mkDatabase (<[i := withPinned item (negb (Pinned item))]> (Items db))
               (key db) (maxItems db).
Proof.
  intros Hf. unfold TogglePin. rewrite Hf.
  unfold mbind, M_bind, mret, M_ret.
  now destruct (saveInternal _ w).
Qed.

Lemma TogglePin_missing (db : Database) (id : string) (w : World) :
  list_find (fun x => ID x = id) (Items db) = None ->
  TogglePin db id w = ((db, Some (Errorf "item not found")), w).
Proof. intros Hf. unfold TogglePin. now rewrite Hf. Qed.

Lemma withPinned_twice (item : ClipboardItem) :
  withPinned (withPinned item (negb (Pinned item)))
             (negb (Pinned (withPinned item (negb (Pinned item)))))
  = item.
Proof. destruct item as [? ? ? ? []]; reflexivity. Qed.

(** C9 — TogglePin frame: when id matches a stored item, TogglePin(id)
    negates the Pinned flag of the first item whose ID is id and changes
    nothing else in memory: the other fields of that item, every other
    item, the order, the length, maxItems and the key are as before; a
    second TogglePin(id) restores the collection. *)
Theorem TogglePin_frame (db : Database) (id : string) (w : World)
    (i : nat) (item : ClipboardItem) :
  list_find (fun x => ID x = id) (Items db) = Some (i, item) ->
  let db' := (TogglePin db id w).1.1 in
  let w' := (TogglePin db id w).2 in
  (Items db !! i = Some item /\ ID item = id /\
   forall j y, Items db !! j = Some y -> (j < i)%nat -> ID y <> id) /\
  (exists item',
     Items db' !! i = Some item' /\
     Pinned item' = negb (Pinned item) /\
     ID item' = ID item /\ Type_ item' = Type_ item /\
     Content item' = Content item /\ Timestamp item' = Timestamp item /\
     Size item' = Size item /\ Hash item' = Hash item) /\
  (forall j, j <> i -> Items db' !! j = Items db !! j) /\
  length (Items db') = length (Items db) /\
  maxItems db' = maxItems db /\ key db' = key db /\
  Items (TogglePin db' id w').1.1 = Items db.
Proof.
  intros Hf db' w'.
  pose proof Hf as (Hi & Hid & Hfirst)%list_find_Some.
  assert (Hlt : (i < length (Items db))%nat)
    by (apply lookup_lt_is_Some; eauto).
  assert (Hdb' : db' = mkDatabase
            (<[i := withPinned item (negb (Pinned item))]> (Items db))
            (key db) (maxItems db))
    by (apply TogglePin_found, Hf).
  rewrite Hdb'. cbn [Items maxItems key].
  split; [auto|]. split.
  { eexists. split; [apply list_lookup_insert_eq, Hlt|]. now cbn. }
  split.
  { intros j Hj. apply list_lookup_insert_ne. congruence. }
  split; [apply length_insert|]. split; [reflexivity|].
  split; [reflexivity|].
  set (item' := withPinned item (negb (Pinned item))).
  assert (Hf' : list_find (fun x => ID x = id) (<[i := item']> (Items db))
                = Some (i, item')).
  { apply list_find_Some. split; [|split].
    - apply list_lookup_insert_eq, Hlt.
    - exact Hid.
    - intros j y Hj Hji.
      rewrite list_lookup_insert_ne in Hj by lia. eauto. }
  rewrite (TogglePin_found (mkDatabase (<[i := item']> (Items db))
                                       (key db) (maxItems db))
                           id w' i item' Hf').
  cbn [Items].
  unfold item'. rewrite withPinned_twice, list_insert_insert_eq.
  now apply list_insert_id.
Qed.
End toggle.

Section add_item.
Context `{BlockPrims} `{StorePrims}.
Local Open Scope Z_scope.

Lemma plain_failure_not_full (e : error) :
  plain_failure e -> e <> LIMIT_FULL.
Proof. intros [->|(msg & cause & ->)]; discriminate. Qed.

Lemma plain_failure_not_warn (e : error) (n : Z) :
  plain_failure e -> e <> LIMIT_WARN n.
Proof. intros [->|(msg & cause & ->)]; discriminate. Qed.

(** The duplicate path of AddItem. *)
Lemma AddItem_duplicate (db : Database) (itemType : string)
    (content : list byte) (w : World) (i : nat) (existing : ClipboardItem) :
  len content <= MaxItemSize ->
  list_find (sameContent (contentHashOf content) itemType) (Items db)
    = Some (i, existing) ->
  let db' := mkDatabase
               (withTimestamp existing (clock w 0)
                  :: (take i (Items db) ++ drop (S i) (Items db)))
               (key db) (maxItems db) in
  AddItem db itemType content w
  = ((db', (saveInternal db' (time.Now w).2).1),
     (saveInternal db' (time.Now w).2).2).
Proof.
  intros Hsize Hfind db'. unfold AddItem.
  destruct (decide (len content > MaxItemSize)) as [|_]; [lia|].
  rewrite Hfind. unfold mbind, M_bind, mret, M_ret. cbn [time.Now app].
  fold db'. now destruct (saveInternal db' _).
Qed.

(** The refusal of AddItem when the store is full. *)
Lemma AddItem_full (db : Database) (itemType : string)
    (content : list byte) (w : World) :
  len content <= MaxItemSize ->
  list_find (sameContent (contentHashOf content) itemType) (Items db)
    = None ->
  countUnpinned (Items db) >= maxItems db ->
  AddItem db itemType content w = ((db, Some LIMIT_FULL), w).
Proof.
  intros Hsize Hfind Hfull. unfold AddItem.
  destruct (decide (len content > MaxItemSize)) as [|_]; [lia|].
  rewrite Hfind.
  destruct (decide (countUnpinned (Items db) >= maxItems db)); [|lia].
  reflexivity.
Qed.

(** AddItem on new content with room left, when the content cannot be
    encrypted. *)
Lemma AddItem_encrypt_failure (db : Database) (itemType : string)
    (content : list byte) (w w1 : World) (e : error) :
  len content <= MaxItemSize ->
  list_find (sameContent (contentHashOf content) itemType) (Items db)
    = None ->
  countUnpinned (Items db) < maxItems db ->
  Encrypt content (key db) w = (Err e, w1) ->
  AddItem db itemType content w
  = ((db, Some (Wrapf "failed to encrypt content" e)), w1).
Proof.
  intros Hsize Hfind Hroom Henc. unfold AddItem.
  destruct (decide (len content > MaxItemSize)) as [|_]; [lia|].
  rewrite Hfind.
  destruct (decide (countUnpinned (Items db) >= maxItems db)); [lia|].
  unfold mbind at 1, M_bind at 1. rewrite Henc. reflexivity.
Qed.

(** AddItem on new content with room left, once the content is
    encrypted: the item is put in front, and the result is that of the
    save, with the warning in place of nil where it is due. *)
Lemma AddItem_insert (db : Database) (itemType : string)
    (content : list byte) (w w1 : World) (encrypted : string) :
  len content <= MaxItemSize ->
  list_find (sameContent (contentHashOf content) itemType) (Items db)
    = None ->
  countUnpinned (Items db) < maxItems db ->
  Encrypt content (key db) w = (Ok encrypted, w1) ->
  let item := mkItem (Sprintf_d (clock w1 0)) itemType encrypted
                     (clock w1 1) false (len content)
                     (contentHashOf content) in
  let db' := mkDatabase (item :: Items db) (key db) (maxItems db) in
  let remaining := maxItems db - countUnpinned (Items db) - 1 in
  let saved := saveInternal db' (time.Now (time.Now w1).2).2 in
  AddItem db itemType content w
  = ((db', match saved.1 with
           | Some e => Some e
           | None => if bool_decide (remaining <= 10)
                        && bool_decide (remaining >= 0)
                     then Some (LIMIT_WARN remaining) else None
           end), saved.2).
Proof.
  intros Hsize Hfind Hroom Henc item db' remaining saved. unfold AddItem.
  destruct (decide (len content > MaxItemSize)) as [|_]; [lia|].
  rewrite Hfind.
  destruct (decide (countUnpinned (Items db) >= maxItems db)); [lia|].
  unfold mbind at 1, M_bind at 1. rewrite Henc.
  unfold mbind, M_bind, mret, M_ret.
  subst saved db' item remaining. cbn [time.Now app clock].
  destruct (saveInternal _ _) as [[e|] w4]; cbn [fst snd]; [reflexivity|].
  now destruct (_ && _).
Qed.

Lemma sameContent_withTimestamp (h t : string) (x : ClipboardItem) (n : Z) :
  sameContent h t (withTimestamp x n) <-> sameContent h t x.
Proof. reflexivity. Qed.

Lemma filter_promoted_length (P : ClipboardItem -> Prop)
    `{!forall x, Decision (P x)} (items : list ClipboardItem) (i : nat)
    (x x' : ClipboardItem) :
  items !! i = Some x -> (P x' <-> P x) ->
  length (filter P (x' :: (take i items ++ drop (S i) items)))
  = length (filter P items).
Proof.
  intros Hi Hiff.
  rewrite <- delete_take_drop.
  rewrite (Permutation_length
             (filter_Permutation P _ _ (delete_Permutation items i x Hi))).
  rewrite !filter_cons.
  destruct (decide (P x')), (decide (P x)); simpl; tauto.
Qed.

Lemma unique_lookup (items : list ClipboardItem) (i j : nat)
    (x y : ClipboardItem) :
  NoDup (digestKind <$> items) ->
  items !! i = Some x -> items !! j = Some y ->
  digestKind x = digestKind y -> i = j.
Proof.
  intros Hnd Hi Hj Hxy.
  apply (NoDup_lookup _ i j (digestKind x) Hnd).
  - now rewrite list_lookup_fmap, Hi.
  - now rewrite list_lookup_fmap, Hj, Hxy.
Qed.

Lemma promoted_unique (items : list ClipboardItem) (i : nat)
    (x : ClipboardItem) (t : Z) :
  NoDup (digestKind <$> items) -> items !! i = Some x ->
  NoDup (digestKind <$>
           withTimestamp x t :: (take i items ++ drop (S i) items)).
Proof.
  intros Hnd Hi.
  rewrite <- delete_take_drop, fmap_cons.
  change (digestKind (withTimestamp x t)) with (digestKind x).
  rewrite <- fmap_cons.
  now rewrite <- (delete_Permutation items i x Hi).
Qed.

Lemma inserted_unique (items : list ClipboardItem) (item : ClipboardItem)
    (h t : string) :
  NoDup (digestKind <$> items) ->
  list_find (sameContent h t) items = None ->
  Hash item = h -> Type_ item = t ->
  NoDup (digestKind <$> item :: items).
Proof.
  intros Hnd Hfind Hh Ht. rewrite fmap_cons. apply NoDup_cons.
  split; [|exact Hnd].
  intros (y & Hy & Hin)%list_elem_of_fmap.
  apply list_find_None in Hfind.
  rewrite Forall_forall in Hfind. apply (Hfind y Hin).
  unfold digestKind in Hy. injection Hy as Hy1 Hy2.
  split; congruence.
Qed.

Lemma promoted_countUnpinned (items : list ClipboardItem) (i : nat)
    (x : ClipboardItem) (t : Z) :
  items !! i = Some x ->
  countUnpinned (withTimestamp x t :: (take i items ++ drop (S i) items))
  = countUnpinned items.
Proof.
  intros Hi. rewrite !countUnpinned_len. unfold len, unpinnedOf. f_equal.
  now apply filter_promoted_length with (x := x).
Qed.

(** C2 — Duplicate promotion: when an item with the digest and kind of the
    submission is stored, AddItem moves the first such item to the front,
    sets its timestamp to the current time and keeps every other field
    (ID and digest among them); the other items keep their order; the
    number of stored items with that digest and kind is unchanged, and
    where no two stored items shared digest and kind (the invariant of
    every reachable store) the promoted item is the only one with them;
    the total and the unpinned count are unchanged; the store is
    persisted, and the result is that of the save: nil where persistence
    works, never an advisory; after a save that failed the file is as it
    was, or holds the bytes written before the fault.  The unpinned count
    is not consulted, so this holds at or above maxItems as well. *)
Theorem AddItem_duplicate_promotion (db : Database) (itemType : string)
    (content : list byte) (w : World) (i : nat) (existing : ClipboardItem) :
  len content <= MaxItemSize ->
  list_find (sameContent (contentHashOf content) itemType) (Items db)
    = Some (i, existing) ->
  let same := sameContent (contentHashOf content) itemType in
  let db' := (AddItem db itemType content w).1.1 in
  let err := (AddItem db itemType content w).1.2 in
  let w' := (AddItem db itemType content w).2 in
  (exists first,
     Items db' = first :: (take i (Items db) ++ drop (S i) (Items db)) /\
     Timestamp first = clock w 0 /\
     ID first = ID existing /\ Hash first = Hash existing /\
     Hash first = contentHashOf content /\ Type_ first = itemType /\
     Content first = Content existing /\ Pinned first = Pinned existing /\
     Size first = Size existing) /\
  maxItems db' = maxItems db /\ key db' = key db /\
  length (Items db') = length (Items db) /\
  countUnpinned (Items db') = countUnpinned (Items db) /\
  length (filter same (Items db')) = length (filter same (Items db)) /\
  (unique_content db ->
   unique_content db' /\
   forall j y, Items db' !! j = Some y -> same y -> j = 0%nat) /\
  (err, w') = saveInternal db' (time.Now w).2 /\
  (err = None -> persisted db' w') /\
  (forall e, err = Some e ->
     plain_failure e /\
     (file w' = file w
      \/ exists n enc, write_reach w = Some n /\ file w' = torn n enc) /\
     e <> LIMIT_FULL /\ forall n, e <> LIMIT_WARN n) /\
  (persistence_works db w 1 -> err = None).
Proof.
  intros Hsize Hfind same db' err w'.
  pose proof (AddItem_duplicate db itemType content w i existing
                Hsize Hfind) as Hadd.
  cbv zeta in Hadd.
  subst db' err w'. rewrite Hadd. cbn [fst snd Items maxItems key].
  clear Hadd.
  set (items' := withTimestamp existing (clock w 0)
                   :: (take i (Items db) ++ drop (S i) (Items db))).
  set (db' := mkDatabase items' (key db) (maxItems db)).
  pose proof Hfind as (Hi & [Hhash Htype] & Hfirst)%list_find_Some.
  assert (Hlt : (i < length (Items db))%nat)
    by (apply lookup_lt_is_Some; eauto).
  split.
  { exists (withTimestamp existing (clock w 0)).
    repeat split; try reflexivity; assumption. }
  split; [reflexivity|]. split; [reflexivity|].
  split.
  { unfold items'. cbn [length].
    rewrite length_app, length_take, length_drop. lia. }
  split.
  { now apply promoted_countUnpinned. }
  split.
  { unfold items'.
    now apply filter_promoted_length with (x := existing). }
  split.
  { intros Huniq.
    assert (Huniq' : NoDup (digestKind <$> items'))
      by now apply promoted_unique.
    split; [exact Huniq'|].
    intros j y Hj [Hyh Hyt]. symmetry.
    apply (unique_lookup items' 0 j (withTimestamp existing (clock w 0)) y
             Huniq' eq_refl Hj).
    unfold digestKind. cbn [withTimestamp Hash Type_]. congruence. }
  split; [now destruct (saveInternal db' _)|].
  destruct (saveInternal db' (time.Now w).2) as [[e|] w2] eqn:Hsave;
    cbn [fst snd].
  - split; [discriminate|]. split.
    + intros e' [= <-].
      destruct (saveInternal_Some _ _ _ _ Hsave) as (Hplain & Hfile).
      split; [exact Hplain|]. split.
      { destruct Hfile as [Hs|(n & enc & w1 & Hn & _ & ->)].
        - left. apply Hs.
        - right. exists n, enc. split; [exact Hn|reflexivity]. }
      split; [now apply plain_failure_not_full|].
      intros n; now apply plain_failure_not_warn.
    + intros Hworks.
      destruct (saveInternal_works db' (time.Now w).2 0) as (w3 & Hs & _).
      { apply persistence_works_Now.
        now apply (persistence_works_key db db'). }
      congruence.
  - split; [|split; [discriminate|reflexivity]].
    intros _. exact (saveInternal_None db' _ w2 Hsave).
Qed.


Lemma countUnpinned_fresh (item : ClipboardItem)
    (items : list ClipboardItem) :
  Pinned item = false ->
  countUnpinned (item :: items) = countUnpinned items + 1.
Proof. intros Hp. rewrite countUnpinned_cons, Hp. lia. Qed.

(** AddItem on new content with room left: either the content could not
    be encrypted and nothing changed, or the item was inserted; in that
    case either the save failed, or the collection was persisted and the
    result is the warning where it is due and nil otherwise. *)
Lemma AddItem_room (db : Database) (itemType : string)
    (content : list byte) (w : World) :
  len content <= MaxItemSize ->
  list_find (sameContent (contentHashOf content) itemType) (Items db)
    = None ->
  countUnpinned (Items db) < maxItems db ->
  let db' := (AddItem db itemType content w).1.1 in
  let err := (AddItem db itemType content w).1.2 in
  let w' := (AddItem db itemType content w).2 in
  let remaining := maxItems db - countUnpinned (Items db) - 1 in
  (db' = db /\ file w' = file w /\
   exists e, err = Some (Wrapf "failed to encrypt content" e))
  \/ (inserted db db' itemType content /\
      (((write_reach w = None -> file w' = file w) /\
        exists e, err = Some e /\ plain_failure e)
       \/ (persisted db' w' /\
           err = if bool_decide (remaining <= 10)
                    && bool_decide (remaining >= 0)
                 then Some (LIMIT_WARN remaining) else None))).
Proof.
  intros Hsize Hfind Hroom db' err w' remaining.
  pose proof (Encrypt_same_files content (key db) w) as Hsf.
  destruct (Encrypt content (key db) w) as [[enc|e] w1] eqn:Henc;
    cbn [snd] in Hsf.
  - right.
    pose proof (AddItem_insert db itemType content w w1 enc
                  Hsize Hfind Hroom Henc) as Hadd.
    cbv zeta in Hadd. subst db' err w'. rewrite Hadd. clear Hadd.
    cbn [fst snd]. fold remaining.
    split.
    { eexists. split; [reflexivity|]. cbn.
      repeat split. eapply Decrypt_of_Encrypt, Henc. }
    destruct (saveInternal _ _) as [[e|] w4] eqn:Hsave; cbn [fst snd].
    + left. destruct (saveInternal_Some _ _ _ _ Hsave) as (Hplain & _).
      split; [|eauto]. intros Hreach.
      destruct Hsf as (_ & _ & _ & _ & Hf1 & _ & _ & Hr1 & _).
      rewrite (saveInternal_Some_file _ _ _ _ Hsave); [exact Hf1|].
      cbn. congruence.
    + right. split; [|reflexivity].
      exact (saveInternal_None _ _ _ Hsave).
  - left.
    pose proof (AddItem_encrypt_failure db itemType content w w1 e
                  Hsize Hfind Hroom Henc) as Hadd.
    subst db' err w'. rewrite Hadd. cbn [fst snd].
    destruct Hsf as (_ & _ & _ & _ & Hf1 & _). eauto.
Qed.

(** Where persistence works, the insert goes through and is persisted. *)
Lemma AddItem_room_works (db : Database) (itemType : string)
    (content : list byte) (w : World) :
  len content <= MaxItemSize ->
  list_find (sameContent (contentHashOf content) itemType) (Items db)
    = None ->
  countUnpinned (Items db) < maxItems db ->
  persistence_works db w 2 ->
  let db' := (AddItem db itemType content w).1.1 in
  let err := (AddItem db itemType content w).1.2 in
  let w' := (AddItem db itemType content w).2 in
  let remaining := maxItems db - countUnpinned (Items db) - 1 in
  inserted db db' itemType content /\ persisted db' w' /\
  err = if bool_decide (remaining <= 10) && bool_decide (remaining >= 0)
        then Some (LIMIT_WARN remaining) else None.
Proof.
  intros Hsize Hfind Hroom Hworks db' err w' remaining.
  destruct (persistence_works_Encrypt db w 1 content Hworks)
    as (enc & w1 & Henc & Hw1).
  pose proof (AddItem_insert db itemType content w w1 enc
                Hsize Hfind Hroom Henc) as Hadd.
  cbv zeta in Hadd. subst db' err w'. rewrite Hadd. clear Hadd.
  cbn [fst snd]. fold remaining.
  set (db' := mkDatabase _ (key db) (maxItems db)).
  destruct (saveInternal_works db' (time.Now (time.Now w1).2).2 0)
    as (w4 & Hsave & _).
  { do 2 apply persistence_works_Now.
    now apply (persistence_works_key db db'). }
  rewrite Hsave. cbn [fst snd].
  split; [|split; [exact (saveInternal_None _ _ _ Hsave)|reflexivity]].
  eexists. split; [reflexivity|]. cbn.
  repeat split. eapply Decrypt_of_Encrypt, Henc.
Qed.

Lemma warn_or_nil_not_full (remaining : Z) :
  (if bool_decide (remaining <= 10) && bool_decide (remaining >= 0)
   then Some (LIMIT_WARN remaining) else None) <> Some LIMIT_FULL.
Proof. destruct (_ && _); discriminate. Qed.

(** C3 — Capacity refusal: for a submission within the size limit that
    matches no stored item, AddItem returns the LimitFull advisory exactly
    when the number of items that are not pinned is at least maxItems,
    however many pinned items the store holds, and then changes nothing:
    the store and the world, the file included, are as before.  When that
    number is below maxItems and persistence works, the same insert goes
    through: the item is put in front and persisted, and the result is
    nil or the warning. *)
Theorem AddItem_capacity_refusal (db : Database) (itemType : string)
    (content : list byte) (w : World) :
  len content <= MaxItemSize ->
  list_find (sameContent (contentHashOf content) itemType) (Items db)
    = None ->
  let db' := (AddItem db itemType content w).1.1 in
  let err := (AddItem db itemType content w).1.2 in
  let w' := (AddItem db itemType content w).2 in
  let nonPinned := len (unpinnedOf (Items db)) in
  (err = Some LIMIT_FULL <-> nonPinned >= maxItems db) /\
  (nonPinned >= maxItems db -> db' = db /\ w' = w) /\
  (nonPinned < maxItems db -> persistence_works db w 2 ->
   inserted db db' itemType content /\ persisted db' w' /\
   (err = None \/ err = Some (LIMIT_WARN (maxItems db - nonPinned - 1)))).
Proof.
  intros Hsize Hfind db' err w' nonPinned.
  unfold nonPinned. rewrite <- (countUnpinned_len (Items db)).
  split; [split|split].
  - intros Herr.
    destruct (Z_lt_ge_dec (countUnpinned (Items db)) (maxItems db))
      as [Hroom|Hfull]; [exfalso|exact Hfull].
    destruct (AddItem_room db itemType content w Hsize Hfind Hroom)
      as [(_ & _ & e & He)|(_ & [(_ & e & He & Hplain)|(_ & He)])];
      fold err in He; rewrite He in Herr.
    + discriminate.
    + injection Herr as ->. now apply plain_failure_not_full in Hplain.
    + now apply warn_or_nil_not_full in Herr.
  - intros Hfull. subst err.
    now rewrite (AddItem_full db itemType content w Hsize Hfind Hfull).
  - intros Hfull. subst db' w'.
    now rewrite (AddItem_full db itemType content w Hsize Hfind Hfull).
  - intros Hroom Hworks.
    destruct (AddItem_room_works db itemType content w Hsize Hfind Hroom
                Hworks) as (Hins & Hper & Herr).
    fold db' in Hins, Hper. fold w' in Hper. fold err in Herr.
    split; [exact Hins|]. split; [exact Hper|].
    rewrite Herr. destruct (_ && _); auto.
Qed.

(** C4 — Warning threshold: for a submission within the size limit that
    matches no stored item, a call that succeeds (it returns nil or a
    LimitWarning) has put the new item in front and persisted the
    collection, whether or not the warning is carried; with
    remaining = maxItems - the number of items that are not pinned after
    the insert, the result is the LimitWarning that carries remaining
    exactly when 0 <= remaining <= 10, and nil otherwise.  LimitFull is
    returned only when remaining would be negative.  Where persistence
    works and the store is not full, the call succeeds. *)
Theorem AddItem_warning_threshold (db : Database) (itemType : string)
    (content : list byte) (w : World) :
  len content <= MaxItemSize ->
  list_find (sameContent (contentHashOf content) itemType) (Items db)
    = None ->
  let db' := (AddItem db itemType content w).1.1 in
  let err := (AddItem db itemType content w).1.2 in
  let w' := (AddItem db itemType content w).2 in
  let succeeded := err = None \/ exists n, err = Some (LIMIT_WARN n) in
  let remaining := maxItems db - len (unpinnedOf (Items db')) in
  (succeeded ->
   inserted db db' itemType content /\ persisted db' w' /\
   len (unpinnedOf (Items db')) = len (unpinnedOf (Items db)) + 1 /\
   (err = Some (LIMIT_WARN remaining) <-> 0 <= remaining <= 10) /\
   (err = None <-> ~ 0 <= remaining <= 10)) /\
  (err = Some LIMIT_FULL ->
   maxItems db - (len (unpinnedOf (Items db)) + 1) < 0) /\
  (persistence_works db w 2 ->
   len (unpinnedOf (Items db)) < maxItems db ->
   succeeded).
Proof.
  intros Hsize Hfind db' err w' succeeded remaining.
  unfold remaining.
  rewrite <- (countUnpinned_len (Items db)), <- (countUnpinned_len (Items db')).
  clear remaining. set (remaining := maxItems db - countUnpinned (Items db')).
  destruct (Z_lt_ge_dec (countUnpinned (Items db)) (maxItems db))
    as [Hroom|Hfull].
  - pose proof (AddItem_room db itemType content w Hsize Hfind Hroom)
      as Hcases.
    cbv zeta in Hcases. fold db' err w' in Hcases.
    split; [|split].
    + intros Hsucc.
      destruct Hcases
        as [(_ & _ & e & He)|(Hins & [(_ & e & He & Hplain)|(Hper & He)])].
      * exfalso. destruct Hsucc as [Hn|(n & Hn)]; congruence.
      * exfalso. destruct Hsucc as [Hn|(n & Hn)]; [congruence|].
        rewrite He in Hn. injection Hn as ->.
        exact (plain_failure_not_warn _ n Hplain eq_refl).
      * assert (Hcount : countUnpinned (Items db')
                         = countUnpinned (Items db) + 1).
        { destruct Hins as (item & -> & _ & _ & _ & Hp & _).
          now apply countUnpinned_fresh. }
        split; [exact Hins|]. split; [exact Hper|].
        split; [exact Hcount|].
        replace (maxItems db - countUnpinned (Items db) - 1)
          with remaining in He by (unfold remaining; lia).
        rewrite He.
        destruct (bool_decide (remaining <= 10)) eqn:E1;
          destruct (bool_decide (remaining >= 0)) eqn:E2; cbn [andb];
          try apply bool_decide_eq_true in E1;
          try apply bool_decide_eq_false in E1;
          try apply bool_decide_eq_true in E2;
          try apply bool_decide_eq_false in E2;
          (split; split; intros;
           first [reflexivity | discriminate | lia | exfalso; lia]).
    + intros Hfullerr. exfalso.
      destruct Hcases
        as [(_ & _ & e & He)|(_ & [(_ & e & He & Hplain)|(_ & He)])];
        rewrite He in Hfullerr.
      * discriminate.
      * injection Hfullerr as ->.
        now apply plain_failure_not_full in Hplain.
      * now apply warn_or_nil_not_full in Hfullerr.
    + intros Hworks _.
      destruct (AddItem_room_works db itemType content w Hsize Hfind Hroom
                  Hworks) as (_ & _ & Herr).
      fold err in Herr. unfold succeeded. rewrite Herr.
      destruct (_ && _); eauto.
  - pose proof (AddItem_full db itemType content w Hsize Hfind Hfull)
      as Hadd.
    assert (Herr : err = Some LIMIT_FULL) by (subst err; now rewrite Hadd).
    split; [|split].
    + intros [Hn|(n & Hn)]; rewrite Herr in Hn; discriminate.
    + intros _. lia.
    + intros _ Hroom. lia.
Qed.
End add_item.

Section invariant.
Context `{BlockPrims} `{StorePrims}.
Local Open Scope Z_scope.

Lemma AddItem_oversize (db : Database) (itemType : string)
    (content : list byte) (w : World) :
  len content > MaxItemSize ->
  (AddItem db itemType content w).1.1 = db
  /\ (AddItem db itemType content w).2 = w.
Proof.
  intros Hsize. unfold AddItem.
  destruct (decide (len content > MaxItemSize)); [|lia].
  now split.
Qed.

(** The capacity invariant in terms of the counting loop. *)
Lemma within_capacity_count (db : Database) :
  within_capacity db
  <-> countUnpinned (Items db) <= maxItems db /\ 10 <= maxItems db <= 500.
Proof. unfold within_capacity. now rewrite countUnpinned_len. Qed.

Lemma AddItem_within_capacity (db : Database) (itemType : string)
    (content : list byte) (w : World) :
  within_capacity db ->
  within_capacity (AddItem db itemType content w).1.1.
Proof.
  rewrite !within_capacity_count. intros [Hcount Hrange].
  destruct (Z_le_gt_dec (len content) MaxItemSize) as [Hsize|Hsize].
  2:{ now rewrite (proj1 (AddItem_oversize db itemType content w Hsize)). }
  destruct (list_find (sameContent (contentHashOf content) itemType)
                      (Items db)) as [[i existing]|] eqn:Hfind.
  - pose proof (AddItem_duplicate db itemType content w i existing
                  Hsize Hfind) as Hadd.
    cbv zeta in Hadd. rewrite Hadd. cbn [fst].
    apply list_find_Some in Hfind as (Hi & _).
    split; cbn [Items maxItems]; [|exact Hrange].
    now rewrite promoted_countUnpinned.
  - destruct (Z_lt_ge_dec (countUnpinned (Items db)) (maxItems db))
      as [Hroom|Hfull].
    + destruct (AddItem_room db itemType content w Hsize Hfind Hroom)
        as [(-> & _)|((item & Hitems & _ & Hmax & _ & Hp & _) & _)].
      * now split.
      * rewrite Hitems, Hmax.
        split; [|exact Hrange].
        rewrite (countUnpinned_fresh _ _ Hp). lia.
    + now rewrite (AddItem_full db itemType content w Hsize Hfind Hfull).
Qed.

Lemma countUnpinned_delete (items : list ClipboardItem) (i : nat) :
  countUnpinned (take i items ++ drop (S i) items) <= countUnpinned items.
Proof.
  destruct (items !! i) as [x|] eqn:Hi.
  - rewrite <- (take_drop i items) at 3.
    rewrite (drop_S _ _ _ Hi), !countUnpinned_app, countUnpinned_cons.
    destruct (Pinned x); lia.
  - apply lookup_ge_None in Hi.
    rewrite take_ge, drop_ge, app_nil_r by lia. lia.
Qed.

Lemma countUnpinned_insert (items : list ClipboardItem) (i : nat)
    (x : ClipboardItem) (p : bool) :
  items !! i = Some x ->
  countUnpinned (<[i := withPinned x p]> items)
  = countUnpinned items - (if Pinned x then 0 else 1)
                        + (if p then 0 else 1).
Proof.
  revert i. induction items as [|y items IH]; intros i Hi; [discriminate|].
  destruct i as [|i].
  - injection Hi as ->. cbn [insert list_insert].
    rewrite !countUnpinned_cons. cbn [withPinned Pinned].
    destruct (Pinned x), p; lia.
  - change (<[S i := withPinned x p]> (y :: items))
      with (y :: <[i := withPinned x p]> items).
    change ((y :: items) !! S i) with (items !! i) in Hi.
    rewrite !countUnpinned_cons, (IH i Hi). lia.
Qed.

Lemma DeleteItem_db (db : Database) (id : string) (w : World) :
  (DeleteItem db id w).1.1 = db
  \/ exists i,
       (DeleteItem db id w).1.1
       = mkDatabase (take i (Items db) ++ drop (S i) (Items db))
                    (key db) (maxItems db).
Proof.
  unfold DeleteItem.
  destruct (list_find _ _) as [[i item]|]; [|now left].
  right. exists i. unfold mbind, M_bind, mret, M_ret.
  now destruct (saveInternal _ w).
Qed.

Lemma ClearAll_db (db : Database) (w : World) :
  (ClearAll db w).1.1 = mkDatabase [] (key db) (maxItems db).
Proof.
  unfold ClearAll, mbind, M_bind, mret, M_ret.
  now destruct (saveInternal _ w).
Qed.

Lemma enforceLimit_length (db : Database) :
  0 <= maxItems db ->
  len (Items (enforceLimit db)) <= maxItems db
  /\ maxItems (enforceLimit db) = maxItems db.
Proof.
  intros Hcap.
  destruct (Z_le_gt_dec (len (Items db)) (maxItems db)) as [Hle|Hgt].
  - unfold enforceLimit. destruct (decide _); [|lia]. now split.
  - rewrite enforceLimit_retained by assumption.
    cbn [Items maxItems]. split; [|reflexivity].
    unfold retained, len. rewrite length_app, !length_take. lia.
Qed.

Lemma SetMaxItems_within_capacity (db : Database) (max : Z) (w : World) :
  within_capacity (SetMaxItems db max w).1.
Proof.
  rewrite within_capacity_count, SetMaxItems_db.
  pose proof (clampedCap_range max) as Hcap.
  set (db1 := mkDatabase (Items db) (key db) (clampedCap max)).
  destruct (enforceLimit_length db1) as [Hlen Hmax]; [cbn; lia|].
  rewrite Hmax. cbn [maxItems db1] in *.
  pose proof (countUnpinned_le_len (Items (enforceLimit db1))).
  split; lia.
Qed.

(** Every operation keeps the store within its capacity, unless it takes
    a pin off where there is no room. *)
Lemma perform_within_capacity (db : Database) (o : operation) (w : World) :
  within_capacity db -> ~ overfills db o ->
  within_capacity (perform db o w).1.
Proof.
  intros Hinv Hpin. pose proof Hinv as Hinv'.
  apply within_capacity_count in Hinv' as [Hcount Hrange].
  destruct o as [itemType content|id|id| |max]; cbn [perform].
  - unfold mbind, M_bind, mret, M_ret.
    pose proof (AddItem_within_capacity db itemType content w Hinv) as Ha.
    now destruct (AddItem db itemType content w) as [[db' err] w'].
  - unfold mbind, M_bind, mret, M_ret.
    destruct (list_find (fun item => ID item = id) (Items db))
      as [[i item]|] eqn:Hfind.
    + pose proof (TogglePin_found db id w i item Hfind) as Ht.
      destruct (TogglePin db id w) as [[db' err] w']. cbn [fst] in *.
      subst db'. apply within_capacity_count.
      split; cbn [Items maxItems]; [|exact Hrange].
      assert (Hp : Pinned item = false
                   \/ countUnpinned (Items db) < maxItems db).
      { destruct (Pinned item) eqn:Hp; [|now left]. right.
        destruct (Z_lt_ge_dec (countUnpinned (Items db)) (maxItems db))
          as [Hlt|Hge]; [exact Hlt|].
        exfalso. apply Hpin. cbn. exists i, item.
        rewrite <- countUnpinned_len. auto. }
      apply list_find_Some in Hfind as (Hi & _).
      rewrite (countUnpinned_insert _ _ _ _ Hi).
      destruct Hp as [Hp|Hp]; [rewrite Hp; cbn [negb]; lia|].
      destruct (Pinned item); cbn [negb]; lia.
    + now rewrite (TogglePin_missing db id w Hfind).
  - unfold mbind, M_bind, mret, M_ret.
    pose proof (DeleteItem_db db id w) as Hd.
    destruct (DeleteItem db id w) as [[db' err] w']. cbn [fst] in *.
    destruct Hd as [->|(i & ->)]; [exact Hinv|].
    apply within_capacity_count.
    split; cbn [Items maxItems]; [|exact Hrange].
    pose proof (countUnpinned_delete (Items db) i). lia.
  - unfold mbind, M_bind, mret, M_ret.
    pose proof (ClearAll_db db w) as Hc.
    destruct (ClearAll db w) as [[db' err] w']. cbn [fst] in *.
    subst db'. apply within_capacity_count. split; cbn; lia.
  - apply SetMaxItems_within_capacity.
Qed.

Lemma emptyStore_within_capacity (k : list byte) :
  within_capacity (emptyStore k).
Proof.
  apply within_capacity_count.
  unfold emptyStore, DefaultMaxItems, countUnpinned. cbn. lia.
Qed.

(** C5, as the code has it — Capacity invariant: in every state reached
    from the empty store by AddItem, DeleteItem, ClearAll, SetMaxItems and
    TogglePin operations, of which no TogglePin takes the pin off an item
    while the items that are not pinned have already reached maxItems, the
    number of items that are not pinned is at most maxItems, and maxItems
    lies in [10, 500].  A TogglePin that takes the pin off in such a state
    where that number has reached maxItems makes no check: it leaves
    maxItems + 1 items without a pin. *)
Theorem capacity_invariant_unless_overfilled (db : Database) :
  reachable_with_room db ->
  len (unpinnedOf (Items db)) <= maxItems db /\
  10 <= maxItems db <= 500 /\
  forall o w,
    overfills db o ->
    len (unpinnedOf (Items (perform db o w).1)) = maxItems db + 1 /\
    maxItems (perform db o w).1 = maxItems db.
Proof.
  intros Hreach.
  assert (Hinv : within_capacity db).
  { induction Hreach as [k|db o w _ IH Hpin].
    - apply emptyStore_within_capacity.
    - now apply perform_within_capacity. }
  destruct Hinv as [Hcount Hrange].
  split; [exact Hcount|]. split; [exact Hrange|].
  intros o w Hover.
  destruct o as [itemType content|id|id| |max]; cbn [overfills] in Hover;
    try contradiction.
  destruct Hover as (i & item & Hfind & Hp & Hfull).
  cbn [perform]. unfold mbind, M_bind, mret, M_ret.
  pose proof (TogglePin_found db id w i item Hfind) as Ht.
  destruct (TogglePin db id w) as [[db' err] w']. cbn [fst] in *.
  subst db'. cbn [Items maxItems]. split; [|reflexivity].
  apply list_find_Some in Hfind as (Hi & _).
  rewrite <- !countUnpinned_len in *.
  rewrite (countUnpinned_insert _ _ _ _ Hi), Hp. cbn [negb]. lia.
Qed.

Lemma NoDup_of_submseteq {A : Type} (l k : list A) :
  NoDup k -> l ⊆+ k -> NoDup l.
Proof.
  intros Hk (l' & Hp & Hs)%submseteq_sublist_r.
  rewrite Hp. eapply sublist_NoDup; eassumption.
Qed.

Lemma pinned_unpinned_Permutation (items : list ClipboardItem) :
  pinnedOf items ++ unpinnedOf items ≡ₚ items.
Proof.
  unfold pinnedOf, unpinnedOf.
  induction items as [|x items IH]; [reflexivity|].
  rewrite !filter_cons. case_pinned x.
  - cbn [app]. now rewrite IH.
  - rewrite <- Permutation_middle. now rewrite IH.
Qed.

Lemma retained_submseteq (cap : nat) (items : list ClipboardItem) :
  retained cap items ⊆+ items.
Proof.
  unfold retained.
  transitivity (pinnedOf items ++ unpinnedOf items).
  - apply submseteq_app; apply sublist_submseteq, sublist_take.
  - apply Permutation_submseteq, pinned_unpinned_Permutation.
Qed.

Lemma enforceLimit_submseteq (db : Database) :
  0 <= maxItems db -> Items (enforceLimit db) ⊆+ Items db.
Proof.
  intros Hcap.
  destruct (Z_le_gt_dec (len (Items db)) (maxItems db)) as [Hle|Hgt].
  - unfold enforceLimit. destruct (decide _); [reflexivity|lia].
  - rewrite enforceLimit_retained by assumption.
    apply retained_submseteq.
Qed.

Lemma AddItem_unique_content (db : Database) (itemType : string)
    (content : list byte) (w : World) :
  unique_content db -> unique_content (AddItem db itemType content w).1.1.
Proof.
  intros Huniq.
  destruct (Z_le_gt_dec (len content) MaxItemSize) as [Hsize|Hsize].
  2:{ now rewrite (proj1 (AddItem_oversize db itemType content w Hsize)). }
  destruct (list_find (sameContent (contentHashOf content) itemType)
                      (Items db)) as [[i existing]|] eqn:Hfind.
  - pose proof (AddItem_duplicate db itemType content w i existing
                  Hsize Hfind) as Hadd.
    cbv zeta in Hadd. rewrite Hadd. cbn [fst].
    apply list_find_Some in Hfind as (Hi & _).
    now apply promoted_unique.
  - destruct (Z_lt_ge_dec (countUnpinned (Items db)) (maxItems db))
      as [Hroom|Hfull].
    + destruct (AddItem_room db itemType content w Hsize Hfind Hroom)
        as [(-> & _)|((item & Hitems & _ & _ & Ht & _ & _ & Hh & _) & _)].
      * exact Huniq.
      * unfold unique_content. rewrite Hitems.
        now apply (inserted_unique _ _ (contentHashOf content) itemType).
    + now rewrite (AddItem_full db itemType content w Hsize Hfind Hfull).
Qed.

(** Every operation keeps digest and kind unique among the stored items. *)
Lemma perform_unique_content (db : Database) (o : operation) (w : World) :
  unique_content db -> unique_content (perform db o w).1.
Proof.
  intros Huniq.
  destruct o as [itemType content|id|id| |max]; cbn [perform].
  - unfold mbind, M_bind, mret, M_ret.
    pose proof (AddItem_unique_content db itemType content w Huniq) as Ha.
    now destruct (AddItem db itemType content w) as [[db' err] w'].
  - unfold mbind, M_bind, mret, M_ret.
    destruct (list_find (fun item => ID item = id) (Items db))
      as [[i item]|] eqn:Hfind.
    + pose proof (TogglePin_found db id w i item Hfind) as Ht.
      destruct (TogglePin db id w) as [[db' err] w']. cbn [fst] in *.
      subst db'. unfold unique_content. cbn [Items].
      apply list_find_Some in Hfind as (Hi & _).
      rewrite list_fmap_insert.
      change (digestKind (withPinned item (negb (Pinned item))))
        with (digestKind item).
      rewrite list_insert_id; [exact Huniq|].
      now rewrite list_lookup_fmap, Hi.
    + now rewrite (TogglePin_missing db id w Hfind).
  - unfold mbind, M_bind, mret, M_ret.
    pose proof (DeleteItem_db db id w) as Hd.
    destruct (DeleteItem db id w) as [[db' err] w']. cbn [fst] in *.
    destruct Hd as [->|(i & ->)]; [exact Huniq|].
    unfold unique_content. cbn [Items].
    rewrite <- delete_take_drop.
    eapply NoDup_of_submseteq; [exact Huniq|].
    apply fmap_submseteq, sublist_submseteq, sublist_delete.
  - unfold mbind, M_bind, mret, M_ret.
    pose proof (ClearAll_db db w) as Hc.
    destruct (ClearAll db w) as [[db' err] w']. cbn [fst] in *.
    subst db'. apply NoDup_nil_2.
  - rewrite SetMaxItems_db. unfold unique_content.
    eapply NoDup_of_submseteq; [exact Huniq|].
    apply fmap_submseteq.
    pose proof (clampedCap_range max).
    apply (enforceLimit_submseteq
             (mkDatabase (Items db) (key db) (clampedCap max))).
    cbn. lia.
Qed.

(** In every reachable store no two items share digest and kind. *)
Lemma reachable_unique_content (db : Database) :
  reachable db -> unique_content db.
Proof.
  induction 1 as [k|db o w _ IH].
  - apply NoDup_nil_2.
  - now apply perform_unique_content.
Qed.

Lemma performAll_reachable (ops : list operation) (db : Database)
    (w : World) :
  reachable db -> reachable (performAll db ops w).1.
Proof.
  revert db w. induction ops as [|o ops IH]; intros db w Hr; [exact Hr|].
  cbn [performAll]. unfold mbind, M_bind.
  pose proof (reachable_step db o w Hr) as Hstep.
  destruct (perform db o w) as [db1 w1]. cbn [fst] in Hstep.
  now apply IH.
Qed.
End invariant.

Section construction.
Context `{BlockPrims} `{StorePrims}.

Lemma GetHardwareKey_world (w : World) : (GetHardwareKey w).2 = w.
Proof. unfold GetHardwareKey. now destruct (machine_id w). Qed.

Lemma Load_readable (db : Database) (w : World) :
  appdata w <> EmptyString -> mkdir_fault w = None ->
  read_fault w = None ->
  Load db w =
    match file w with
    | None => ((db, Some (PathError "open" true)), with_Pano w)
    | Some data =>
        match Decrypt data (key db) with
        | Err e => ((db, Some (Wrapf "failed to decrypt database" e)),
                    with_Pano w)
        | Ok decrypted =>
            let '(items, err) := json_Unmarshal decrypted in
            let db' := mkDatabase items (key db) (maxItems db) in
            match err with
            | Some e => ((db', Some (Wrapf "failed to parse database" e)),
                         with_Pano w)
            | None => ((db', None), with_Pano w)
            end
        end
    end.
Proof.
  intros Ha Hm Hr. unfold Load. unfold mbind at 1, M_bind at 1.
  destruct (GetDatabasePath_ok w Ha Hm) as (p & ->).
  unfold mbind, M_bind, os.ReadFile.
  change (read_fault (with_Pano w)) with (read_fault w).
  change (file (with_Pano w)) with (file w). rewrite Hr.
  destruct (file w) as [data|]; [|reflexivity].
  destruct (Decrypt data (key db)) as [decrypted|e]; [|reflexivity].
  destruct (json_Unmarshal decrypted) as [items [e|]]; reflexivity.
Qed.

(** C8 — Load failure is fatal, absence is not: with the key derived and
    the path resolved, NewDatabase returns a store with an empty
    collection when there is no file; when the file holds a blob that
    Decrypt rejects, or one whose plaintext json.Unmarshal rejects, it
    returns that error (wrapped) and no store; a blob that decrypts and
    parses gives the store with the parsed collection.  In each case the
    world is left with the Pano directory made. *)
Theorem NewDatabase_load_failure_is_fatal (w : World) (k : list byte) :
  (GetHardwareKey w).1 = Ok k ->
  appdata w <> EmptyString -> mkdir_fault w = None ->
  read_fault w = None ->
  (file w = None ->
   NewDatabase w = (Ok (mkDatabase [] k DefaultMaxItems), with_Pano w)) /\
  (forall data e,
     file w = Some data -> Decrypt data k = Err e ->
     NewDatabase w
     = (Err (Wrapf "failed to decrypt database" e), with_Pano w)) /\
  (forall data decrypted items e,
     file w = Some data -> Decrypt data k = Ok decrypted ->
     json_Unmarshal decrypted = (items, Some e) ->
     NewDatabase w
     = (Err (Wrapf "failed to parse database" e), with_Pano w)) /\
  (forall data decrypted items,
     file w = Some data -> Decrypt data k = Ok decrypted ->
     json_Unmarshal decrypted = (items, None) ->
     NewDatabase w = (Ok (mkDatabase items k DefaultMaxItems), with_Pano w)).
Proof.
  intros Hk Ha Hm Hr.
  assert (Hnew : NewDatabase w =
            let '(db', err, w') :=
              Load (mkDatabase [] k DefaultMaxItems) w in
            match err with
            | Some e => if negb (os.IsNotExist e) then (Err e, w')
                        else (Ok db', w')
            | None => (Ok db', w')
            end).
  { unfold NewDatabase. unfold mbind at 1, M_bind at 1.
    pose proof (GetHardwareKey_world w) as Hw.
    destruct (GetHardwareKey w) as [r w1]. cbn [fst snd] in *. subst.
    unfold mbind, M_bind, mret, M_ret.
    destruct (Load _ w) as [[db' [e|]] w']; [|reflexivity].
    now destruct (negb _). }
  rewrite Hnew, (Load_readable _ w Ha Hm Hr). cbn [key maxItems].
  repeat split.
  - now intros ->.
  - now intros data e -> ->.
  - now intros data decrypted items e -> -> ->.
  - now intros data decrypted items -> -> ->.
Qed.
End construction.

Section round_trip.
Context `{BlockPrims}.

(** C1 — Cipher round trip: for every byte buffer p, the empty one
    included, and every key of a length the cipher accepts, Decrypt under
    the key returns exactly p on every envelope Encrypt returns for p,
    whatever nonce it drew; and Encrypt returns an envelope whenever the
    random source delivers the twelve bytes of the nonce. *)
Theorem Decrypt_Encrypt_round_trip (p k : list byte) (w : World) :
  key_size_ok k ->
  (forall e w', Encrypt p k w = (Ok e, w') -> Decrypt e k = Ok p) /\
  ((12 <= length (entropy w))%nat ->
   exists e w', Encrypt p k w = (Ok e, w') /\ Decrypt e k = Ok p).
Proof.
  intros Hk. split.
  - intros e w' He. eapply Decrypt_of_Encrypt, He.
  - intros Hent.
    destruct (Encrypt_succeeds p k w Hk Hent) as (e & w' & He).
    exists e, w'. split; [exact He|]. eapply Decrypt_of_Encrypt, He.
Qed.
End round_trip.

(** * The model at work on the small instance *)

Section examples.
Import sample.
Local Open Scope Z_scope.

(** C6 — Eviction, where the code departs from it: enforceLimit keeps the
    unpinned items that come first in the slice, which are the newest only
    while the slice is ordered from newest to oldest, and its own
    regrouping (pinned items first) breaks that order.  The store reached
    from the empty store by adding a0, pinning it, adding a1 to a10,
    SetMaxItems(10), unpinning a0, SetMaxItems(500) and adding a11 and a12
    holds twelve items, none of them pinned, with the oldest one, a0, in
    third place.  SetMaxItems(10) then retains the first ten: a0 stays,
    and a3 and a2, both newer than a0, are dropped. *)
Theorem SetMaxItems_keeps_oldest_drops_newer :
  let t n := 1700000000000000000 + n in
  reachable (performAll store0 aged world).1 /\
  (let '(db, w) := performAll store0 aged world in
   let db' := (SetMaxItems db 10 w).1 in
   (Pinned <$> Items db, Timestamp <$> Items db,
    maxItems db', Timestamp <$> Items db'))
  = (replicate 12 false,
     t <$> [25; 23; 1; 21; 19; 17; 15; 13; 11; 9; 7; 5],
     10,
     t <$> [25; 23; 1; 21; 19; 17; 15; 13; 11; 9]).
Proof.
  intros t.
  split; [apply performAll_reachable, reachable_empty|].
  vm_compute. reflexivity.
Qed.

(** C7 — Capacity introspection basis, where the code departs from it:
    IsFull compares the number of unpinned items with maxItems, but
    IsNearLimit and GetRemainingSlots are computed from the number of all
    items.  In the store reached by SetMaxItems(11), one AddItem and the
    TogglePin of that item (one pinned item, no unpinned one),
    GetRemainingSlots returns 10 and IsNearLimit returns true, although
    the unpinned count 0 is 11 below maxItems and eleven further items
    are then added without a refusal. *)
Theorem introspection_counts_pinned_items :
  let db := (performAll store0 onePinned world).1 in
  let w := (performAll store0 onePinned world).2 in
  reachable db /\
  maxItems db = 11 /\ len (Items db) = 1 /\ countUnpinned (Items db) = 0 /\
  IsFull db = false /\
  IsNearLimit db = true /\
  bool_decide (countUnpinned (Items db) >= maxItems db - 10) = false /\
  GetRemainingSlots db = 10 /\
  maxItems db - countUnpinned (Items db) = 11 /\
  countUnpinned (Items (performAll db elevenMore w).1) = 11.
Proof.
  intros db w.
  split; [apply performAll_reachable, reachable_empty|].
  vm_compute. repeat split.
Qed.

(** C5, as stated, fails: after SetMaxItems(10), an item is added and
    pinned, ten more items are added, and the pin is taken off; the store
    then holds eleven unpinned items under maxItems = 10. *)
Lemma capacity_invariant_broken_by_unpinning :
  ~ (forall db : Database,
       reachable db -> len (unpinnedOf (Items db)) <= maxItems db).
Proof.
  intros Hinv.
  specialize (Hinv (performAll store0 overflowing world).1
                   (performAll_reachable _ _ _ (reachable_empty secret))).
  vm_compute in Hinv. now apply Hinv.
Qed.

Lemma secret_size : key_size_ok secret.
Proof. right; right. reflexivity. Defined.

(** The round trip on "hello" under the sample key. *)
Lemma Decrypt_Encrypt_round_trip_witness :
  exists e w',
    Encrypt (text "hello") secret world = (Ok e, w')
    /\ Decrypt e secret = Ok (text "hello").
Proof.
  apply (proj2 (Decrypt_Encrypt_round_trip (text "hello") secret world
                  secret_size)).
  vm_compute. lia.
Defined.

(** Submitting "hello" to a store that holds it behind a pinned item
    moves the stored item to the front under its old ID and digest. *)
Lemma AddItem_duplicate_promotion_witness :
  exists first,
    Items (AddItem helloStore "text" (text "hello") world).1.1
    = first :: (take 1 (Items helloStore) ++ drop 2 (Items helloStore))
    /\ Timestamp first = clock world 0
    /\ ID first = ID helloItem /\ Hash first = Hash helloItem.
Proof.
  destruct (AddItem_duplicate_promotion helloStore "text" (text "hello")
              world 1%nat helloItem)
    as ((first & H1 & H2 & H3 & H4 & _) & _).
  - unfold len, MaxItemSize, text. simpl. lia.
  - vm_compute. reflexivity.
  - exists first. repeat split; assumption.
Defined.

Lemma sample_persistence_twice (db : Database) :
  key db = secret -> persistence_works db world 2.
Proof.
  intros Hk. split; [rewrite Hk; exact secret_size|].
  split; [intros items; eexists; reflexivity|].
  split; [discriminate|].
  split; [reflexivity|]. split; [reflexivity|].
  vm_compute. lia.
Defined.

(** A new text is refused by the store of ten unpinned items under a cap
    of ten, and nothing changes; the store of one pinned and nine unpinned
    items under the same cap takes it. *)
Lemma AddItem_capacity_refusal_witness :
  ((AddItem fullStore "text" (text "new") world).1.2
     = Some (Errorf "LIMIT_FULL:0")
   /\ (AddItem fullStore "text" (text "new") world).1.1 = fullStore
   /\ (AddItem fullStore "text" (text "new") world).2 = world)
  /\ inserted pinnedFull (AddItem pinnedFull "text" (text "new") world).1.1
              "text" (text "new").
Proof.
  split.
  - destruct (AddItem_capacity_refusal fullStore "text" (text "new") world)
      as (Hiff & Hsame & _).
    + unfold len, MaxItemSize, text. simpl. lia.
    + vm_compute. reflexivity.
    + assert (Hfull : len (unpinnedOf (Items fullStore))
                      >= maxItems fullStore)
        by (vm_compute; discriminate).
      split; [exact (proj2 Hiff Hfull)|exact (Hsame Hfull)].
  - destruct (AddItem_capacity_refusal pinnedFull "text" (text "new") world)
      as (_ & _ & Hroom).
    + unfold len, MaxItemSize, text. simpl. lia.
    + vm_compute. reflexivity.
    + apply Hroom.
      * vm_compute. reflexivity.
      * apply sample_persistence_twice. reflexivity.
Defined.

(** The first insert under a cap of ten leaves nine slots and carries the
    warning with that number. *)
Lemma AddItem_warning_threshold_witness :
  (AddItem capTen "text" (text "hello") world).1.2
  = Some (Errorf "LIMIT_WARN:9").
Proof.
  destruct (AddItem_warning_threshold capTen "text" (text "hello") world)
    as (Hsucc & _ & Hworks).
  - unfold len, MaxItemSize, text. simpl. lia.
  - vm_compute. reflexivity.
  - assert (Hroom : len (unpinnedOf (Items capTen)) < maxItems capTen)
      by (vm_compute; reflexivity).
    destruct (Hsucc (Hworks (sample_persistence_twice capTen eq_refl) Hroom))
      as (_ & _ & Hcount & Hwarn & _).
    rewrite Hcount in Hwarn.
    apply (proj2 Hwarn). vm_compute. split; discriminate.
Defined.

(** An item is added, pinned and unpinned again: the store stays within
    its capacity. *)
Lemma capacity_invariant_unless_overfilled_witness :
  let s1 := perform store0 (add "a0") world in
  let s2 := perform s1.1 (OpTogglePin stamp) s1.2 in
  let s3 := perform s2.1 (OpTogglePin stamp) s2.2 in
  Pinned <$> Items s2.1 = [true] /\ Pinned <$> Items s3.1 = [false] /\
  len (unpinnedOf (Items s3.1)) <= maxItems s3.1 /\
  10 <= maxItems s3.1 <= 500.
Proof.
  intros s1 s2 s3.
  split; [vm_compute; reflexivity|]. split; [vm_compute; reflexivity|].
  destruct (capacity_invariant_unless_overfilled s3.1)
    as (Hcount & Hrange & _); [|split; assumption].
  apply reachable_with_room_step;
    [apply reachable_with_room_step;
     [apply reachable_with_room_step; [apply reachable_with_room_empty|]|]|].
  - intros [].
  - intros (i & item & _ & _ & Hfull). vm_compute in Hfull.
    now apply Hfull.
  - intros (i & item & _ & _ & Hfull). vm_compute in Hfull.
    now apply Hfull.
Defined.

(** Three pinned and twelve unpinned items under SetMaxItems(10): the
    three pinned and the seven leading unpinned items stay. *)
Example SetMaxItems_retains_leading_example :
  Items (SetMaxItems mixedStore 10 world).1
  = pinnedOf (Items mixedStore) ++ take 7 (unpinnedOf (Items mixedStore)).
Proof.
  destruct (SetMaxItems_retains_leading mixedStore 10 world)
    as (_ & _ & _ & _ & _ & _ & Hexample).
  - vm_compute. reflexivity.
  - apply Hexample; vm_compute; reflexivity.
Qed.

(** A file that holds no envelope makes the construction fail; no file
    gives the empty store. *)
Lemma NewDatabase_load_failure_is_fatal_witness :
  NewDatabase (world_with (Some "no envelope"))
  = (Err (Wrapf "failed to decrypt database"
            (Wrapf "failed to decode base64" CorruptInputError)),
     with_Pano (world_with (Some "no envelope")))
  /\ exists k, NewDatabase world = (Ok (mkDatabase [] k DefaultMaxItems),
                                   with_Pano world).
Proof.
  split.
  - eapply (proj1 (proj2 (NewDatabase_load_failure_is_fatal
                            (world_with (Some "no envelope")) _
                            eq_refl _ eq_refl eq_refl))).
    + reflexivity.
    + vm_compute. reflexivity.
  - eexists.
    eapply (proj1 (NewDatabase_load_failure_is_fatal
                     world _ eq_refl _ eq_refl eq_refl)).
    reflexivity.
  Unshelve. all: discriminate.
Defined.

(** Toggling the pin of the "hello" item twice restores the collection. *)
Lemma TogglePin_frame_witness :
  Items (TogglePin (TogglePin helloStore stamp world).1.1 stamp
                   (TogglePin helloStore stamp world).2).1.1
  = Items helloStore.
Proof.
  destruct (TogglePin_frame helloStore stamp world 1%nat helloItem)
    as (_ & _ & _ & _ & _ & _ & Htwice).
  - vm_compute. reflexivity.
  - exact Htwice.
Defined.
End examples.

(** * Further properties of the cipher codec *)

Section codec_outcomes.
Context `{BlockPrims}.

Lemma NewCipher_bad_key (key : list byte) :
  ~ key_size_ok key -> aes.NewCipher key = Err (KeySizeError (length key)).
Proof.
  intros Hk. unfold aes.NewCipher.
  destruct (decide _) as [Hok|_]; [now elim Hk|reflexivity].
Qed.

Lemma Encrypt_draws (plaintext key : list byte) (w : World) :
  key_size_ok key -> (12 <= length (entropy w))%nat ->
  exists e w',
    Encrypt plaintext key w = (Ok e, w')
    /\ entropy w' = drop 12 (entropy w)
    /\ clock w' = clock w /\ same_files w w'.
Proof.
  intros Hk Hent. unfold Encrypt.
  rewrite (NewCipher_ok _ Hk). unfold cipher.NewGCM.
  destruct (decide _) as [_|Hn]; [|now elim Hn].
  unfold mbind, M_bind, mret, M_ret, cipher.NonceSize, rand.ReadFull,
    cipher.gcmStandardNonceSize.
  destruct (decide _) as [_|Hn]; [|now elim Hn].
  do 2 eexists. split; [reflexivity|]. now repeat split.
Qed.

(** What Encrypt does in each of its cases: a key of a wrong length is
    refused before the random source is touched; a random source that has
    nothing left makes the call fail with io.EOF inside "failed to generate
    nonce" and without any change; a random source that ends before the
    twelfth byte is read to its end and the call fails with
    io.ErrUnexpectedEOF inside the same message; otherwise the envelope is
    the base64 text of nonce || ciphertext || tag for the next twelve
    random bytes, which are consumed, and nothing else in the world
    changes. *)
Theorem Encrypt_outcomes (plaintext key : list byte) (w : World) :
  (~ key_size_ok key ->
   Encrypt plaintext key w
   = (Err (Wrapf "failed to create cipher" (KeySizeError (length key))), w))
  /\
  (key_size_ok key -> entropy w = [] ->
   Encrypt plaintext key w
   = (Err (Wrapf "failed to generate nonce" EOF), w))
  /\
  (key_size_ok key -> (0 < length (entropy w) < 12)%nat ->
   Encrypt plaintext key w
   = (Err (Wrapf "failed to generate nonce" ErrUnexpectedEOF),
      with_entropy w []))
  /\
  (key_size_ok key -> (12 <= length (entropy w))%nat ->
   let nonce := take 12 (entropy w) in
   let g := cipher.mkAEAD (aes.mkBlock key) in
   exists w',
     Encrypt plaintext key w
     = (Ok (base64.EncodeToString
              (nonce ++ cipher.Seal g [] nonce plaintext [])), w')
     /\ entropy w' = drop 12 (entropy w)
     /\ clock w' = clock w /\ same_files w w').
Proof.
  split; [|split; [|split]].
  - intros Hk. unfold Encrypt. now rewrite (NewCipher_bad_key _ Hk).
  - intros Hk Hent. unfold Encrypt.
    rewrite (NewCipher_ok _ Hk). unfold cipher.NewGCM.
    destruct (decide _) as [_|Hn]; [|now elim Hn].
    unfold mbind, M_bind, mret, M_ret, cipher.NonceSize, rand.ReadFull,
      cipher.gcmStandardNonceSize.
    rewrite Hent. cbn [length].
    destruct (decide (12 <= 0)%nat) as [Hle|_]; [lia|].
    destruct (decide _) as [_|Hn]; [reflexivity|now elim Hn].
  - intros Hk Hent. unfold Encrypt.
    rewrite (NewCipher_ok _ Hk). unfold cipher.NewGCM.
    destruct (decide _) as [_|Hn]; [|now elim Hn].
    unfold mbind, M_bind, mret, M_ret, cipher.NonceSize, rand.ReadFull,
      cipher.gcmStandardNonceSize.
    destruct (decide (12 <= _)%nat) as [Hle|_]; [lia|].
    destruct (decide (entropy w = [])) as [He|_]; [|reflexivity].
    rewrite He in Hent. cbn in Hent. lia.
  - intros Hk Hent nonce g. unfold Encrypt.
    rewrite (NewCipher_ok _ Hk). unfold cipher.NewGCM.
    destruct (decide _) as [_|Hn]; [|now elim Hn].
    unfold mbind, M_bind, mret, M_ret, cipher.NonceSize, rand.ReadFull,
      cipher.gcmStandardNonceSize.
    destruct (decide _) as [_|Hn]; [|now elim Hn].
    eexists. split; [reflexivity|]. now repeat split.
Qed.

(** The order in which Decrypt rejects an envelope: text that is not base64
    is rejected whatever the key; then a key of a wrong length; then
    decoded data shorter than the nonce; then data that leaves no room for
    the tag; then a tag that is not the tag of the rest. *)
Theorem Decrypt_failures (ciphertext : string) (key : list byte) :
  (forall e, base64.DecodeString ciphertext = Err e ->
     Decrypt ciphertext key = Err (Wrapf "failed to decode base64" e)) /\
  (forall data, base64.DecodeString ciphertext = Ok data ->
     (~ key_size_ok key ->
      Decrypt ciphertext key
      = Err (Wrapf "failed to create cipher" (KeySizeError (length key))))
     /\
     (key_size_ok key -> (length data < 12)%nat ->
      Decrypt ciphertext key = Err (Errorf "ciphertext too short")) /\
     (key_size_ok key -> (12 <= length data < 28)%nat ->
      Decrypt ciphertext key = Err (Wrapf "failed to decrypt" errOpen)) /\
     (key_size_ok key -> (28 <= length data)%nat ->
      let g := cipher.mkAEAD (aes.mkBlock key) in
      let nonce := take 12 data in
      let ct := take (length data - 28) (drop 12 data) in
      drop (length data - 16) data <> cipher.tag g nonce ct [] ->
      Decrypt ciphertext key = Err (Wrapf "failed to decrypt" errOpen))).
Proof.
  split.
  - intros e He. unfold Decrypt. now rewrite He.
  - intros data Hd. unfold Decrypt. rewrite Hd.
    split; [|split; [|split]].
    + intros Hk. now rewrite (NewCipher_bad_key _ Hk).
    + intros Hk Hlen. rewrite (NewCipher_ok _ Hk). unfold cipher.NewGCM.
      destruct (decide _) as [_|Hn]; [|now elim Hn].
      unfold cipher.NonceSize, cipher.gcmStandardNonceSize.
      destruct (decide _) as [_|Hn]; [reflexivity|lia].
    + intros Hk Hlen. rewrite (NewCipher_ok _ Hk). unfold cipher.NewGCM.
      destruct (decide _) as [_|Hn]; [|now elim Hn].
      unfold cipher.NonceSize, cipher.gcmStandardNonceSize.
      destruct (decide _) as [Hlt|_]; [lia|].
      unfold cipher.Open, cipher.gcmTagSize. rewrite length_drop.
      destruct (decide _) as [_|Hn]; [reflexivity|lia].
    + intros Hk Hlen Htag.
      set (g := cipher.mkAEAD (aes.mkBlock key)) in *.
      set (nonce := take 12 data) in *.
      set (ct := take (length data - 28) (drop 12 data)) in *.
      rewrite (NewCipher_ok _ Hk). unfold cipher.NewGCM.
      destruct (decide _) as [_|Hn]; [|now elim Hn].
      unfold cipher.NonceSize, cipher.gcmStandardNonceSize.
      destruct (decide _) as [Hlt|_]; [lia|].
      unfold cipher.Open, cipher.gcmTagSize. rewrite length_drop.
      destruct (decide _) as [Hlt|_]; [lia|].
      replace (length data - 12 - 16)%nat with (length data - 28)%nat by lia.
      fold nonce. fold ct. fold g.
      unfold bytes.equal. rewrite bool_decide_eq_false_2; [reflexivity|].
      intros Heq. apply Htag. rewrite Heq. rewrite drop_drop. f_equal. lia.
Qed.

(** Decrypt returns a plaintext only for an envelope that decodes to
    nonce || Seal(nonce, plaintext) for a twelve-byte nonce, under a key of
    an accepted length: nothing is accepted that sealing the returned
    plaintext under that nonce would not have produced. *)
Theorem Decrypt_accepts_only_sealed (ciphertext : string)
    (key plaintext : list byte) :
  Decrypt ciphertext key = Ok plaintext ->
  key_size_ok key /\
  exists nonce,
    length nonce = 12%nat /\
    base64.DecodeString ciphertext
    = Ok (nonce ++ cipher.Seal (cipher.mkAEAD (aes.mkBlock key)) [] nonce
                               plaintext []).
Proof.
  unfold Decrypt.
  destruct (base64.DecodeString ciphertext) as [data|e]; [|discriminate].
  destruct (aes.NewCipher key) as [b|e] eqn:Hb; [|discriminate].
  apply NewCipher_inv in Hb as [Hk ->].
  unfold cipher.NewGCM.
  destruct (decide _) as [_|Hn]; [|now elim Hn].
  unfold cipher.NonceSize, cipher.gcmStandardNonceSize.
  destruct (decide _) as [|Hlen]; [discriminate|].
  unfold cipher.Open, cipher.gcmTagSize.
  destruct (decide _) as [|Hlen']; [discriminate|].
  destruct (bytes.equal _ _) eqn:Heq; [|discriminate].
  intros [= <-]. split; [exact Hk|].
  exists (take 12 data). split; [rewrite length_take; lia|].
  f_equal. unfold cipher.Seal. cbn [app].
  rewrite ctr_from_involutive.
  apply bool_decide_eq_true in Heq. rewrite Heq.
  now rewrite !take_drop.
Qed.

(** An envelope determines the plaintext and the nonce it was made from:
    two calls of Encrypt under one key that return the same envelope
    encrypted the same plaintext and drew the same twelve bytes.  So two
    encryptions of one plaintext differ whenever their nonces do. *)
Theorem envelope_determines_plaintext_and_nonce (p1 p2 key : list byte)
    (w1 w2 w1' w2' : World) (e : string) :
  Encrypt p1 key w1 = (Ok e, w1') ->
  Encrypt p2 key w2 = (Ok e, w2') ->
  p1 = p2 /\ take 12 (entropy w1) = take 12 (entropy w2).
Proof.
  intros H1 H2. split.
  - pose proof (Decrypt_of_Encrypt _ _ _ _ _ H1) as D1.
    pose proof (Decrypt_of_Encrypt _ _ _ _ _ H2) as D2. congruence.
  - apply Encrypt_Ok_inv in H1 as (g1 & n1 & _ & Hl1 & Hr1 & He1).
    apply Encrypt_Ok_inv in H2 as (g2 & n2 & _ & Hl2 & Hr2 & He2).
    assert (Hdata : n1 ++ cipher.Seal g1 [] n1 p1 []
                    = n2 ++ cipher.Seal g2 [] n2 p2 []).
    { assert (Hd : base64.DecodeString e = base64.DecodeString e)
        by reflexivity.
      rewrite He1 in Hd at 1. rewrite He2 in Hd at 1.
      rewrite !DecodeString_EncodeToString in Hd. congruence. }
    assert (Hn : n1 = n2).
    { apply (f_equal (take 12)) in Hdata.
      unfold cipher.gcmStandardNonceSize in Hl1, Hl2.
      now rewrite (take_app_length' n1 _ 12 (eq_sym Hl1)),
        (take_app_length' n2 _ 12 (eq_sym Hl2)) in Hdata. }
    apply ReadFull_Ok in Hr1 as (_ & Hr1 & _).
    apply ReadFull_Ok in Hr2 as (_ & Hr2 & _).
    unfold cipher.gcmStandardNonceSize in Hr1, Hr2. congruence.
Qed.

Lemma Encode_length (src : list byte) :
  length (base64.Encode src) = (4 * ((length src + 2) / 3))%nat.
Proof.
  induction src as [|b0|b0 b1|b0 b1 b2 rest IH] using list_ind3;
    try reflexivity.
  cbn [base64.Encode length]. rewrite IH.
  replace (S (S (S (length rest))) + 2)%nat
    with ((length rest + 2) + 1 * 3)%nat by lia.
  rewrite Nat.div_add by lia. lia.
Qed.

(** The size of an envelope: the 12 bytes of the nonce and the 16 of the
    tag are added to the plaintext, and the whole is written in base64 with
    padding, four characters for every three bytes begun. *)
Theorem envelope_length (plaintext key : list byte) (w w' : World)
    (e : string) :
  Encrypt plaintext key w = (Ok e, w') ->
  String.length e = (4 * ((length plaintext + 28 + 2) / 3))%nat.
Proof.
  intros (g & nonce & _ & Hl & _ & ->)%Encrypt_Ok_inv.
  unfold base64.EncodeToString.
  rewrite <- (list_ascii_of_string_of_list_ascii (base64.Encode _)) at 1.
  assert (Hlen : forall s, String.length s
                           = length (list_ascii_of_string s)).
  { induction s as [|c s IHs]; cbn; congruence. }
  rewrite Hlen, !list_ascii_of_string_of_list_ascii, Encode_length.
  unfold cipher.Seal. cbn [app].
  rewrite !length_app, ctr_from_length, tag_length, Hl.
  unfold cipher.gcmStandardNonceSize, cipher.gcmTagSize.
  do 2 f_equal. lia.
Qed.
End codec_outcomes.

(** * Further properties of the item store *)

Section lookups.
Context `{BlockPrims} `{StorePrims}.

Lemma GetItem_found (db : Database) (id : string) (i : nat)
    (item : ClipboardItem) :
  list_find (fun x => ID x = id) (Items db) = Some (i, item) ->
  GetItem db id =
    match Decrypt (Content item) (key db) with
    | Err e => Err (Wrapf "failed to decrypt item" e)
    | Ok decrypted => Ok (item, decrypted)
    end.
Proof. intros Hf. unfold GetItem. now rewrite Hf. Qed.

Lemma GetItem_missing (db : Database) (id : string) :
  list_find (fun x => ID x = id) (Items db) = None ->
  GetItem db id = Err (Errorf "item not found").
Proof. intros Hf. unfold GetItem. now rewrite Hf. Qed.

(** GetItem looks at the first item with the ID only, not at its index. *)
Lemma GetItem_first (db db' : Database) (id : string) :
  key db' = key db ->
  snd <$> list_find (fun x => ID x = id) (Items db')
  = snd <$> list_find (fun x => ID x = id) (Items db) ->
  GetItem db' id = GetItem db id.
Proof.
  intros Hk Hf. unfold GetItem. rewrite Hk.
  destruct (list_find _ (Items db')) as [[i' x']|],
           (list_find _ (Items db)) as [[i x]|];
    cbn in Hf; try discriminate; [|reflexivity].
  now injection Hf as ->.
Qed.

Lemma find_delete_other {A : Type} (P : A -> Prop)
    `{!forall x, Decision (P x)} (l : list A) (i : nat) (x : A) :
  l !! i = Some x -> ~ P x ->
  snd <$> list_find P (delete i l) = snd <$> list_find P l.
Proof.
  revert i. induction l as [|y l IH]; intros i Hi Hx; [discriminate|].
  destruct i as [|i].
  - injection Hi as ->. cbn [delete list_delete list_find].
    destruct (decide (P x)) as [|_]; [contradiction|].
    destruct (list_find P l) as [[j z]|]; reflexivity.
  - change (delete (S i) (y :: l)) with (y :: delete i l).
    cbn [list_find]. destruct (decide (P y)); [reflexivity|].
    specialize (IH i Hi Hx).
    destruct (list_find P (delete i l)) as [[j z]|],
             (list_find P l) as [[j' z']|]; cbn in *; congruence.
Qed.

Lemma find_insert_other {A : Type} (P : A -> Prop)
    `{!forall x, Decision (P x)} (l : list A) (i : nat) (x x' : A) :
  l !! i = Some x -> ~ P x -> ~ P x' ->
  snd <$> list_find P (<[i := x']> l) = snd <$> list_find P l.
Proof.
  revert i. induction l as [|y l IH]; intros i Hi Hx Hx'; [discriminate|].
  destruct i as [|i].
  - injection Hi as ->. cbn [insert list_insert list_find].
    destruct (decide (P x)) as [|_]; [contradiction|].
    destruct (decide (P x')) as [|_]; [contradiction|]. reflexivity.
  - change (<[S i := x']> (y :: l)) with (y :: <[i := x']> l).
    cbn [list_find]. destruct (decide (P y)); [reflexivity|].
    specialize (IH i Hi Hx Hx').
    destruct (list_find P (<[i := x']> l)) as [[j z]|],
             (list_find P l) as [[j' z']|]; cbn in *; congruence.
Qed.

(** Insert and look up: when new content is submitted to a store with room
    and can be encrypted, the item AddItem puts in front carries the first
    clock reading as ID and the second as Timestamp, and GetItem under that
    ID returns this item with exactly the submitted plaintext, whether or
    not the save that followed succeeded and whatever older item may carry
    the same ID. *)
Theorem GetItem_after_AddItem (db : Database) (itemType : string)
    (content : list byte) (w : World) :
  len content <= MaxItemSize ->
  list_find (sameContent (contentHashOf content) itemType) (Items db)
    = None ->
  countUnpinned (Items db) < maxItems db ->
  key_size_ok (key db) -> (12 <= length (entropy w))%nat ->
  let db' := (AddItem db itemType content w).1.1 in
  exists item,
    Items db' = item :: Items db /\
    ID item = Sprintf_d (clock w 0) /\ Timestamp item = clock w 1 /\
    Type_ item = itemType /\ Pinned item = false /\
    Size item = len content /\
    GetItem db' (ID item) = Ok (item, content).
Proof.
  intros Hsize Hfind Hroom Hk Hent db'.
  destruct (Encrypt_draws content (key db) w Hk Hent)
    as (enc & w1 & Henc & _ & Hclock & _).
  pose proof (AddItem_insert db itemType content w w1 enc
                Hsize Hfind Hroom Henc) as Hadd.
  cbv zeta in Hadd. subst db'. rewrite Hadd. cbn [fst Items].
  eexists. split; [reflexivity|]. cbn [ID Timestamp Type_ Pinned Size].
  rewrite Hclock. repeat split.
  unfold GetItem. cbn [Items list_find ID key Content].
  destruct (decide _) as [_|Hn]; [|now elim Hn].
  cbn. now rewrite (Decrypt_of_Encrypt _ _ _ _ _ Henc).
Qed.

(** DeleteItem removes the first item that carries the ID and nothing
    else: the other items keep their order, the store is one item shorter,
    the result is that of the save, GetItem under any other ID answers as
    before, and GetItem under the deleted ID no longer finds anything when
    no second item carried it.  An ID that is not stored gives the error
    "item not found" and leaves store and world as they were. *)
Theorem DeleteItem_outcomes (db : Database) (id : string) (w : World) :
  (forall i item,
     list_find (fun x => ID x = id) (Items db) = Some (i, item) ->
     let db' := (DeleteItem db id w).1.1 in
     Items db' = take i (Items db) ++ drop (S i) (Items db) /\
     S (length (Items db')) = length (Items db) /\
     key db' = key db /\ maxItems db' = maxItems db /\
     ((DeleteItem db id w).1.2, (DeleteItem db id w).2) = saveInternal db' w
     /\
     (forall id', id' <> id -> GetItem db' id' = GetItem db id') /\
     ((forall j y, Items db !! j = Some y -> ID y = id -> j = i) ->
      GetItem db' id = Err (Errorf "item not found"))) /\
  (list_find (fun x => ID x = id) (Items db) = None ->
   DeleteItem db id w = ((db, Some (Errorf "item not found")), w)).
Proof.
  split.
  - intros i item Hfind db'.
    pose proof Hfind as (Hi & Hid & Hfirst)%list_find_Some.
    assert (Hlt : (i < length (Items db))%nat)
      by (apply lookup_lt_is_Some; eauto).
    assert (Hdb' : DeleteItem db id w
              = let d := mkDatabase (take i (Items db)
                                       ++ drop (S i) (Items db))
                                    (key db) (maxItems db) in
                ((d, (saveInternal d w).1), (saveInternal d w).2)).
    { unfold DeleteItem. rewrite Hfind.
      unfold mbind, M_bind, mret, M_ret. cbv zeta.
      now destruct (saveInternal _ w). }
    cbv zeta in Hdb'. subst db'. rewrite Hdb'. cbn [fst snd Items key maxItems].
    split; [reflexivity|]. split.
    { rewrite length_app, length_take, length_drop. lia. }
    split; [reflexivity|]. split; [reflexivity|].
    split; [now destruct (saveInternal _ w)|]. split.
    + intros id' Hne. apply GetItem_first; [reflexivity|].
      cbn [Items]. rewrite <- delete_take_drop.
      apply (find_delete_other _ _ i item Hi). congruence.
    + intros Huniq. apply GetItem_missing. cbn [Items].
      apply list_find_None, Forall_forall. intros y Hy Hyid.
      rewrite <- delete_take_drop in Hy.
      apply list_elem_of_lookup in Hy as (j & Hj).
      destruct (decide (j < i)%nat).
      * rewrite list_lookup_delete_lt in Hj by assumption.
        specialize (Huniq _ _ Hj Hyid). lia.
      * rewrite list_lookup_delete_ge in Hj by lia.
        specialize (Huniq _ _ Hj Hyid). lia.
  - intros Hfind. unfold DeleteItem. now rewrite Hfind.
Qed.

(** TogglePin and lookups: after TogglePin(id) on a stored ID, GetItem
    under any other ID answers as before, and GetItem under id returns the
    same plaintext (or the same error) with the item's flag negated.  An ID
    that is not stored gives "item not found" and changes nothing. *)
Theorem GetItem_after_TogglePin (db : Database) (id : string) (w : World) :
  (forall i item,
     list_find (fun x => ID x = id) (Items db) = Some (i, item) ->
     let db' := (TogglePin db id w).1.1 in
     (forall id', id' <> id -> GetItem db' id' = GetItem db id') /\
     GetItem db' id =
       match GetItem db id with
       | Ok (x, content) => Ok (withPinned x (negb (Pinned x)), content)
       | Err e => Err e
       end) /\
  (list_find (fun x => ID x = id) (Items db) = None ->
   TogglePin db id w = ((db, Some (Errorf "item not found")), w)).
Proof.
  split; [|apply TogglePin_missing].
  intros i item Hfind db'.
  pose proof Hfind as (Hi & Hid & Hfirst)%list_find_Some.
  assert (Hlt : (i < length (Items db))%nat)
    by (apply lookup_lt_is_Some; eauto).
  unfold db'. rewrite (TogglePin_found db id w i item Hfind).
  set (item' := withPinned item (negb (Pinned item))).
  split.
  - intros id' Hne. apply GetItem_first; [reflexivity|]. cbn [Items].
    apply (find_insert_other _ _ i item item' Hi); cbn; congruence.
  - assert (Hf' : list_find (fun x => ID x = id) (<[i := item']> (Items db))
                  = Some (i, item')).
    { apply list_find_Some. split; [|split].
      - apply list_lookup_insert_eq, Hlt.
      - exact Hid.
      - intros j y Hj Hji.
        rewrite list_lookup_insert_ne in Hj by lia. eauto. }
    rewrite (GetItem_found (mkDatabase _ (key db) (maxItems db)) id i item' Hf'),
      (GetItem_found db id i item Hfind).
    cbn [key Content item' withPinned].
    now destruct (Decrypt (Content item) (key db)).
Qed.
End lookups.

Section views.
Context `{BlockPrims} `{StorePrims}.
Local Open Scope Z_scope.

Lemma pinned_count_from (items : list ClipboardItem) (n : Z) :
  fold_left (fun count item => if Pinned item then count + 1 else count)
            items n
  = n + len (pinnedOf items).
Proof.
  unfold len, pinnedOf.
  revert n. induction items as [|x items IH]; intros n; simpl; [lia|].
  rewrite IH, filter_cons.
  case_pinned x; simpl; lia.
Qed.

Lemma GetPinnedCount_len (db : Database) :
  GetPinnedCount db = len (pinnedOf (Items db)).
Proof. unfold GetPinnedCount. rewrite pinned_count_from. lia. Qed.

Lemma GetAllItems_filters (db : Database) :
  GetAllItems db = pinnedOf (Items db) ++ unpinnedOf (Items db).
Proof. unfold GetAllItems. now rewrite separate_filters. Qed.

Lemma pinnedOf_sublist (items : list ClipboardItem) :
  pinnedOf items `sublist_of` items.
Proof. apply sublist_filter. Qed.

Lemma unpinnedOf_sublist (items : list ClipboardItem) :
  unpinnedOf items `sublist_of` items.
Proof. apply sublist_filter. Qed.

(** The view GetAllItems returns is a rearrangement of the stored
    collection: its first GetPinnedCount entries are the pinned items, the
    rest are the unpinned ones, and inside each of the two groups the
    items stand in the order of the store.  No item is lost or repeated,
    and a store whose items are all pinned, or all unpinned, is returned
    as it is. *)
Theorem GetAllItems_pinned_first (db : Database) :
  let n := Z.to_nat (GetPinnedCount db) in
  GetAllItems db ≡ₚ Items db /\
  len (GetAllItems db) = GetItemCount db /\
  Forall (fun x => Pinned x = true) (take n (GetAllItems db)) /\
  Forall (fun x => Pinned x = false) (drop n (GetAllItems db)) /\
  take n (GetAllItems db) `sublist_of` Items db /\
  drop n (GetAllItems db) `sublist_of` Items db /\
  (Forall (fun x => Pinned x = true) (Items db)
   \/ Forall (fun x => Pinned x = false) (Items db) ->
   GetAllItems db = Items db).
Proof.
  intros n. rewrite GetAllItems_filters.
  assert (Hn : n = length (pinnedOf (Items db))).
  { unfold n. rewrite GetPinnedCount_len. unfold len. lia. }
  rewrite (take_app_length' _ _ n Hn), Hn, drop_app_length.
  split; [apply pinned_unpinned_Permutation|].
  split.
  { unfold GetItemCount, len. rewrite length_app, pinned_unpinned_length.
    reflexivity. }
  split; [apply pinnedOf_pinned|].
  split; [apply unpinnedOf_unpinned|].
  split; [apply pinnedOf_sublist|].
  split; [apply unpinnedOf_sublist|].
  intros [Hall|Hnone].
  - rewrite (pinnedOf_all _ Hall), (unpinnedOf_none _ Hall).
    apply app_nil_r.
  - now rewrite (pinnedOf_none _ Hnone), (unpinnedOf_all _ Hnone).
Qed.

(** The three counters agree: the pinned count and the unpinned count
    that AddItem and IsFull compute add up to the item count, so IsFull
    holds exactly when the item count less the pinned count has reached
    maxItems; and the view of GetAllItems has as many entries as
    GetItemCount says. *)
Theorem counts_add_up (db : Database) :
  GetPinnedCount db + countUnpinned (Items db) = GetItemCount db /\
  0 <= GetPinnedCount db <= GetItemCount db /\
  (IsFull db = true <->
   GetItemCount db - GetPinnedCount db >= maxItems db) /\
  (GetPinnedCount db = 0 <->
   Forall (fun x => Pinned x = false) (Items db)).
Proof.
  assert (Hsum : GetPinnedCount db + countUnpinned (Items db)
                 = GetItemCount db).
  { rewrite GetPinnedCount_len, countUnpinned_len. unfold GetItemCount, len.
    pose proof (pinned_unpinned_length (Items db)). lia. }
  pose proof (countUnpinned_nonneg (Items db)) as Hu.
  assert (Hp : 0 <= GetPinnedCount db)
    by (rewrite GetPinnedCount_len; unfold len; lia).
  split; [exact Hsum|]. split; [lia|]. split.
  - unfold IsFull. rewrite bool_decide_eq_true. lia.
  - rewrite GetPinnedCount_len. unfold len, pinnedOf. split.
    + intros Hz. apply Forall_forall. intros x Hx.
      destruct (Pinned x) eqn:Hpin; [|reflexivity].
      assert (Hin : x ∈ filter (fun item => Pinned item = true) (Items db))
        by (apply list_elem_of_filter; split; assumption).
      destruct (filter _ (Items db)); [inversion Hin|cbn in Hz; lia].
    + intros Hall. fold (pinnedOf (Items db)).
      now rewrite (pinnedOf_none _ Hall).
Qed.
End views.

Section settings.
Context `{BlockPrims} `{StorePrims}.
Local Open Scope Z_scope.

Lemma enforceLimit_within (db : Database) :
  len (Items db) <= maxItems db -> enforceLimit db = db.
Proof.
  intros Hle. unfold enforceLimit.
  destruct (decide (len (Items db) <= maxItems db)); [reflexivity|lia].
Qed.

Lemma enforceLimit_key (db : Database) : key (enforceLimit db) = key db.
Proof.
  unfold enforceLimit.
  destruct (decide _); [reflexivity|].
  now destruct (separate (Items db)).
Qed.

(** SetMaxItems settles the store under the clamped cap: maxItems becomes
    max brought into [10, 500]; a store that already fits keeps all its
    items in place; in every case the items kept are items that were
    there, the item count is at most the cap, so that GetRemainingSlots is
    the plain difference, the key is the same, and a second call with the
    same argument changes nothing. *)
Theorem SetMaxItems_settles (db : Database) (max : Z) (w : World) :
  let db' := (SetMaxItems db max w).1 in
  GetMaxItems db' = clampedCap max /\
  10 <= GetMaxItems db' <= 500 /\
  (len (Items db) <= clampedCap max -> Items db' = Items db) /\
  Items db' ⊆+ Items db /\
  GetItemCount db' <= GetMaxItems db' /\
  GetRemainingSlots db' = GetMaxItems db' - GetItemCount db' /\
  key db' = key db /\
  (forall w', (SetMaxItems db' max w').1 = db').
Proof.
  intros db'. unfold db'. rewrite SetMaxItems_db.
  set (d := mkDatabase (Items db) (key db) (clampedCap max)).
  pose proof (clampedCap_range max) as Hcap.
  assert (Hnn : 0 <= maxItems d) by (cbn; lia).
  destruct (enforceLimit_length d Hnn) as [Hlen Hmax].
  pose proof (enforceLimit_submseteq d Hnn) as Hsub.
  cbn [maxItems d] in Hmax. unfold GetMaxItems, GetItemCount.
  rewrite Hmax.
  split; [reflexivity|]. split; [exact Hcap|]. split.
  { intros Hfit. now rewrite (enforceLimit_within d Hfit). }
  split; [exact Hsub|].
  split; [cbn [maxItems d] in Hlen; exact Hlen|]. split.
  { unfold GetRemainingSlots. rewrite Hmax. cbn [maxItems d] in Hlen.
    cbv zeta. destruct (decide _); [lia|reflexivity]. }
  split; [apply (enforceLimit_key d)|].
  intros w'. rewrite SetMaxItems_db.
  assert (Hd : mkDatabase (Items (enforceLimit d)) (key (enforceLimit d))
                          (clampedCap max) = enforceLimit d).
  { rewrite <- Hmax. now destruct (enforceLimit d). }
  rewrite Hd. apply enforceLimit_within. now rewrite Hmax.
Qed.

(** ClearAll leaves no item, pinned or not: both counters are 0, the
    store is not full, all of maxItems is free again, no ID is found any
    more, key and cap stay, and the result and the world are those of the
    save of the empty collection, so that where persistence works the
    file afterwards holds an envelope of the empty collection. *)
Theorem ClearAll_empties (db : Database) (w : World) :
  let db' := (ClearAll db w).1.1 in
  Items db' = [] /\ key db' = key db /\ maxItems db' = maxItems db /\
  GetItemCount db' = 0 /\ GetPinnedCount db' = 0 /\
  (forall id, GetItem db' id = Err (Errorf "item not found")) /\
  (0 < maxItems db ->
   IsFull db' = false /\ GetRemainingSlots db' = maxItems db) /\
  ((ClearAll db w).1.2, (ClearAll db w).2) = saveInternal db' w /\
  (persistence_works db w 1 ->
   (ClearAll db w).1.2 = None /\ persisted db' (ClearAll db w).2).
Proof.
  intros db'.
  assert (Hc : ClearAll db w
               = let d := mkDatabase [] (key db) (maxItems db) in
                 ((d, (saveInternal d w).1), (saveInternal d w).2)).
  { unfold ClearAll, mbind, M_bind, mret, M_ret. cbv zeta.
    now destruct (saveInternal _ w). }
  cbv zeta in Hc. unfold db'. rewrite Hc. cbn [fst snd Items key maxItems].
  repeat (split; [reflexivity|]).
  split.
  { intros Hpos. unfold IsFull, GetRemainingSlots.
    unfold countUnpinned, len. cbn [Items maxItems fold_left length].
    split; [apply bool_decide_eq_false; lia|].
    change (Z.of_nat 0) with 0.
    destruct (decide (maxItems db - 0 < 0)); lia. }
  split; [now destruct (saveInternal _ w)|].
  intros Hw.
  assert (Hw' : persistence_works (mkDatabase [] (key db) (maxItems db)) w 1)
    by (eapply persistence_works_key; [|exact Hw]; reflexivity).
  destruct (saveInternal_works _ w 0 Hw') as (w' & Hs & _).
  rewrite Hs. cbn [fst snd]. split; [reflexivity|].
  apply (saveInternal_None _ w w' Hs).
Qed.
End settings.

Section frames.
Context `{BlockPrims} `{StorePrims}.
Local Open Scope Z_scope.

Lemma perform_AddItem (db : Database) (itemType : string)
    (content : list byte) (w : World) :
  (perform db (OpAddItem itemType content) w).1
  = (AddItem db itemType content w).1.1.
Proof.
  cbn [perform]. unfold mbind, M_bind, mret, M_ret.
  now destruct (AddItem db itemType content w) as [[db' err] w'].
Qed.

Lemma perform_TogglePin (db : Database) (id : string) (w : World) :
  (perform db (OpTogglePin id) w).1 = (TogglePin db id w).1.1.
Proof.
  cbn [perform]. unfold mbind, M_bind, mret, M_ret.
  now destruct (TogglePin db id w) as [[db' err] w'].
Qed.

Lemma perform_DeleteItem (db : Database) (id : string) (w : World) :
  (perform db (OpDeleteItem id) w).1 = (DeleteItem db id w).1.1.
Proof.
  cbn [perform]. unfold mbind, M_bind, mret, M_ret.
  now destruct (DeleteItem db id w) as [[db' err] w'].
Qed.

Lemma perform_ClearAll (db : Database) (w : World) :
  (perform db OpClearAll w).1 = mkDatabase [] (key db) (maxItems db).
Proof.
  cbn [perform]. unfold mbind, M_bind, mret, M_ret.
  pose proof (ClearAll_db db w) as Hc.
  now destruct (ClearAll db w) as [[db' err] w'].
Qed.

Lemma TogglePin_db (db : Database) (id : string) (w : World) :
  (TogglePin db id w).1.1 = db
  \/ exists i item,
       Items db !! i = Some item /\
       (TogglePin db id w).1.1
       = mkDatabase (<[i := withPinned item (negb (Pinned item))]> (Items db))
                    (key db) (maxItems db).
Proof.
  destruct (list_find (fun x => ID x = id) (Items db)) as [[i item]|]
    eqn:Hfind.
  - right. exists i, item. split.
    + now apply list_find_Some in Hfind as (Hi & _).
    + now apply TogglePin_found.
  - left. now rewrite (TogglePin_missing db id w Hfind).
Qed.

Lemma Encrypt_clock (plaintext k : list byte) (w : World) :
  clock (Encrypt plaintext k w).2 = clock w.
Proof.
  unfold Encrypt.
  destruct (aes.NewCipher k); [|reflexivity].
  destruct (cipher.NewGCM _); [|reflexivity].
  unfold mbind, M_bind, mret, M_ret, rand.ReadFull.
  destruct (decide _); [reflexivity|]. now destruct (decide _).
Qed.

(** What AddItem leaves in memory, case by case. *)
Lemma AddItem_db (db : Database) (itemType : string) (content : list byte)
    (w : World) :
  let db' := (AddItem db itemType content w).1.1 in
  db' = db
  \/ (len content <= MaxItemSize /\
      exists i existing,
        Items db !! i = Some existing /\
        db' = mkDatabase
                (withTimestamp existing (clock w 0)
                   :: (take i (Items db) ++ drop (S i) (Items db)))
                (key db) (maxItems db))
  \/ (len content <= MaxItemSize /\
      countUnpinned (Items db) < maxItems db /\
      exists enc w1,
        Encrypt content (key db) w = (Ok enc, w1) /\
        db' = mkDatabase
                (mkItem (Sprintf_d (clock w 0)) itemType enc (clock w 1)
                        false (len content) (contentHashOf content)
                   :: Items db)
                (key db) (maxItems db)).
Proof.
  intros db'. unfold db'.
  destruct (decide (len content > MaxItemSize)) as [Hbig|Hsize].
  { left. apply AddItem_oversize, Hbig. }
  assert (Hsize' : len content <= MaxItemSize) by lia.
  destruct (list_find (sameContent (contentHashOf content) itemType)
              (Items db)) as [[i existing]|] eqn:Hfind.
  { right; left. split; [exact Hsize'|]. exists i, existing. split.
    - now apply list_find_Some in Hfind as (Hi & _).
    - pose proof (AddItem_duplicate db itemType content w i existing
                    Hsize' Hfind) as Hadd.
      cbv zeta in Hadd. now rewrite Hadd. }
  destruct (decide (countUnpinned (Items db) >= maxItems db)) as [Hfull|Hroom].
  { left. now rewrite (AddItem_full db itemType content w Hsize' Hfind Hfull). }
  assert (Hroom' : countUnpinned (Items db) < maxItems db) by lia.
  destruct (Encrypt content (key db) w) as [[enc|e] w1] eqn:Henc.
  - right; right. split; [exact Hsize'|]. split; [exact Hroom'|].
    exists enc, w1. split; [reflexivity|].
    pose proof (AddItem_insert db itemType content w w1 enc
                  Hsize' Hfind Hroom' Henc) as Hadd.
    cbv zeta in Hadd. rewrite Hadd. cbn [fst].
    pose proof (Encrypt_clock content (key db) w) as Hclock.
    rewrite Henc in Hclock. cbn [snd] in Hclock.
    now rewrite Hclock.
  - left.
    now rewrite (AddItem_encrypt_failure db itemType content w w1 e
                   Hsize' Hfind Hroom' Henc).
Qed.

Lemma Encrypt_result_sources (plaintext k : list byte) (w w' : World) :
  entropy w = entropy w' ->
  (Encrypt plaintext k w).1 = (Encrypt plaintext k w').1.
Proof.
  intros Hent. unfold Encrypt.
  destruct (aes.NewCipher k); [|reflexivity].
  destruct (cipher.NewGCM _); [|reflexivity].
  unfold mbind, M_bind, mret, M_ret, rand.ReadFull. rewrite Hent.
  destruct (decide _); [reflexivity|]. now destruct (decide _).
Qed.

(** What an operation leaves in memory does not depend on the file
    system: in two worlds with the same clock and the same random bytes,
    whatever their files, faults and settings, every operation yields the
    same store.  In particular a save that fails takes nothing back. *)
Theorem memory_ignores_files (db : Database) (o : operation)
    (w w' : World) :
  clock w = clock w' -> entropy w = entropy w' ->
  (perform db o w).1 = (perform db o w').1.
Proof.
  intros Hclock Hent.
  destruct o as [itemType content|id|id| |max].
  - rewrite !perform_AddItem.
    destruct (decide (len content > MaxItemSize)) as [Hbig|Hsize].
    { now rewrite (proj1 (AddItem_oversize db itemType content w Hbig)),
        (proj1 (AddItem_oversize db itemType content w' Hbig)). }
    assert (Hsize' : len content <= MaxItemSize) by lia.
    destruct (list_find (sameContent (contentHashOf content) itemType)
                (Items db)) as [[i existing]|] eqn:Hfind.
    { pose proof (AddItem_duplicate db itemType content w i existing
                    Hsize' Hfind) as Hw.
      pose proof (AddItem_duplicate db itemType content w' i existing
                    Hsize' Hfind) as Hw'.
      cbv zeta in Hw, Hw'. rewrite Hw, Hw'. cbn [fst].
      now rewrite Hclock. }
    destruct (decide (countUnpinned (Items db) >= maxItems db))
      as [Hfull|Hroom].
    { now rewrite (AddItem_full db itemType content w Hsize' Hfind Hfull),
        (AddItem_full db itemType content w' Hsize' Hfind Hfull). }
    assert (Hroom' : countUnpinned (Items db) < maxItems db) by lia.
    pose proof (Encrypt_result_sources content (key db) w w' Hent) as Henc.
    pose proof (Encrypt_clock content (key db) w) as Hc.
    pose proof (Encrypt_clock content (key db) w') as Hc'.
    destruct (Encrypt content (key db) w) as [[enc|e] w1] eqn:He,
             (Encrypt content (key db) w') as [[enc'|e'] w1'] eqn:He';
      cbn [fst snd] in Henc, Hc, Hc'; try discriminate.
    + injection Henc as <-.
      pose proof (AddItem_insert db itemType content w w1 enc
                    Hsize' Hfind Hroom' He) as Hw.
      pose proof (AddItem_insert db itemType content w' w1' enc
                    Hsize' Hfind Hroom' He') as Hw'.
      cbv zeta in Hw, Hw'. rewrite Hw, Hw'. cbn [fst].
      now rewrite Hc, Hc', Hclock.
    + now rewrite (AddItem_encrypt_failure db itemType content w w1 e
                     Hsize' Hfind Hroom' He),
        (AddItem_encrypt_failure db itemType content w' w1' e'
           Hsize' Hfind Hroom' He').
  - rewrite !perform_TogglePin.
    destruct (list_find (fun x => ID x = id) (Items db)) as [[i item]|]
      eqn:Hfind.
    + now rewrite !(TogglePin_found db id _ i item Hfind).
    + now rewrite !(TogglePin_missing db id _ Hfind).
  - rewrite !perform_DeleteItem. unfold DeleteItem.
    destruct (list_find _ _) as [[i item]|]; [|reflexivity].
    unfold mbind, M_bind, mret, M_ret.
    now destruct (saveInternal _ w), (saveInternal _ w').
  - now rewrite !perform_ClearAll.
  - cbn [perform]. now rewrite !SetMaxItems_db.
Qed.
End frames.

Section store_invariants.
Context `{BlockPrims} `{StorePrims}.
Local Open Scope Z_scope.

Lemma perform_key (db : Database) (o : operation) (w : World) :
  key (perform db o w).1 = key db.
Proof.
  destruct o as [itemType content|id|id| |max].
  - rewrite perform_AddItem.
    destruct (AddItem_db db itemType content w)
      as [->|[(_ & i & x & _ & ->)|(_ & _ & enc & w1 & _ & ->)]];
      reflexivity.
  - rewrite perform_TogglePin.
    destruct (TogglePin_db db id w) as [->|(i & x & _ & ->)]; reflexivity.
  - rewrite perform_DeleteItem.
    destruct (DeleteItem_db db id w) as [->|(i & ->)]; reflexivity.
  - now rewrite perform_ClearAll.
  - cbn [perform]. rewrite SetMaxItems_db.
    apply (enforceLimit_key (mkDatabase (Items db) (key db) (clampedCap max))).
Qed.

Lemma perform_maxItems (db : Database) (o : operation) (w : World) :
  maxItems (perform db o w).1
  = match o with
    | OpSetMaxItems max => clampedCap max
    | _ => maxItems db
    end.
Proof.
  destruct o as [itemType content|id|id| |max].
  - rewrite perform_AddItem.
    destruct (AddItem_db db itemType content w)
      as [->|[(_ & i & x & _ & ->)|(_ & _ & enc & w1 & _ & ->)]];
      reflexivity.
  - rewrite perform_TogglePin.
    destruct (TogglePin_db db id w) as [->|(i & x & _ & ->)]; reflexivity.
  - rewrite perform_DeleteItem.
    destruct (DeleteItem_db db id w) as [->|(i & ->)]; reflexivity.
  - now rewrite perform_ClearAll.
  - cbn [perform]. rewrite SetMaxItems_db.
    pose proof (clampedCap_range max).
    apply (enforceLimit_length
             (mkDatabase (Items db) (key db) (clampedCap max))).
    cbn. lia.
Qed.

(** Only SetMaxItems touches the cap, and nothing touches the key: after
    any sequence of operations the key is the one the store started with;
    the cap is the clamped argument of the last SetMaxItems of the
    sequence, or the initial cap when there is none, and it stays within
    [10, 500] once it is there. *)
Theorem performAll_key_and_cap (ops : list operation) (db : Database)
    (w : World) :
  let db' := (performAll db ops w).1 in
  key db' = key db /\
  maxItems db'
  = fold_left (fun cap o => match o with
                            | OpSetMaxItems max => clampedCap max
                            | _ => cap
                            end) ops (maxItems db) /\
  (10 <= maxItems db <= 500 -> 10 <= maxItems db' <= 500).
Proof.
  revert db w. induction ops as [|o ops IH]; intros db w.
  - cbn. auto.
  - cbn [performAll fold_left]. unfold mbind, M_bind.
    pose proof (perform_key db o w) as Hk.
    pose proof (perform_maxItems db o w) as Hm.
    destruct (perform db o w) as [db1 w1]. cbn [fst] in Hk, Hm.
    destruct (IH db1 w1) as (IHk & IHm & IHr). cbv zeta.
    split; [congruence|]. split.
    + rewrite IHm, Hm. now destruct o.
    + intros Hr. apply IHr. rewrite Hm.
      destruct o; try exact Hr. apply clampedCap_range.
Qed.

Lemma sealed_withTimestamp (k : list byte) (item : ClipboardItem) (t : Z) :
  sealed k item -> sealed k (withTimestamp item t).
Proof. intros Hs. exact Hs. Qed.

Lemma sealed_withPinned (k : list byte) (item : ClipboardItem) (p : bool) :
  sealed k item -> sealed k (withPinned item p).
Proof. intros Hs. exact Hs. Qed.

Lemma Forall_submseteq {A : Type} (P : A -> Prop) (l1 l2 : list A) :
  l1 ⊆+ l2 -> Forall P l2 -> Forall P l1.
Proof.
  intros Hsub Hall. apply Forall_forall. intros x Hx.
  rewrite Forall_forall in Hall. apply Hall.
  eapply elem_of_submseteq; eassumption.
Qed.

Lemma perform_well_sealed (db : Database) (o : operation) (w : World) :
  well_sealed db -> well_sealed (perform db o w).1.
Proof.
  unfold well_sealed. intros Hall.
  destruct o as [itemType content|id|id| |max].
  - rewrite perform_AddItem.
    destruct (AddItem_db db itemType content w)
      as [->|[(Hsize & i & x & Hi & ->)
             |(Hsize & _ & enc & w1 & Henc & ->)]]; cbn [Items key].
    + exact Hall.
    + constructor.
      * apply sealed_withTimestamp.
        rewrite Forall_forall in Hall. apply Hall.
        eapply list_elem_of_lookup_2, Hi.
      * rewrite <- delete_take_drop.
        eapply Forall_submseteq; [|exact Hall].
        apply sublist_submseteq, sublist_delete.
    + constructor; [|exact Hall].
      exists content. cbn [Content Size Hash].
      split; [eapply Decrypt_of_Encrypt, Henc|]. auto.
  - rewrite perform_TogglePin.
    destruct (TogglePin_db db id w) as [->|(i & x & Hi & ->)];
      [exact Hall|]. cbn [Items key].
    apply Forall_insert; [exact Hall|].
    apply sealed_withPinned.
    rewrite Forall_forall in Hall. apply Hall.
    eapply list_elem_of_lookup_2, Hi.
  - rewrite perform_DeleteItem.
    destruct (DeleteItem_db db id w) as [->|(i & ->)]; [exact Hall|].
    cbn [Items key]. rewrite <- delete_take_drop.
    eapply Forall_submseteq; [|exact Hall].
    apply sublist_submseteq, sublist_delete.
  - rewrite perform_ClearAll. constructor.
  - cbn [perform]. rewrite SetMaxItems_db, enforceLimit_key. cbn [key].
    eapply Forall_submseteq; [|exact Hall].
    pose proof (clampedCap_range max).
    apply (enforceLimit_submseteq
             (mkDatabase (Items db) (key db) (clampedCap max))).
    cbn. lia.
Qed.

Lemma reachable_well_sealed (db : Database) :
  reachable db -> well_sealed db.
Proof.
  induction 1 as [k|db o w _ IH].
  - constructor.
  - now apply perform_well_sealed.
Qed.

(** Every item of a store built by the operations opens: in a reachable
    store each item's Content decrypts under the key of the store to a
    plaintext whose length is the item's Size, whose digest is its Hash
    and which is within MaxItemSize.  So GetItem never answers "failed to
    decrypt item" there: an ID is either not found, or GetItem returns a
    stored item with that ID together with such a plaintext. *)
Theorem reachable_items_open (db : Database) :
  reachable db ->
  well_sealed db /\
  forall id,
    GetItem db id = Err (Errorf "item not found")
    \/ exists item content,
         GetItem db id = Ok (item, content) /\
         item ∈ Items db /\ ID item = id /\
         Size item = len content /\
         Hash item = contentHashOf content /\
         len content <= MaxItemSize.
Proof.
  intros Hall%reachable_well_sealed. split; [exact Hall|].
  intros id. unfold GetItem.
  destruct (list_find _ _) as [[i item]|] eqn:Hfind; [right|now left].
  apply list_find_Some in Hfind as (Hi & Hid & _).
  assert (Hin : item ∈ Items db) by (eapply list_elem_of_lookup_2, Hi).
  unfold well_sealed in Hall. rewrite Forall_forall in Hall.
  destruct (Hall item Hin) as (content & Hd & Hsz & Hh & Hle).
  exists item, content. rewrite Hd. auto 10.
Qed.
End store_invariants.

Section persistence_more.
Context `{BlockPrims} `{StorePrims}.
Local Open Scope Z_scope.

Lemma made_elem (p : string) (ds : list string) : p ∈ os.made p ds.
Proof.
  unfold os.made. destruct (decide (p ∈ ds)); [assumption|].
  apply list_elem_of_here.
Qed.

Lemma made_idemp (p : string) (ds : list string) :
  os.made p (os.made p ds) = os.made p ds.
Proof.
  unfold os.made at 1.
  destruct (decide _) as [_|Hn]; [reflexivity|].
  elim Hn. apply made_elem.
Qed.

(** A save that reports no error ran in a world where the path resolves,
    and changed nothing but the file and the directories: the Pano
    directory exists afterwards. *)
Lemma saveInternal_None_world (db : Database) (w w' : World) :
  saveInternal db w = (None, w') ->
  appdata w <> EmptyString /\ mkdir_fault w = None /\
  write_fault w = None /\
  appdata w' = appdata w /\ mkdir_fault w' = mkdir_fault w /\
  read_fault w' = read_fault w /\ write_fault w' = write_fault w /\
  machine_id w' = machine_id w /\
  with_Pano w' = w'.
Proof.
  unfold saveInternal. unfold mbind at 1, M_bind at 1.
  unfold GetDatabasePath, mbind at 1, M_bind at 1, os.Getenv_APPDATA.
  destruct (decide (appdata w = EmptyString)) as [|Ha];
    [unfold mret, M_ret; discriminate|].
  unfold mbind at 1, M_bind at 1, os.MkdirAll.
  destruct (mkdir_fault w) as [e|] eqn:Hm;
    [unfold mret, M_ret; discriminate|].
  unfold mret at 1, M_ret at 1.
  destruct (json_Marshal (Items db)) as [jsonData|e];
    [|unfold mret, M_ret; discriminate].
  unfold mbind, M_bind.
  set (w1 := with_dirs w _).
  pose proof (Encrypt_same_files jsonData (key db) w1)
    as (Ea & Ed & Em & Emm & _ & Er & Ew & Ewr & Ei).
  destruct (Encrypt jsonData (key db) w1) as [[enc|e] w2];
    [|unfold mret, M_ret; discriminate].
  cbn [snd] in *.
  unfold os.WriteFile, mret, M_ret.
  destruct (write_fault w2) eqn:Hw2;
    [destruct (write_reach w2); discriminate|].
  intros [= <-]. cbn in *.
  repeat split; try congruence.
  unfold with_Pano, with_dirs, with_file. cbn.
  rewrite Ed, Ea. now rewrite made_idemp.
Qed.

(** Save, then load: when a save reports no error and encoding/json reads
    back what it wrote for this collection, Load from the resulting world
    puts exactly the saved collection into any store with the same key,
    and NewDatabase, where the hardware key is that key, returns the saved
    collection with the cap back at DefaultMaxItems: the cap is not part
    of what is saved. *)
Theorem Load_after_save (db : Database) (w w' : World) :
  saveInternal db w = (None, w') ->
  read_fault w = None ->
  (forall b, json_Marshal (Items db) = Ok b ->
             json_Unmarshal b = (Items db, None)) ->
  (forall db0, key db0 = key db ->
     Load db0 w'
     = ((mkDatabase (Items db) (key db) (maxItems db0), None), w')) /\
  ((GetHardwareKey w').1 = Ok (key db) ->
   NewDatabase w'
   = (Ok (mkDatabase (Items db) (key db) DefaultMaxItems), w')).
Proof.
  intros Hsave Hread Hjson.
  destruct (saveInternal_None_world db w w' Hsave)
    as (Ha & Hm & _ & Ea & Em & Er & _ & _ & Hpano).
  destruct (saveInternal_None db w w' Hsave) as (b & e & Hb & Hfile & Hdec).
  assert (Hload : forall db0, key db0 = key db ->
            Load db0 w'
            = ((mkDatabase (Items db) (key db) (maxItems db0), None), w')).
  { intros db0 Hk.
    rewrite (Load_readable db0 w'); [|congruence..].
    rewrite Hfile, Hk, Hdec, (Hjson b Hb), Hpano. reflexivity. }
  split; [exact Hload|].
  intros Hkey. unfold NewDatabase. unfold mbind at 1, M_bind at 1.
  pose proof (GetHardwareKey_world w') as Hw.
  destruct (GetHardwareKey w') as [r w1]. cbn [fst snd] in *. subst.
  unfold mbind, M_bind, mret, M_ret.
  now rewrite (Hload (mkDatabase [] (key db) DefaultMaxItems) eq_refl).
Qed.

(** A disk that fails the write: when new content is submitted to a
    store with room, the key and the random source are good, the path
    resolves and the collection marshals, but os.WriteFile fails with an
    error e, AddItem returns "failed to write database" wrapping e and no
    advisory, and yet the store in memory holds the new item in front.
    The file is as it was when it could not be opened; when the fault was
    met after n bytes, the file holds the first n bytes of an envelope of
    the new collection and nothing of what it held before. *)
Theorem AddItem_write_failure (db : Database) (itemType : string)
    (content : list byte) (w : World) (e : error) :
  len content <= MaxItemSize ->
  list_find (sameContent (contentHashOf content) itemType) (Items db)
    = None ->
  countUnpinned (Items db) < maxItems db ->
  key_size_ok (key db) -> (24 <= length (entropy w))%nat ->
  appdata w <> EmptyString -> mkdir_fault w = None ->
  (forall items, exists b, json_Marshal items = Ok b) ->
  write_fault w = Some e ->
  let db' := (AddItem db itemType content w).1.1 in
  let w' := (AddItem db itemType content w).2 in
  (AddItem db itemType content w).1.2
    = Some (Wrapf "failed to write database" e) /\
  inserted db db' itemType content /\
  GetItemCount db' = GetItemCount db + 1 /\
  (write_reach w = None -> file w' = file w) /\
  (forall n, write_reach w = Some n ->
     exists b enc,
       json_Marshal (Items db') = Ok b /\
       Decrypt enc (key db) = Ok b /\
       file w' = torn n enc).
Proof.
  intros Hsize Hfind Hroom Hk Hent Ha Hm Hj Hwf db' w'.
  destruct (Encrypt_draws content (key db) w Hk ltac:(lia))
    as (enc & w1 & Henc & Hent1 & _
        & (Ea1 & _ & Em1 & _ & Ef1 & _ & Ew1 & Ewr1 & _)).
  pose proof (AddItem_insert db itemType content w w1 enc
                Hsize Hfind Hroom Henc) as Hadd.
  cbv zeta in Hadd. unfold db', w'. rewrite Hadd. clear Hadd.
  cbn [fst snd].
  set (item := mkItem _ _ _ _ _ _ _).
  set (d := mkDatabase (item :: Items db) (key db) (maxItems db)).
  set (w3 := (time.Now (time.Now w1).2).2).
  destruct (Hj (Items d)) as (b & Hb).
  destruct (Encrypt_draws b (key db) (with_Pano w3) Hk)
    as (enc2 & w4 & Henc2 & _ & _
        & (_ & _ & _ & _ & Ef4 & _ & Ew4 & Ewr4 & _)).
  { cbn. rewrite Hent1, length_drop. lia. }
  cbn in Ef4, Ew4, Ewr4.
  assert (Hs : saveInternal d w3
               = (Some (Wrapf "failed to write database" e),
                  match write_reach w with
                  | None => w4
                  | Some n => with_file w4 (torn n enc2)
                  end)).
  { unfold saveInternal. unfold mbind at 1, M_bind at 1.
    destruct (GetDatabasePath_ok w3) as (p & ->);
      [cbn; congruence..|].
    rewrite Hb. unfold mbind, M_bind. cbn [key d]. rewrite Henc2.
    unfold os.WriteFile, mret, M_ret.
    rewrite Ew4, Ew1, Hwf, Ewr4, Ewr1.
    now destruct (write_reach w). }
  rewrite Hs. cbn [fst snd].
  split; [reflexivity|]. split.
  { exists item. cbn. repeat split. eapply Decrypt_of_Encrypt, Henc. }
  split.
  { unfold GetItemCount, len. cbn [Items d length]. lia. }
  split.
  - intros ->. congruence.
  - intros n ->. exists b, enc2. split; [exact Hb|].
    split; [eapply Decrypt_of_Encrypt, Henc2|reflexivity].
Qed.
End persistence_more.

Section construction_more.
Context `{BlockPrims} `{StorePrims}.
Local Open Scope Z_scope.

Lemma GetHardwareKey_length (w : World) (k : list byte) :
  (GetHardwareKey w).1 = Ok k -> length k = 32%nat.
Proof.
  unfold GetHardwareKey. destruct (machine_id w); [|discriminate].
  unfold fst. intros Hk.
  apply (f_equal (fun r => match r with
                           | Ok x => length x
                           | Err _ => 32%nat
                           end)) in Hk.
  cbv beta iota zeta in Hk. now rewrite big_endian_length in Hk.
Qed.

Lemma Load_key (db : Database) (w : World) :
  key (Load db w).1.1 = key db /\ maxItems (Load db w).1.1 = maxItems db
  /\ (Load db w).2 = (GetDatabasePath w).2.
Proof.
  unfold Load, mbind, M_bind, mret, M_ret, os.ReadFile.
  destruct (GetDatabasePath w) as [[p|e] w1]; [|now cbn].
  destruct (read_fault w1); [now cbn|].
  destruct (file w1); [|now cbn].
  destruct (Decrypt _ _); [|now cbn].
  now destruct (json_Unmarshal _) as [items [e|]].
Qed.

(** NewDatabase reads, and makes the Pano directory.  Without a machine ID
    it fails with the doubly wrapped error and the world is as it was, and
    so it is without APPDATA; when the directory cannot be made it fails
    with that error, also when the cause says "does not exist", since the
    wrapped error is not a path error; once the path is resolved the Pano
    directory exists, whatever the load gives, and nothing else in the
    world has changed; a read error is fatal unless it says that the file
    does not exist, in which case the store is empty.  Every store it
    returns has the 32-byte hardware key, which the cipher accepts, and
    the default cap. *)
Theorem NewDatabase_outcomes (w : World) :
  (forall e, machine_id w = Err e ->
     NewDatabase w
     = (Err (Wrapf "failed to get hardware key"
               (Wrapf "failed to get machine ID" e)), w)) /\
  (forall k, (GetHardwareKey w).1 = Ok k ->
     (appdata w = EmptyString ->
      NewDatabase w
      = (Err (Errorf "APPDATA environment variable not set"), w)) /\
     (forall e, appdata w <> EmptyString -> mkdir_fault w = Some e ->
        NewDatabase w
        = (Err (Wrapf "failed to create Pano directory" e),
           with_dirs w (foldr os.made (dirs w) (mkdir_made w)))) /\
     (appdata w <> EmptyString -> mkdir_fault w = None ->
        (NewDatabase w).2 = with_Pano w /\
        filepath.Join (appdata w) "Pano" ∈ dirs (NewDatabase w).2) /\
     (forall e, appdata w <> EmptyString -> mkdir_fault w = None ->
        read_fault w = Some e ->
        (NewDatabase w).1
        = if os.IsNotExist e then Ok (mkDatabase [] k DefaultMaxItems)
          else Err e)) /\
  (forall db, (NewDatabase w).1 = Ok db ->
     (GetHardwareKey w).1 = Ok (key db) /\
     length (key db) = 32%nat /\ key_size_ok (key db) /\
     GetMaxItems db = DefaultMaxItems).
Proof.
  assert (Hnew : NewDatabase w =
            match (GetHardwareKey w).1 with
            | Err e => (Err (Wrapf "failed to get hardware key" e), w)
            | Ok k =>
                let '(db', err, w') :=
                  Load (mkDatabase [] k DefaultMaxItems) w in
                match err with
                | Some e => if negb (os.IsNotExist e) then (Err e, w')
                            else (Ok db', w')
                | None => (Ok db', w')
                end
            end).
  { unfold NewDatabase. unfold mbind at 1, M_bind at 1.
    pose proof (GetHardwareKey_world w) as Hw.
    destruct (GetHardwareKey w) as [[k|e] w1]; cbn [fst snd] in *; subst;
      [|reflexivity].
    unfold mbind, M_bind, mret, M_ret.
    destruct (Load _ w) as [[db' [e|]] w']; [|reflexivity].
    now destruct (negb _). }
  split; [|split].
  - intros e He. rewrite Hnew. unfold GetHardwareKey. now rewrite He.
  - intros k Hk. rewrite Hnew, Hk.
    split; [|split; [|split]].
    + intros Ha.
      unfold Load, GetDatabasePath, mbind, M_bind, mret, M_ret,
        os.Getenv_APPDATA, os.MkdirAll, os.ReadFile.
      destruct (decide (appdata w = EmptyString)) as [_|Hn];
        [|contradiction].
      reflexivity.
    + intros e Ha Hm.
      unfold Load, GetDatabasePath, mbind, M_bind, mret, M_ret,
        os.Getenv_APPDATA, os.MkdirAll, os.ReadFile.
      destruct (decide (appdata w = EmptyString)) as [|_];
        [contradiction|].
      now rewrite Hm.
    + intros Ha Hm.
      pose proof (Load_key (mkDatabase [] k DefaultMaxItems) w)
        as (_ & _ & Hw).
      destruct (GetDatabasePath_ok w Ha Hm) as (p & Hp).
      rewrite Hp in Hw. cbn [snd] in Hw.
      assert (Hworld : (let '(db', err, w') :=
                          Load (mkDatabase [] k DefaultMaxItems) w in
                        match err with
                        | Some e => if negb (os.IsNotExist e)
                                    then (Err e, w') else (Ok db', w')
                        | None => (Ok db', w')
                        end).2 = with_Pano w).
      { destruct (Load _ w) as [[db' [e|]] w']; cbn [snd] in Hw; subst;
          [|reflexivity].
        now destruct (negb _). }
      rewrite Hworld. split; [reflexivity|]. cbn. apply made_elem.
    + intros e Ha Hm Hr.
      unfold Load, GetDatabasePath, mbind, M_bind, mret, M_ret,
        os.Getenv_APPDATA, os.MkdirAll, os.ReadFile.
      destruct (decide (appdata w = EmptyString)) as [|_];
        [contradiction|].
      rewrite Hm. cbn. rewrite Hr. now destruct (os.IsNotExist e).
  - intros db Hdb. rewrite Hnew in Hdb.
    destruct (GetHardwareKey w).1 as [k|e] eqn:Hk; [|discriminate].
    pose proof (Load_key (mkDatabase [] k DefaultMaxItems) w)
      as (Hkey & Hmax & _).
    assert (Hdb' : db = (Load (mkDatabase [] k DefaultMaxItems) w).1.1).
    { destruct (Load _ w) as [[db' [e|]] w']; cbn [fst] in *;
        [destruct (negb _)|]; cbn in Hdb; congruence. }
    subst db. cbn [key maxItems] in Hkey, Hmax.
    rewrite Hkey. unfold GetMaxItems. rewrite Hmax.
    pose proof (GetHardwareKey_length w k Hk) as Hlen.
    split; [reflexivity|]. split; [exact Hlen|].
    split; [right; right; exact Hlen|reflexivity].
Qed.

Lemma Sprintf_x_length (b : list byte) :
  String.length (fmt.Sprintf_x b) = (2 * length b)%nat.
Proof. induction b as [|x b IH]; cbn; [reflexivity|]. rewrite IH. lia. Qed.

Lemma Sprintf_x_app (a b : list byte) :
  fmt.Sprintf_x (a ++ b) = fmt.Sprintf_x a +:+ fmt.Sprintf_x b.
Proof. induction a as [|x a IH]; cbn; [reflexivity|]. now rewrite IH. Qed.

Lemma hex_digit_in (n : N) :
  In (fmt.hex_digit n) (list_ascii_of_string "0123456789abcdef").
Proof.
  unfold fmt.hex_digit.
  destruct (Nat.lt_ge_cases (N.to_nat n) 16) as [Hlt|Hge].
  - apply nth_In. exact Hlt.
  - rewrite nth_overflow by exact Hge. cbn. auto.
Qed.

Lemma Sprintf_x_hex (b : list byte) :
  Forall (fun c => In c (list_ascii_of_string "0123456789abcdef"))
         (list_ascii_of_string (fmt.Sprintf_x b)).
Proof.
  induction b as [|x b IH]; [constructor|].
  cbn [fmt.Sprintf_x list_ascii_of_string].
  constructor; [apply hex_digit_in|].
  constructor; [apply hex_digit_in|exact IH].
Qed.

(** GetKeyFingerprint passes the error of GetHardwareKey on as it is, and
    otherwise returns eight lowercase hexadecimal digits: the first eight
    of the 64 digits the whole key prints as.  It leaves the world as it
    is. *)
Theorem GetKeyFingerprint_prefix (w : World) :
  (GetKeyFingerprint w).2 = w /\
  (forall e, (GetHardwareKey w).1 = Err e ->
     (GetKeyFingerprint w).1 = Err e) /\
  (forall k, (GetHardwareKey w).1 = Ok k ->
     exists f,
       (GetKeyFingerprint w).1 = Ok f /\
       String.length f = 8%nat /\
       fmt.Sprintf_x k = f +:+ fmt.Sprintf_x (drop 4 k) /\
       String.length (fmt.Sprintf_x k) = 64%nat /\
       Forall (fun c => In c (list_ascii_of_string "0123456789abcdef"))
              (list_ascii_of_string f)).
Proof.
  unfold GetKeyFingerprint, mbind, M_bind, mret, M_ret.
  pose proof (GetHardwareKey_world w) as Hw.
  pose proof (GetHardwareKey_length w) as Hlen.
  destruct (GetHardwareKey w) as [[k|e] w1]; cbn [fst snd] in *; subst w1.
  - split; [reflexivity|]. split; [discriminate|].
    intros k' [= <-]. specialize (Hlen k eq_refl).
    exists (fmt.Sprintf_x (take 4 k)). split; [reflexivity|].
    split; [rewrite Sprintf_x_length, length_take; lia|].
    split; [now rewrite <- Sprintf_x_app, take_drop|].
    split; [rewrite Sprintf_x_length; lia|apply Sprintf_x_hex].
  - split; [reflexivity|]. split; [now intros e' [= <-]|discriminate].
Qed.
End construction_more.

(** * The clipboard monitor *)

Section scanning.

Lemma uint_string_digits (d : Decimal.uint) :
  scan.scanNumber (NilEmpty.string_of_uint d) = NilEmpty.string_of_uint d.
Proof.
  induction d; cbn [NilEmpty.string_of_uint scan.scanNumber];
    [reflexivity|..]; rewrite IHd; reflexivity.
Qed.

Lemma scanInt_digits (s : string) (d : Decimal.uint) (negative : bool) :
  scan.scanNumber s = s -> NilZero.uint_of_string s = Some d ->
  int_range (if negative then - Z.of_uint d else Z.of_uint d) ->
  scan.scanInt (if negative then String "-" s else s)
  = Some (if negative then - Z.of_uint d else Z.of_uint d).
Proof.
  intros Hs Hu Hr.
  assert (Hsign : scan.scanInt (if negative then String "-" s else s)
            = match NilZero.uint_of_string (scan.scanNumber s) with
              | None => None
              | Some d =>
                  let i := if negative then - Z.of_uint d
                           else Z.of_uint d in
                  if decide (int_range i) then Some i else None
              end).
  { destruct negative; [reflexivity|].
    destruct s as [|c rest]; [discriminate|].
    cbn [scan.scanNumber] in Hs.
    destruct (scan.isDigit c) eqn:Hc; [clear Hs|discriminate].
    unfold scan.scanInt, scan.SkipSpace.
    destruct c as [[] [] [] [] [] [] [] []]; try discriminate Hc;
      reflexivity. }
  rewrite Hsign, Hs, Hu. cbv zeta.
  destruct (decide _); [reflexivity|contradiction].
Qed.

Lemma scanInt_uint (d : Decimal.uint) :
  d <> Decimal.Nil -> int_range (Z.of_uint d) ->
  scan.scanInt (NilZero.string_of_uint d) = Some (Z.of_uint d).
Proof.
  intros Hd Hr.
  apply (scanInt_digits (NilZero.string_of_uint d) d false);
    [|now apply NilZero.usu|exact Hr].
  destruct d; [contradiction|apply (uint_string_digits (_ d))..].
Qed.

Lemma scanInt_neg_uint (d : Decimal.uint) :
  d <> Decimal.Nil -> int_range (- Z.of_uint d) ->
  scan.scanInt (String "-" (NilZero.string_of_uint d))
  = Some (- Z.of_uint d).
Proof.
  intros Hd Hr.
  apply (scanInt_digits (NilZero.string_of_uint d) d true);
    [|now apply NilZero.usu|exact Hr].
  destruct d; [contradiction|apply (uint_string_digits (_ d))..].
Qed.

(** %d reads back what %d printed. *)
Lemma scanInt_Sprintf_d (n : Z) :
  int_range n -> scan.scanInt (Sprintf_d n) = Some n.
Proof.
  intros Hr. unfold Sprintf_d.
  pose proof (DecimalZ.of_to n) as Hn.
  destruct n as [|p|p]; cbn [Z.to_int NilZero.string_of_int] in *.
  - reflexivity.
  - cbn [Z.of_int] in Hn. rewrite <- Hn. apply scanInt_uint.
    + apply DecimalPos.Unsigned.to_uint_nonnil.
    + now rewrite Hn.
  - cbn [Z.of_int] in Hn. rewrite <- Hn. apply scanInt_neg_uint.
    + apply DecimalPos.Unsigned.to_uint_nonnil.
    + now rewrite Hn.
Qed.

Lemma Sscanf_LIMIT_WARN (n : Z) :
  int_range n ->
  scan.Sscanf_d ("LIMIT_WARN:" +:+ Sprintf_d n) "LIMIT_WARN:" = Some n.
Proof. intros Hr. cbn -[scan.scanInt]. now apply scanInt_Sprintf_d. Qed.
End scanning.

Section monitor_facts.
Context `{BlockPrims} `{StorePrims} `{ErrorTexts}.
Local Open Scope Z_scope.

(** The two tests handleText makes on the text of an error. *)
Local Abbreviation starts_with errStr prefix :=
  (andb (Nat.leb 10 (String.length errStr))
        (String.eqb (substring 0 10 errStr) prefix)).

(** None of the errors of a save reads as an advisory. *)
Lemma saveInternal_error_text (db : Database) (w w' : World) (e : error) :
  saveInternal db w = (Some e, w') ->
  starts_with (Error e) "LIMIT_FULL" = false /\
  starts_with (Error e) "LIMIT_WARN" = false.
Proof.
  unfold saveInternal, GetDatabasePath, mbind, M_bind, mret, M_ret,
    os.Getenv_APPDATA, os.MkdirAll, os.WriteFile.
  destruct (decide (appdata w = EmptyString)); [now intros [= <- _]|].
  destruct (mkdir_fault w); [now intros [= <- _]|].
  destruct (json_Marshal (Items db)); [|now intros [= <- _]].
  destruct (Encrypt _ (key db) _) as [[enc|e1] w2]; [|now intros [= <- _]].
  destruct (write_fault w2); [|discriminate].
  destruct (write_reach w2); now intros [= <- _].
Qed.

(** What AddItem can return, as handleText reads it. *)
Lemma AddItem_error_text (db : Database) (itemType : string)
    (content : list byte) (w : World) (e : error) :
  (AddItem db itemType content w).1.2 = Some e ->
  e = LIMIT_FULL
  \/ (exists n, 0 <= n <= 10 /\ e = LIMIT_WARN n)
  \/ (starts_with (Error e) "LIMIT_FULL" = false /\
      starts_with (Error e) "LIMIT_WARN" = false).
Proof.
  destruct (decide (len content > MaxItemSize)) as [Hbig|Hsize].
  { unfold AddItem. destruct (decide _) as [_|]; [|lia].
    intros [= <-]. right; right. now split. }
  assert (Hsize' : len content <= MaxItemSize) by lia.
  destruct (list_find (sameContent (contentHashOf content) itemType)
              (Items db)) as [[i existing]|] eqn:Hfind.
  { pose proof (AddItem_duplicate db itemType content w i existing
                  Hsize' Hfind) as Hadd.
    cbv zeta in Hadd. rewrite Hadd. cbn [fst snd]. intros He.
    right; right.
    destruct (saveInternal _ _) as [r w'] eqn:Hs. cbn [fst] in He. subst r.
    apply (saveInternal_error_text _ _ _ _ Hs). }
  destruct (decide (countUnpinned (Items db) >= maxItems db)) as [Hfull|Hroom].
  { rewrite (AddItem_full db itemType content w Hsize' Hfind Hfull).
    intros [= <-]. now left. }
  assert (Hroom' : countUnpinned (Items db) < maxItems db) by lia.
  destruct (Encrypt content (key db) w) as [[enc|e1] w1] eqn:Henc.
  - pose proof (AddItem_insert db itemType content w w1 enc
                  Hsize' Hfind Hroom' Henc) as Hadd.
    cbv zeta in Hadd. rewrite Hadd. cbn [fst snd].
    destruct (saveInternal _ _) as [[e2|] w'] eqn:Hs; cbn [fst].
    + intros [= <-]. right; right.
      apply (saveInternal_error_text _ _ _ _ Hs).
    + destruct (bool_decide (_ <= 10)) eqn:H10; [|discriminate].
      destruct (bool_decide (_ >= 0)) eqn:H00; [|discriminate].
      apply bool_decide_eq_true in H10, H00.
      intros [= <-]. right; left. eexists. split; [|reflexivity]. lia.
  - rewrite (AddItem_encrypt_failure db itemType content w w1 e1
               Hsize' Hfind Hroom' Henc).
    intros [= <-]. right; right. now split.
Qed.

Lemma LIMIT_WARN_text (n : Z) :
  starts_with (Error (LIMIT_WARN n)) "LIMIT_FULL" = false /\
  starts_with (Error (LIMIT_WARN n)) "LIMIT_WARN" = true.
Proof. now split. Qed.

(** A text is handled once.  Whatever comes of AddItem, also a refusal
    because the store is full or a failure, handleText has recorded the
    digest of the text before it calls AddItem, leaves the image digest
    and the callbacks alone, and from then on ignores the same text, in
    any state of the store and of the world, until another text has been
    handled. *)
Theorem handleText_once (m : clipboard.Monitor) (text : string)
    (w : World) :
  let m' := (clipboard.handleText m text w).1.1 in
  clipboard.lastTextHash m'
  = bytes.big_endian 32 (sha256_Sum256 (list_byte_of_string text)) /\
  clipboard.lastImageHash m' = clipboard.lastImageHash m /\
  clipboard.onChange m' = clipboard.onChange m /\
  clipboard.onLimitWarn m' = clipboard.onLimitWarn m /\
  clipboard.running m' = clipboard.running m /\
  forall m2 w2,
    clipboard.lastTextHash m2 = clipboard.lastTextHash m' ->
    clipboard.handleText m2 text w2 = ((m2, []), w2).
Proof.
  intros m'.
  assert (Hm' : clipboard.lastTextHash m'
                = bytes.big_endian 32
                    (sha256_Sum256 (list_byte_of_string text)) /\
                clipboard.lastImageHash m' = clipboard.lastImageHash m /\
                clipboard.onChange m' = clipboard.onChange m /\
                clipboard.onLimitWarn m' = clipboard.onLimitWarn m /\
                clipboard.running m' = clipboard.running m).
  { unfold m', clipboard.handleText.
    destruct (bool_decide _) eqn:Hsame.
    - apply bool_decide_eq_true in Hsame. now cbn.
    - unfold mbind, M_bind, mret, M_ret.
      cbn [clipboard.db clipboard.lastTextHash clipboard.lastImageHash
           clipboard.running clipboard.onChange clipboard.onLimitWarn].
      destruct (AddItem _ _ _ w) as [[d [e|]] w1]; [|now cbn].
      destruct (_ && _); [now cbn|].
      destruct (_ && _); now cbn. }
  destruct Hm' as (Hhash & Hrest). split; [exact Hhash|].
  repeat (split; [apply Hrest|]).
  intros m2 w2 H2. unfold clipboard.handleText.
  rewrite H2, Hhash. now rewrite bool_decide_eq_true_2.
Qed.

(** What handleText reports for a text that differs from the last one.
    The store and the world are those AddItem leaves.  The calls follow
    from what AddItem returns: no error, the change callback; the refusal
    LIMIT_FULL, the limit callback with 0 and no change callback; the
    advisory LIMIT_WARN:n, the limit callback with that same n and then
    the change callback; any other error, nothing.  A callback that is
    not set is left out.  So a new text that meets a full store makes
    the limit callback run with 0 and is not stored. *)
Theorem handleText_reports (m : clipboard.Monitor) (text : string)
    (w : World) :
  let content := list_byte_of_string text in
  bytes.big_endian 32 (sha256_Sum256 content) <> clipboard.lastTextHash m ->
  let r := AddItem (clipboard.db m) "text" content w in
  let out := clipboard.handleText m text w in
  let change := if clipboard.onChange m
                then [clipboard.changeCallback "text" content] else [] in
  let limit n := if clipboard.onLimitWarn m
                 then [clipboard.limitCallback n] else [] in
  clipboard.db out.1.1 = r.1.1 /\ out.2 = r.2 /\
  (r.1.2 = None -> out.1.2 = change) /\
  (r.1.2 = Some LIMIT_FULL -> out.1.2 = limit 0) /\
  (forall n, int_range n -> r.1.2 = Some (LIMIT_WARN n) ->
             out.1.2 = limit n ++ change) /\
  (forall e, r.1.2 = Some e -> e <> LIMIT_FULL ->
             (forall n, e <> LIMIT_WARN n) -> out.1.2 = []) /\
  (len content <= MaxItemSize ->
   list_find (sameContent (contentHashOf content) "text")
             (Items (clipboard.db m)) = None ->
   countUnpinned (Items (clipboard.db m)) >= maxItems (clipboard.db m) ->
   out.1.2 = limit 0 /\ clipboard.db out.1.1 = clipboard.db m).
Proof.
  intros content Hnew r out change limit.
  pose proof (AddItem_error_text (clipboard.db m) "text" content w) as Hforms.
  assert (Hout : out = clipboard.handleText m text w) by reflexivity.
  unfold clipboard.handleText in Hout. fold content in Hout.
  rewrite bool_decide_eq_false_2 in Hout by exact Hnew.
  unfold mbind, M_bind, mret, M_ret in Hout.
  cbn [clipboard.db clipboard.lastTextHash clipboard.lastImageHash
       clipboard.running clipboard.onChange clipboard.onLimitWarn] in Hout.
  fold r in Hout, Hforms. fold change in Hout.
  assert (Hfull : r.1.2 = Some LIMIT_FULL -> out.1.2 = limit 0).
  { destruct r as [[d err] w1]. cbn [fst snd]. intros ->.
    rewrite Hout. reflexivity. }
  destruct r as [[d err] w1] eqn:Hr. cbn [fst snd] in *.
  split; [|split; [|split; [|split; [exact Hfull|split; [|split]]]]].
  - rewrite Hout. destruct err as [e|]; [|reflexivity].
    destruct (_ && _); [reflexivity|]. now destruct (_ && _).
  - rewrite Hout. destruct err as [e|]; [|reflexivity].
    destruct (_ && _); [reflexivity|]. now destruct (_ && _).
  - intros ->. now rewrite Hout.
  - intros n Hn ->. rewrite Hout.
    destruct (LIMIT_WARN_text n) as [-> ->].
    change (Error (LIMIT_WARN n)) with ("LIMIT_WARN:" +:+ Sprintf_d n).
    now rewrite (Sscanf_LIMIT_WARN n Hn).
  - intros e -> Hnf Hnw. rewrite Hout.
    destruct (Hforms e eq_refl) as [->|[(n & _ & ->)|[-> ->]]].
    + now elim Hnf.
    + now elim (Hnw n).
    + reflexivity.
  - intros Hsize Hfind Hfl.
    pose proof (AddItem_full (clipboard.db m) "text" content w
                  Hsize Hfind Hfl) as Hadd.
    fold content in Hadd. fold r in Hadd. rewrite Hr in Hadd.
    injection Hadd as -> -> ->.
    split; [now apply Hfull|]. now rewrite Hout.
Qed.
End monitor_facts.

(** * The global hotkey *)

Section hotkey_facts.

Lemma isVKey_no_modifier (rawcode : Z) :
  system.isVKey rawcode = true ->
  system.isCtrlKey rawcode = false /\ system.isShiftKey rawcode = false.
Proof.
  unfold system.isVKey, system.isCtrlKey, system.isShiftKey.
  intros [->%bool_decide_eq_true| ->%bool_decide_eq_true]%orb_true_iff;
    now split.
Qed.

Lemma held_cons (isKey : Z -> bool) (e : system.Event)
    (evs : list system.Event) :
  system.held isKey (e :: evs) <->
  system.held isKey evs
  \/ (system.Kind e = system.KeyDown /\ isKey (system.Rawcode e) = true /\
      Forall (fun e' => ~ (system.Kind e' = system.KeyUp
                           /\ isKey (system.Rawcode e') = true)) evs).
Proof.
  split.
  - intros (before & x & after & Heq & Hk & Hkey & Hno).
    destruct before as [|b before]; cbn in Heq.
    + injection Heq as <- <-. right. auto.
    + injection Heq as <- ->. left. exists before, x, after. auto.
  - intros [(before & x & after & -> & Hk & Hkey & Hno)|(Hk & Hkey & Hno)].
    + exists (e :: before), x, after. auto.
    + exists [], e, evs. auto.
Qed.

Lemma held_nil (isKey : Z -> bool) : ~ system.held isKey [].
Proof. intros (before & x & after & Heq & _). now destruct before. Qed.

(** The flag is set exactly when a key of the family is held, or the
    flag was set before and no key of the family has been released. *)
Lemma pressed_held (isKey : Z -> bool) (evs : list system.Event)
    (before : bool) :
  system.pressed isKey before evs = true <->
  system.held isKey evs
  \/ (before = true /\
      Forall (fun e' => ~ (system.Kind e' = system.KeyUp
                           /\ isKey (system.Rawcode e') = true)) evs).
Proof.
  revert before. induction evs as [|e evs IH]; intros before.
  - cbn. split.
    + intros ->. right. auto.
    + intros [[]%held_nil|[-> _]]. reflexivity.
  - change (system.pressed isKey before (e :: evs))
      with (system.pressed isKey
              (match system.Kind e with
               | system.KeyDown =>
                   if isKey (system.Rawcode e) then true else before
               | system.KeyUp =>
                   if isKey (system.Rawcode e) then false else before
               | system.OtherKind => before
               end) evs).
    rewrite IH, held_cons, Forall_cons.
    destruct (system.Kind e) eqn:Hk, (isKey (system.Rawcode e)) eqn:Hkey;
      intuition (try discriminate; try congruence).
Qed.

Lemma listen_lookup (ticks : list system.Tick) (i : nat) (t : system.Tick)
    (c s : bool) :
  Forall (fun t => system.running t = true) (take (S i) ticks) ->
  ticks !! i = Some t ->
  system.listen c s ticks !! i
  = Some (match system.Kind (system.ev t) with
          | system.KeyDown =>
              system.isVKey (system.Rawcode (system.ev t))
              && system.pressed system.isCtrlKey c
                   (system.ev <$> take i ticks)
              && system.pressed system.isShiftKey s
                   (system.ev <$> take i ticks)
              && system.callback t
          | _ => false
          end).
Proof.
  revert i c s. induction ticks as [|t0 ticks IH]; intros i c s Hrun Hi;
    [discriminate|].
  cbn [take] in Hrun. apply Forall_cons in Hrun as [Hr0 Hrun].
  cbn [system.listen]. rewrite Hr0. cbn [negb].
  destruct i as [|i].
  - injection Hi as ->. cbn [take fmap list_fmap system.pressed fold_left].
    destruct (system.Kind (system.ev t)) eqn:Hk; cbn [lookup list_lookup];
      try reflexivity.
    destruct (system.isVKey _) eqn:Hv; [|reflexivity].
    destruct (isVKey_no_modifier _ Hv) as [-> ->]. cbn [andb].
    now destruct c, s, (system.callback t).
  - cbn [lookup list_lookup] in Hi.
    change (take (S i) (t0 :: ticks)) with (t0 :: take i ticks).
    change (system.ev <$> t0 :: take i ticks)
      with (system.ev t0 :: (system.ev <$> take i ticks)).
    destruct (system.Kind (system.ev t0)) eqn:Hk0;
      cbn [lookup list_lookup]; rewrite (IH i _ _ Hrun Hi);
      unfold system.pressed; cbn [fold_left]; rewrite Hk0; reflexivity.
Qed.

Lemma listen_stops (ticks : list system.Tick) (i : nat) (t : system.Tick)
    (c s : bool) :
  ticks !! i = Some t -> system.running t = false ->
  (length (system.listen c s ticks) <= i)%nat.
Proof.
  revert i c s. induction ticks as [|t0 ticks IH]; intros i c s Hi Hr;
    [discriminate|].
  cbn [system.listen].
  destruct (system.running t0) eqn:Hr0; cbn [negb]; [|cbn; lia].
  destruct i as [|i]; [injection Hi as ->; congruence|].
  cbn [lookup list_lookup] in Hi.
  destruct (system.Kind (system.ev t0)); cbn [length];
    apply -> Nat.succ_le_mono; eapply IH; eassumption.
Qed.

(** When the hotkey fires.  While the listener runs, the callback is
    launched at an event exactly when the event is a key-down of the V
    key, a callback is set, and before it a Ctrl key went down with no
    Ctrl key released since, and likewise a Shift key: which Ctrl or
    Shift key does not matter, so releasing one of two Ctrl keys held
    together clears the flag.  From the first event at which the
    listener finds itself stopped, nothing is handled any more. *)
Theorem hotkey_fires (ticks : list system.Tick) (i : nat)
    (t : system.Tick) :
  ticks !! i = Some t ->
  (Forall (fun t => system.running t = true) (take (S i) ticks) ->
   (system.listenForHotkey ticks !! i = Some true <->
    system.Kind (system.ev t) = system.KeyDown /\
    system.isVKey (system.Rawcode (system.ev t)) = true /\
    system.callback t = true /\
    system.held system.isCtrlKey (system.ev <$> take i ticks) /\
    system.held system.isShiftKey (system.ev <$> take i ticks))) /\
  (system.running t = false ->
   forall j, (i <= j)%nat -> system.listenForHotkey ticks !! j = None).
Proof.
  intros Hi. split.
  - intros Hrun. unfold system.listenForHotkey.
    rewrite (listen_lookup ticks i t false false Hrun Hi).
    pose proof (pressed_held system.isCtrlKey
                  (system.ev <$> take i ticks) false) as Hc.
    pose proof (pressed_held system.isShiftKey
                  (system.ev <$> take i ticks) false) as Hs.
    destruct (system.Kind (system.ev t)).
    + split.
      * intros [= Hall].
        apply andb_true_iff in Hall as [Hall Hcb].
        apply andb_true_iff in Hall as [Hall Hsh].
        apply andb_true_iff in Hall as [Hv Hct].
        apply Hc in Hct as [Hct|[[=] _]].
        apply Hs in Hsh as [Hsh|[[=] _]]. auto.
      * intros (_ & -> & -> & Hct & Hsh).
        rewrite (proj2 Hc (or_introl Hct)), (proj2 Hs (or_introl Hsh)).
        reflexivity.
    + split; [discriminate|now intros ([=] & _)].
    + split; [discriminate|now intros ([=] & _)].
  - intros Hr j Hj. apply lookup_ge_None.
    pose proof (listen_stops ticks i t false false Hi Hr).
    unfold system.listenForHotkey. lia.
Qed.
End hotkey_facts.


(** * Images as device independent bitmaps *)

Section loops.
Local Open Scope Z_scope.

Lemma int64_small (z : Z) : int_range z -> int64 z = z.
Proof. unfold int_range, int64. intros Hr. rewrite Z.mod_small; lia. Qed.

Lemma int32_small (z : Z) :
  -2147483648 <= z < 2147483648 -> int32 z = z.
Proof. unfold int32. intros Hr. rewrite Z.mod_small; lia. Qed.

Lemma uint32_small (z : Z) : 0 <= z < 4294967296 -> uint32 z = z.
Proof. unfold uint32. intros Hr. now rewrite Z.mod_small. Qed.

(** A loop whose body keeps an invariant does not panic and ends in the
    invariant. *)
Lemma for_loop_inv {St : Type} (P : Z -> St -> Prop)
    (body : Z -> St -> option St) (n : nat) (i : Z) (s : St) :
  P i s ->
  (forall j t, i <= j < i + Z.of_nat n -> P j t ->
     exists t', body j t = Some t' /\ P (j + 1) t') ->
  exists s', for_loop n i body s = Some s' /\ P (i + Z.of_nat n) s'.
Proof.
  revert i s. induction n as [|n IH]; intros i s Hs Hstep.
  - exists s. split; [reflexivity|]. now replace (i + Z.of_nat 0) with i by lia.
  - cbn [for_loop].
    destruct (Hstep i s ltac:(lia) Hs) as (t & -> & Ht).
    destruct (IH (i + 1) t Ht) as (s' & Hs' & Hend).
    { intros j u Hj. apply Hstep. lia. }
    exists s'. split; [exact Hs'|].
    now replace (i + Z.of_nat (S n)) with (i + 1 + Z.of_nat n) by lia.
Qed.

(** Four bytes written at i .. i+3. *)
Lemma quad_lookup (l : list byte) (i : Z) (v0 v1 v2 v3 : byte) :
  0 <= i -> i + 4 <= len l ->
  let l' := <[Z.to_nat (i + 3) := v3]>
              (<[Z.to_nat (i + 2) := v2]>
                 (<[Z.to_nat (i + 1) := v1]> (<[Z.to_nat i := v0]> l))) in
  len l' = len l /\
  l' !! Z.to_nat i = Some v0 /\ l' !! Z.to_nat (i + 1) = Some v1 /\
  l' !! Z.to_nat (i + 2) = Some v2 /\ l' !! Z.to_nat (i + 3) = Some v3 /\
  forall j, 0 <= j -> j < i \/ i + 4 <= j ->
            l' !! Z.to_nat j = l !! Z.to_nat j.
Proof.
  intros Hi Hlen l'. subst l'. unfold len in *.
  repeat split.
  - now rewrite !length_insert.
  - rewrite !list_lookup_insert_ne by lia.
    apply list_lookup_insert_eq. lia.
  - rewrite !list_lookup_insert_ne by lia.
    apply list_lookup_insert_eq. rewrite !length_insert. lia.
  - rewrite !list_lookup_insert_ne by lia.
    apply list_lookup_insert_eq. rewrite !length_insert. lia.
  - apply list_lookup_insert_eq. rewrite !length_insert. lia.
  - intros j Hj Hout. now rewrite !list_lookup_insert_ne by lia.
Qed.

(** Two nested loops that write the four bytes of each cell of a grid of
    rows of 4 * W bytes, the row of y being [row y], fill the grid. *)
Lemma grid_fill {St : Type} (pix : St -> list byte) (I : St -> Prop)
    (W Hh : Z) (row : Z -> Z) (val : Z -> Z -> Z -> byte)
    (body : Z -> Z -> St -> option St) (s0 : St) :
  0 < W -> 0 < Hh -> I s0 -> len (pix s0) = 4 * W * Hh ->
  (forall y y', 0 <= y < Hh -> 0 <= y' < Hh -> row y = row y' -> y = y') ->
  (forall y, 0 <= y < Hh -> 0 <= row y < Hh) ->
  (forall x y s, 0 <= x < W -> 0 <= y < Hh -> I s ->
     len (pix s) = 4 * W * Hh ->
     exists s', body y x s = Some s' /\ I s' /\
       len (pix s') = 4 * W * Hh /\
       (forall k, 0 <= k < 4 ->
          pix s' !! Z.to_nat (row y * (4 * W) + 4 * x + k)
          = Some (val x y k)) /\
       (forall j, 0 <= j ->
          j < row y * (4 * W) + 4 * x \/ row y * (4 * W) + 4 * x + 4 <= j ->
          pix s' !! Z.to_nat j = pix s !! Z.to_nat j)) ->
  exists s',
    for_loop (Z.to_nat Hh) 0
      (fun y s => for_loop (Z.to_nat W) 0 (body y) s) s0 = Some s' /\
    I s' /\ len (pix s') = 4 * W * Hh /\
    forall x y k, 0 <= x < W -> 0 <= y < Hh -> 0 <= k < 4 ->
      pix s' !! Z.to_nat (row y * (4 * W) + 4 * x + k) = Some (val x y k).
Proof.
  intros HW HH HI Hlen Hinj Hrow Hbody.
  set (done_rows := fun (y : Z) (s : St) =>
         forall x y' k, 0 <= x < W -> 0 <= y' < y -> 0 <= k < 4 ->
           pix s !! Z.to_nat (row y' * (4 * W) + 4 * x + k)
           = Some (val x y' k)).
  destruct (for_loop_inv
              (fun y s => I s /\ len (pix s) = 4 * W * Hh /\ done_rows y s)
              (fun y s => for_loop (Z.to_nat W) 0 (body y) s)
              (Z.to_nat Hh) 0 s0) as (s' & Hs' & HIs' & Hlen' & Hdone).
  { split; [exact HI|]. split; [exact Hlen|]. intros x y' k _ Hy'. lia. }
  { intros y s Hy (HIs & Hlens & Hrows).
    destruct (for_loop_inv
                (fun x t => I t /\ len (pix t) = 4 * W * Hh /\
                            done_rows y t /\
                            forall x' k, 0 <= x' < x -> 0 <= k < 4 ->
                              pix t !! Z.to_nat (row y * (4 * W) + 4 * x' + k)
                              = Some (val x' y k))
                (body y) (Z.to_nat W) 0 s)
      as (t & Ht & HIt & Hlent & Hrowst & Hcells).
    { split; [exact HIs|]. split; [exact Hlens|]. split; [exact Hrows|].
      intros x' k Hx'. lia. }
    { intros x t Hx (HIt & Hlent & Hrowst & Hcells).
      destruct (Hbody x y t ltac:(lia) ltac:(lia) HIt Hlent)
        as (t' & Hb & HIt' & Hlent' & Hnew & Hold).
      exists t'. split; [exact Hb|]. split; [exact HIt'|].
      split; [exact Hlent'|].
      pose proof (Hrow y ltac:(lia)) as Hry.
      split.
      - intros x' y' k Hx' Hy' Hk.
        pose proof (Hrow y' ltac:(lia)) as Hry'.
        rewrite Hold; [now apply Hrowst| nia |].
        assert (Hne : row y' <> row y).
        { intros Heq. apply Hinj in Heq; lia. }
        destruct (Z.lt_ge_cases (row y') (row y)); [left|right]; nia.
      - intros x' k Hx' Hk.
        destruct (Z.eq_dec x' x) as [->|Hne]; [now apply Hnew|].
        rewrite Hold; [apply Hcells; lia| nia |]. left. nia. }
    exists t. split; [exact Ht|]. split; [exact HIt|].
    split; [exact Hlent|].
    intros x y' k Hx Hy' Hk.
    destruct (Z.eq_dec y' y) as [->|Hne].
    - apply Hcells; lia.
    - apply Hrowst; lia. }
  exists s'. split; [exact Hs'|]. split; [exact HIs'|].
  split; [exact Hlen'|].
  intros x y k Hx Hy Hk. apply Hdone; lia.
Qed.
End loops.

Section dib_facts.
Context `{Heap}.
Local Open Scope Z_scope.

Lemma store_quad (l : list byte) (i : Z) (v0 v1 v2 v3 : byte) :
  0 <= i -> i + 4 <= len l -> int_range (i + 3) ->
  (l1 ← store l i v0;
   l2 ← store l1 (int64 (i + 1)) v1;
   l3 ← store l2 (int64 (i + 2)) v2;
   store l3 (int64 (i + 3)) v3)
  = Some (<[Z.to_nat (i + 3) := v3]>
            (<[Z.to_nat (i + 2) := v2]>
               (<[Z.to_nat (i + 1) := v1]> (<[Z.to_nat i := v0]> l)))).
Proof.
  intros Hi Hlen Hr. unfold int_range in Hr.
  rewrite !int64_small by (unfold int_range; lia).
  unfold store, len in *.
  destruct (decide _) as [_|Hn]; [|lia]. cbn [mbind option_bind].
  rewrite !length_insert.
  destruct (decide _) as [_|Hn]; [|lia]. cbn [mbind option_bind].
  rewrite !length_insert.
  destruct (decide _) as [_|Hn]; [|lia]. cbn [mbind option_bind].
  rewrite !length_insert.
  destruct (decide _) as [_|Hn]; [|lia]. reflexivity.
Qed.

(** What imageToDIB writes for an image the header can describe: the
    header, and the pixel rows bottom-up, each pixel as blue, green, red,
    alpha. *)
Lemma imageToDIB_pixels (img : image.Image) :
  dib.describable img ->
  let W := image.Max_X (image.Bounds img) - image.Min_X (image.Bounds img) in
  let Hh := image.Max_Y (image.Bounds img) - image.Min_Y (image.Bounds img) in
  exists pixelData,
    dib.imageToDIB img
    = Returns (dib.binary_Write
                 (dib.mkHeader 40 W Hh 1 32 0 (4 * W * Hh) 0 0 0 0)
               ++ pixelData) /\
    len pixelData = 4 * W * Hh /\
    forall x y k, 0 <= x < W -> 0 <= y < Hh -> 0 <= k < 4 ->
      pixelData !! Z.to_nat ((Hh - 1 - y) * (4 * W) + 4 * x + k)
      = Some (dib.bgra (dib.pixel8 img x y) k).
Proof.
  intros (HminX & HmaxX & HminY & HmaxY & HW & HH & Hsize) W Hh.
  fold W in HW, Hsize. fold Hh in HH, Hsize.
  unfold int_range in *.
  assert (HWH : W <= W * Hh) by nia.
  assert (HHW : Hh <= W * Hh) by nia.
  unfold dib.imageToDIB, image.Dx, image.Dy. fold W Hh.
  rewrite (int64_small W), (int64_small Hh) by (unfold int_range; lia).
  destruct (decide (W <= 0 \/ Hh <= 0)) as [|_]; [lia|].
  rewrite (int64_small (W * 4)) by (unfold int_range; lia).
  rewrite (int64_small (W * 4 + 3)) by (unfold int_range; lia).
  assert (Hq : Z.quot (W * 4 + 3) 4 = W).
  { symmetry. apply (Z.quot_unique _ _ _ 3); lia. }
  rewrite Hq.
  rewrite (int64_small (W * 4)) by (unfold int_range; lia).
  rewrite (int64_small (W * 4 * Hh)) by (unfold int_range; lia).
  rewrite (int32_small W), (int32_small Hh) by lia.
  rewrite uint32_small by lia.
  replace (W * 4 * Hh) with (4 * W * Hh) by lia.
  destruct (decide (4 * W * Hh < 0)) as [|_]; [lia|].
  set (body := fun (y x : Z) (pixelData : list byte) =>
         let '(r8, g8, b8, a8) :=
           dib.to8 (image.At img
                      (int64 (image.Min_X (image.Bounds img) + x))
                      (int64 (image.Min_Y (image.Bounds img) + y))) in
         let idx := int64 (int64 (int64 (int64 (Hh - 1) - y) * (W * 4))
                           + int64 (x * 4)) in
         pixelData ← store pixelData idx b8;
         pixelData ← store pixelData (int64 (idx + 1)) g8;
         pixelData ← store pixelData (int64 (idx + 2)) r8;
         store pixelData (int64 (idx + 3)) a8).
  destruct (grid_fill (fun l : list byte => l) (fun _ => True) W Hh
              (fun y => Hh - 1 - y)
              (fun x y k => dib.bgra (dib.pixel8 img x y) k)
              body (replicate (Z.to_nat (4 * W * Hh)) x00))
    as (pd & Hpd & _ & Hlen & Hcells).
  - exact HW.
  - exact HH.
  - exact I.
  - unfold len. rewrite length_replicate. lia.
  - intros y y' _ _ Heq. lia.
  - intros y Hy. lia.
  - intros x y s Hx Hy _ Hlens.
    unfold body, dib.pixel8.
    rewrite (int64_small (image.Min_X (image.Bounds img) + x)),
      (int64_small (image.Min_Y (image.Bounds img) + y))
      by (unfold int_range; lia).
    destruct (dib.to8 _) as [[[r8 g8] b8] a8]. cbv zeta.
    assert (Hrow : 0 <= (Hh - 1 - y) * (W * 4) <= (Hh - 1) * (W * 4))
      by nia.
    assert (Hlast : (Hh - 1) * (W * 4) + W * 4 = 4 * W * Hh) by lia.
    rewrite (int64_small (Hh - 1)) by (unfold int_range; lia).
    rewrite (int64_small (Hh - 1 - y)) by (unfold int_range; lia).
    rewrite (int64_small ((Hh - 1 - y) * (W * 4)))
      by (unfold int_range; lia).
    rewrite (int64_small (x * 4)) by (unfold int_range; lia).
    rewrite (int64_small ((Hh - 1 - y) * (W * 4) + x * 4))
      by (unfold int_range; lia).
    rewrite store_quad by (unfold int_range; lia).
    eexists. split; [reflexivity|].
    replace ((Hh - 1 - y) * (4 * W) + 4 * x)
      with ((Hh - 1 - y) * (W * 4) + x * 4) by lia.
    destruct (quad_lookup s ((Hh - 1 - y) * (W * 4) + x * 4) b8 g8 r8 a8)
      as (Hl & Hc0 & Hc1 & Hc2 & Hc3 & Hout); [lia..|].
    split; [exact I|]. split; [lia|]. split.
    + intros k Hk. unfold dib.bgra.
      assert (Hcase : k = 0 \/ k = 1 \/ k = 2 \/ k = 3) by lia.
      destruct Hcase as [-> | [-> | [-> | ->]]]; cbn.
      * now rewrite Z.add_0_r.
      * exact Hc1.
      * exact Hc2.
      * exact Hc3.
    + exact Hout.
  - match goal with
    | |- context [for_loop (Z.to_nat Hh) 0 ?F ?s] =>
        change (for_loop (Z.to_nat Hh) 0 F s)
          with (for_loop (Z.to_nat Hh) 0
                  (fun y t => for_loop (Z.to_nat W) 0 (body y) t) s)
    end.
    rewrite Hpd. exists pd. split; [reflexivity|].
    split; [exact Hlen|]. intros x y k Hx Hy Hk. now apply Hcells.
Qed.

Lemma to_N_uint8 (v : Z) : Z.of_N (Byte.to_N (uint8 v)) = v mod 256.
Proof.
  unfold uint8. rewrite to_N_of_N.
  pose proof (Z.mod_pos_bound v 256 ltac:(lia)).
  rewrite N.mod_small by lia. lia.
Qed.

Lemma le_value_little_endian (n : nat) (v : Z) :
  dib.le_value (dib.little_endian n v) = v mod 256 ^ Z.of_nat n.
Proof.
  revert v. induction n as [|n IH]; intros v.
  - cbn. now rewrite Z.mod_1_r.
  - cbn [dib.little_endian dib.le_value].
    rewrite to_N_uint8, IH, Nat2Z.inj_succ, Z.pow_succ_r by lia.
    rewrite Z.rem_mul_r by lia. reflexivity.
Qed.

Lemma le_value_4 (v : Z) :
  dib.le_value [uint8 v; uint8 (v / 256); uint8 (v / 256 / 256);
                uint8 (v / 256 / 256 / 256)]
  = v mod 4294967296.
Proof. exact (le_value_little_endian 4 v). Qed.

Lemma le_value_2 (v : Z) :
  dib.le_value [uint8 v; uint8 (v / 256)] = v mod 65536.
Proof. exact (le_value_little_endian 2 v). Qed.

Lemma int32_of_mod (v : Z) :
  -2147483648 <= v < 2147483648 -> int32 (v mod 4294967296) = v.
Proof.
  intros Hr. unfold int32.
  rewrite Zplus_mod_idemp_l, Z.mod_small; lia.
Qed.

(** binary.Read gives back the header binary.Write wrote, whatever
    follows it. *)
Lemma binary_Read_Write (h : dib.bitmapInfoHeader) (rest : list byte) :
  dib.well_typed h ->
  dib.binary_Read (take 40 (dib.binary_Write h ++ rest)) = h
  /\ length (dib.binary_Write h) = 40%nat.
Proof.
  intros (H1 & H2 & H3 & H4 & H5 & H6 & H7 & H8 & H9 & H10 & H11).
  split; [|reflexivity].
  unfold dib.binary_Write, dib.binary_Read.
  cbn [dib.little_endian app take drop].
  rewrite !le_value_4, !le_value_2.
  rewrite !int32_of_mod by assumption.
  rewrite !Z.mod_small by assumption.
  now destruct h.
Qed.

(** What dibToImage reads from a 32-bit bitmap without colour table:
    the pixel at column x of row y comes from row Hh - 1 - y of the
    data. *)
Lemma dibToImage_pixels (hdr pixelData pad : list byte)
    (h : dib.bitmapInfoHeader) (W Hh : Z)
    (px : Z -> Z -> byte * byte * byte * byte) :
  length hdr = 40%nat ->
  dib.Width h = W -> dib.Height h = Hh -> dib.BitCount h = 32 ->
  dib.ClrUsed h = 0 ->
  0 < W -> 0 < Hh -> 4 * W * Hh < 2147483648 ->
  len pixelData = 4 * W * Hh ->
  (forall x y k, 0 <= x < W -> 0 <= y < Hh -> 0 <= k < 4 ->
     pixelData !! Z.to_nat ((Hh - 1 - y) * (4 * W) + 4 * x + k)
     = Some (dib.bgra (px x y) k)) ->
  exists out,
    dib.dibToImage (hdr ++ pixelData ++ pad) h = Returns out /\
    image.RGBA_Rect out = image.mkRectangle 0 0 W Hh /\
    image.Stride out = 4 * W /\
    len (image.Pix out) = 4 * W * Hh /\
    forall x y, 0 <= x < W -> 0 <= y < Hh ->
      image.RGBAAt out x y = Some (px x y).
Proof.
  intros Hhdr HWd HHt Hbc Hclr HW HH Hsize Hlen Hcells.
  assert (HWH : W <= W * Hh) by nia.
  assert (HHW : Hh <= W * Hh) by nia.
  set (rect := image.mkRectangle 0 0 W Hh).
  set (data := hdr ++ pixelData ++ pad).
  assert (Hdata : len data = 40 + 4 * W * Hh + len pad).
  { unfold data, len in *. rewrite !length_app. lia. }
  assert (Hdrop : drop (Z.to_nat 40) data = pixelData ++ pad).
  { unfold data. rewrite drop_app_length'; [reflexivity|]. rewrite Hhdr. lia. }
  unfold dib.dibToImage. rewrite HWd, HHt, Hbc, Hclr.
  destruct (decide (Hh < 0)) as [|_]; [lia|].
  assert (Hrect : image.Rect 0 0 W Hh = rect).
  { unfold image.Rect.
    destruct (decide (0 > W)) as [|_]; [lia|].
    destruct (decide (0 > Hh)) as [|_]; [lia|]. reflexivity. }
  rewrite Hrect.
  assert (Hnew : image.NewRGBA rect
                 = Some (image.mkRGBA (replicate (Z.to_nat (4 * W * Hh)) x00)
                                      (4 * W) rect)).
  { unfold image.NewRGBA, image.Dx, image.Dy. cbn [rect image.Max_X
      image.Min_X image.Max_Y image.Min_Y].
    rewrite !Z.sub_0_r.
    rewrite (int64_small W), (int64_small Hh), (int64_small (4 * W))
      by (unfold int_range; lia).
    destruct (decide _) as [Hbad|_]; [lia|].
    now rewrite allocates_small by lia. }
  rewrite Hnew.
  assert (Hq : Z.quot (W * 32 + 31) 32 = W).
  { symmetry. apply (Z.quot_unique _ _ _ 31); lia. }
  rewrite Hq.
  replace (40 + 0 * 4) with 40 by lia.
  rewrite (int64_small (W * 4 * Hh)) by (unfold int_range; lia).
  rewrite (int64_small (40 + W * 4 * Hh)) by (unfold int_range; lia).
  destruct (decide (len data < 40 + W * 4 * Hh)) as [|_];
    [unfold len in *; lia|].
  destruct (decide (40 > len data)) as [|_]; [unfold len in *; lia|].
  rewrite Hdrop.
  destruct (decide (32 = 32)) as [_|]; [|congruence].
  set (body := fun (y x : Z) (img : image.RGBA) =>
         let idx := int64 (int64 ((Hh - 1 - y) * (W * 4)) + x * 4) in
         if decide (idx + 3 < len (pixelData ++ pad)) then
           R ← index (pixelData ++ pad) (idx + 2);
           G ← index (pixelData ++ pad) (idx + 1);
           B ← index (pixelData ++ pad) idx;
           A ← index (pixelData ++ pad) (idx + 3);
           image.Set_ img x y (R, G, B, A)
         else Some img).
  destruct (grid_fill image.Pix
              (fun p => image.Stride p = 4 * W /\ image.RGBA_Rect p = rect)
              W Hh (fun y => y) (fun x y k => dib.rgba (px x y) k) body
              (image.mkRGBA (replicate (Z.to_nat (4 * W * Hh)) x00)
                            (4 * W) rect))
    as (out & Hout & (Hstride & Hr) & Hlenout & Hpix).
  - exact HW.
  - exact HH.
  - now split.
  - cbn [image.Pix]. unfold len. rewrite length_replicate. lia.
  - intros y y' _ _ Heq. exact Heq.
  - intros y Hy. exact Hy.
  - intros x y p Hx Hy (Hst & Hrp) Hlp. unfold body. cbv zeta.
    assert (Hrow : 0 <= (Hh - 1 - y) * (W * 4) <= (Hh - 1) * (W * 4))
      by nia.
    rewrite (int64_small ((Hh - 1 - y) * (W * 4)))
      by (unfold int_range; lia).
    rewrite (int64_small ((Hh - 1 - y) * (W * 4) + x * 4))
      by (unfold int_range; lia).
    set (idx := (Hh - 1 - y) * (W * 4) + x * 4).
    assert (Hidx : 0 <= idx /\ idx + 4 <= 4 * W * Hh) by (unfold idx; lia).
    assert (Hget : forall k, 0 <= k < 4 ->
              index (pixelData ++ pad) (idx + k)
              = Some (dib.bgra (px x y) k)).
    { intros k Hk. unfold index.
      destruct (decide _) as [_|Hn].
      - rewrite lookup_app_l by (unfold len in *; lia).
        replace (idx + k) with ((Hh - 1 - y) * (4 * W) + 4 * x + k)
          by (unfold idx; lia).
        now apply Hcells.
      - unfold len in *. rewrite length_app in Hn. lia. }
    destruct (decide (idx + 3 < len (pixelData ++ pad))) as [_|Hn].
    2:{ unfold len in *. rewrite length_app in Hn. lia. }
    rewrite (Hget 2), (Hget 1), (Hget 3) by lia.
    pose proof (Hget 0 ltac:(lia)) as Hget0. rewrite Z.add_0_r in Hget0.
    rewrite Hget0. cbn [mbind option_bind].
    destruct (px x y) as [[[r g] b] a] eqn:Hpx.
    cbn [dib.bgra]. repeat (destruct (decide _); try lia).
    unfold image.Set_. rewrite Hrp.
    destruct (decide (image.In x y rect)) as [_|Hn].
    2:{ elim Hn. unfold image.In. cbn. lia. }
    assert (Hoff : image.PixOffset p x y = y * (4 * W) + 4 * x).
    { unfold image.PixOffset. rewrite Hrp, Hst. cbn [rect image.Min_X
        image.Min_Y]. rewrite !Z.sub_0_r.
      rewrite (int64_small y), (int64_small x) by (unfold int_range; lia).
      assert (0 <= y * (4 * W) <= (Hh - 1) * (4 * W)) by nia.
      rewrite (int64_small (y * (4 * W))), (int64_small (x * 4))
        by (unfold int_range; lia).
      rewrite int64_small by (unfold int_range; lia). lia. }
    rewrite Hoff.
    assert (Hpos : 0 <= y * (4 * W) + 4 * x /\
                   y * (4 * W) + 4 * x + 4 <= 4 * W * Hh) by nia.
    destruct (decide _) as [_|Hn]; [|lia].
    eexists. split; [reflexivity|]. cbn [image.Stride image.RGBA_Rect
      image.Pix].
    destruct (quad_lookup (image.Pix p) (y * (4 * W) + 4 * x) r g b a)
      as (Hl & Hc0 & Hc1 & Hc2 & Hc3 & Hother); [lia..|].
    split; [now split|]. split; [lia|]. split.
    + intros k Hk. unfold dib.rgba.
      assert (Hcase : k = 0 \/ k = 1 \/ k = 2 \/ k = 3) by lia.
      destruct Hcase as [-> | [-> | [-> | ->]]]; cbn.
      * now rewrite Z.add_0_r.
      * exact Hc1.
      * exact Hc2.
      * exact Hc3.
    + exact Hother.
  - match goal with
    | |- context [for_loop (Z.to_nat Hh) 0 ?F ?s] =>
        change (for_loop (Z.to_nat Hh) 0 F s)
          with (for_loop (Z.to_nat Hh) 0
                  (fun y t => for_loop (Z.to_nat W) 0 (body y) t) s)
    end.
    rewrite Hout. exists out. split; [reflexivity|].
    split; [exact Hr|]. split; [exact Hstride|]. split; [exact Hlenout|].
    intros x y Hx Hy. unfold image.RGBAAt. rewrite Hr.
    destruct (decide (image.In x y rect)) as [_|Hn].
    2:{ elim Hn. unfold image.In. cbn. lia. }
    assert (Hoff : image.PixOffset out x y = y * (4 * W) + 4 * x).
    { unfold image.PixOffset. rewrite Hr, Hstride. cbn [rect image.Min_X
        image.Min_Y]. rewrite !Z.sub_0_r.
      rewrite (int64_small y), (int64_small x) by (unfold int_range; lia).
      assert (0 <= y * (4 * W) <= (Hh - 1) * (4 * W)) by nia.
      rewrite (int64_small (y * (4 * W))), (int64_small (x * 4))
        by (unfold int_range; lia).
      rewrite int64_small by (unfold int_range; lia). lia. }
    rewrite Hoff.
    assert (Hpos : 0 <= y * (4 * W) + 4 * x /\
                   y * (4 * W) + 4 * x + 4 <= 4 * W * Hh) by nia.
    destruct (decide _) as [_|Hn]; [|lia].
    pose proof (Hpix x y 0 Hx Hy ltac:(lia)) as P0.
    rewrite Z.add_0_r in P0.
    rewrite P0, (Hpix x y 1), (Hpix x y 2), (Hpix x y 3) by lia.
    cbn [mbind option_bind]. destruct (px x y) as [[[r g] b] a].
    reflexivity.
Qed.
End dib_facts.

Section dib_panics.
Context `{Heap}.
Local Open Scope Z_scope.

Lemma dibToImage_negative_width (data : list byte)
    (h : dib.bitmapInfoHeader) :
  dib.Width h = -2 -> dib.Height h = 1 -> dib.BitCount h = 32 ->
  dib.ClrUsed h = 1 -> 40 <= len data < 44 ->
  dib.dibToImage data h = Panics.
Proof.
  intros HW HH Hbc Hclr Hlen.
  unfold dib.dibToImage. rewrite HW, HH, Hbc, Hclr.
  destruct (decide (1 < 0)) as [|_]; [lia|].
  cbn -[len int64 Z.quot Z.mul Z.add].
  destruct (decide (len data < _)) as [Hlt|_].
  { exfalso. revert Hlt. vm_compute (int64 _). lia. }
  destruct (decide (_ > len data)) as [_|Hn]; [|lia].
  now destruct (image.NewRGBA _).
Qed.

Lemma dibToImage_huge (data : list byte) (h : dib.bitmapInfoHeader) :
  dib.Width h = 2147483647 -> dib.Height h = 2147483647 ->
  dib.dibToImage data h = Panics.
Proof.
  intros HW HH. unfold dib.dibToImage. rewrite HW, HH. reflexivity.
Qed.
End dib_panics.

Section dib_theorems.
Context `{Heap}.
Local Open Scope Z_scope.

(** imageToDIB followed by dibToImage, with the bytes in between. *)
Lemma imageToDIB_dibToImage (img : image.Image) :
  dib.describable img ->
  let W := image.Max_X (image.Bounds img) - image.Min_X (image.Bounds img) in
  let Hh := image.Max_Y (image.Bounds img) - image.Min_Y (image.Bounds img) in
  exists data,
    dib.imageToDIB img = Returns data /\
    len data = 40 + 4 * W * Hh /\
    dib.binary_Read (take 40 data)
    = dib.mkHeader 40 W Hh 1 32 0 (4 * W * Hh) 0 0 0 0 /\
    forall pad, exists out,
      dib.dibToImage (data ++ pad) (dib.binary_Read (take 40 (data ++ pad)))
      = Returns out /\
      image.RGBA_Rect out = image.mkRectangle 0 0 W Hh /\
      forall x y, 0 <= x < W -> 0 <= y < Hh ->
        image.RGBAAt out x y = Some (dib.pixel8 img x y).
Proof.
  intros Hd W Hh.
  destruct (imageToDIB_pixels img Hd) as (pd & Hdib & Hlen & Hcells).
  fold W Hh in Hdib, Hlen, Hcells.
  destruct Hd as (_ & _ & _ & _ & HW & HH & Hsize).
  fold W in HW, Hsize. fold Hh in HH, Hsize.
  assert (HWH : W <= W * Hh) by nia.
  assert (HHW : Hh <= W * Hh) by nia.
  set (h := dib.mkHeader 40 W Hh 1 32 0 (4 * W * Hh) 0 0 0 0) in *.
  assert (Hh_ok : dib.well_typed h).
  { unfold dib.well_typed. cbn. lia. }
  exists (dib.binary_Write h ++ pd).
  split; [exact Hdib|]. split.
  { unfold len in *. rewrite length_app.
    rewrite (proj2 (binary_Read_Write h [] Hh_ok)). lia. }
  split; [apply (binary_Read_Write h pd Hh_ok)|].
  intros pad. rewrite <- app_assoc.
  rewrite (proj1 (binary_Read_Write h (pd ++ pad) Hh_ok)).
  destruct (dibToImage_pixels (dib.binary_Write h) pd pad h W Hh
              (dib.pixel8 img))
    as (out & Hout & Hrect & _ & _ & Hpix);
    try reflexivity; try assumption.
  exists out. auto.
Qed.

(** Out to the clipboard and back: for an image the header can describe,
    imageToDIB returns 40 bytes of header followed by four bytes per
    pixel; binary.Read on the first 40 bytes gives the header with the
    width and height of the image, 32 bits per pixel and no colour
    table; and dibToImage on these bytes, also when further bytes follow
    them, returns an image on the rectangle (0, 0)-(width, height) whose
    pixel at (x, y) is the 8-bit pixel of the original at its origin plus
    (x, y). *)
Theorem DIB_round_trip (img : image.Image) :
  dib.describable img ->
  let W := image.Max_X (image.Bounds img) - image.Min_X (image.Bounds img) in
  let Hh := image.Max_Y (image.Bounds img) - image.Min_Y (image.Bounds img) in
  exists data,
    dib.imageToDIB img = Returns data /\
    len data = 40 + 4 * W * Hh /\
    dib.binary_Read (take 40 data)
    = dib.mkHeader 40 W Hh 1 32 0 (4 * W * Hh) 0 0 0 0 /\
    forall pad, exists out,
      dib.dibToImage (data ++ pad) (dib.binary_Read (take 40 (data ++ pad)))
      = Returns out /\
      image.RGBA_Rect out = image.mkRectangle 0 0 W Hh /\
      forall x y, 0 <= x < W -> 0 <= y < Hh ->
        image.RGBAAt out x y = Some (dib.pixel8 img x y).
Proof.
  exact (imageToDIB_dibToImage img).
Qed.

(** With the pixels allocated, dibToImage does not panic on a header with
    a width that is not negative and at most 32 bits per pixel. *)
Lemma dibToImage_allocated (data : list byte) (h : dib.bitmapInfoHeader) :
  dib.well_typed h -> 0 <= dib.Width h -> dib.BitCount h <= 32 ->
  allocates (4 * dib.Width h * Z.abs (dib.Height h)) = true ->
  dib.dibToImage data h <> Panics.
Proof.
  intros (_ & HWr & HHr & _ & Hbc & _ & _ & _ & _ & Hclr & _) HW0 Hbc32
         Halloc.
  pose proof (allocates_maxAlloc _ Halloc) as Hsize.
  unfold dib.dibToImage.
  remember (dib.Width h) as W eqn:EW.
  remember (if decide (dib.Height h < 0) then - dib.Height h
            else dib.Height h) as Hh eqn:EHh.
  assert (HHh : 0 <= Hh <= 2147483648 /\ Hh = Z.abs (dib.Height h)).
  { subst Hh. destruct (decide _); lia. }
  destruct HHh as [HHh Habs]. rewrite <- Habs in Hsize, Halloc.
  clear Habs EHh.
  set (rect := image.mkRectangle 0 0 W Hh).
  assert (Hrect : image.Rect 0 0 W Hh = rect).
  { unfold image.Rect.
    destruct (decide (0 > W)) as [|_]; [lia|].
    destruct (decide (0 > Hh)) as [|_]; [lia|]. reflexivity. }
  rewrite Hrect.
  assert (HWHh : 0 <= W * Hh) by nia.
  assert (Hnew : image.NewRGBA rect
                 = Some (image.mkRGBA
                           (replicate (Z.to_nat (4 * W * Hh)) x00)
                           (4 * W) rect)).
  { unfold image.NewRGBA, image.Dx, image.Dy. cbn [rect image.Max_X
      image.Min_X image.Max_Y image.Min_Y].
    rewrite !Z.sub_0_r.
    rewrite (int64_small W), (int64_small Hh), (int64_small (4 * W))
      by (unfold int_range; lia).
    destruct (decide _) as [Hbad|_]; [lia|].
    now rewrite Halloc. }
  rewrite Hnew.
  remember (Z.quot (W * dib.BitCount h + 31) 32 * 4) as rowSize
    eqn:ErowSize.
  assert (Hrs : 0 <= rowSize <= 4 * W).
  { subst rowSize.
    assert (0 <= W * dib.BitCount h <= W * 32) by nia.
    pose proof (Z.quot_pos (W * dib.BitCount h + 31) 32
                  ltac:(lia) ltac:(lia)).
    assert (Z.quot (W * dib.BitCount h + 31) 32 <= W).
    { rewrite Z.quot_div_nonneg by lia.
      apply Z.lt_succ_r, Z.div_lt_upper_bound; lia. }
    lia. }
  assert (Hprod : 0 <= rowSize * Hh <= 4 * W * Hh) by nia.
  rewrite (int64_small (rowSize * Hh)) by (unfold int_range; lia).
  rewrite (int64_small (40 + dib.ClrUsed h * 4 + rowSize * Hh))
    by (unfold int_range; lia).
  destruct (decide (len data < _)) as [|Hdata]; [discriminate|].
  destruct (decide (40 + dib.ClrUsed h * 4 > len data)) as [|Hoff];
    [lia|].
  remember (drop (Z.to_nat (40 + dib.ClrUsed h * 4)) data) as pixelData
    eqn:EpixelData.
  set (Inv := fun (_ : Z) (p : image.RGBA) =>
         image.Stride p = 4 * W /\ image.RGBA_Rect p = rect /\
         len (image.Pix p) = 4 * W * Hh).
  assert (Hinit : Inv 0 (image.mkRGBA
                           (replicate (Z.to_nat (4 * W * Hh)) x00)
                           (4 * W) rect)).
  { unfold Inv. cbn [image.Stride image.RGBA_Rect image.Pix].
    split; [reflexivity|]. split; [reflexivity|].
    unfold len. rewrite length_replicate. lia. }
  assert (Hset : forall x y p c, 0 <= x < W -> 0 <= y < Hh ->
            Inv 0 p -> exists p', image.Set_ p x y c = Some p' /\ Inv 0 p').
  { intros x y p [[[r g] b] a] Hx Hy (Hst & Hrp & Hlp).
    unfold image.Set_. rewrite Hrp.
    destruct (decide (image.In x y rect)) as [_|Hn].
    2:{ elim Hn. unfold image.In. cbn. lia. }
    assert (Hoffs : image.PixOffset p x y = y * (4 * W) + 4 * x).
    { unfold image.PixOffset. rewrite Hrp, Hst. cbn [rect image.Min_X
        image.Min_Y]. rewrite !Z.sub_0_r.
      rewrite (int64_small y), (int64_small x)
        by (unfold int_range; lia).
      assert (0 <= y * (4 * W) <= (Hh - 1) * (4 * W)) by nia.
      rewrite (int64_small (y * (4 * W))), (int64_small (x * 4))
        by (unfold int_range; lia).
      rewrite int64_small by (unfold int_range; lia). lia. }
    rewrite Hoffs.
    assert (Hpos : 0 <= y * (4 * W) + 4 * x /\
                   y * (4 * W) + 4 * x + 4 <= 4 * W * Hh) by nia.
    destruct (decide _) as [_|Hn]; [|lia].
    eexists. split; [reflexivity|]. unfold Inv.
    cbn [image.Stride image.RGBA_Rect image.Pix].
    unfold len in *. rewrite !length_insert. auto. }
  assert (Hidx : forall x y bpp, 0 <= x < W -> 0 <= y < Hh ->
            0 <= bpp <= 4 ->
            int64 (int64 ((Hh - 1 - y) * rowSize) + x * bpp)
            = (Hh - 1 - y) * rowSize + x * bpp
            /\ 0 <= (Hh - 1 - y) * rowSize + x * bpp).
  { intros x y bpp Hx Hy Hbpp.
    assert (0 <= (Hh - 1 - y) * rowSize <= (Hh - 1) * (4 * W)) by nia.
    assert (0 <= x * bpp <= 4 * W) by nia.
    rewrite (int64_small ((Hh - 1 - y) * rowSize))
      by (unfold int_range; lia).
    rewrite int64_small by (unfold int_range; lia). lia. }
  assert (Hread : forall i, 0 <= i < len pixelData ->
            exists v, index pixelData i = Some v).
  { intros i Hi. unfold index.
    destruct (decide _) as [_|]; [|lia].
    apply lookup_lt_is_Some. unfold len in Hi. lia. }
  destruct (decide (dib.BitCount h = 32)) as [H32|Hn32].
  + destruct (for_loop_inv Inv
                (fun y img =>
                   for_loop (Z.to_nat W) 0
                     (fun x img =>
                        let idx := int64 (int64 ((Hh - 1 - y) * rowSize)
                                          + x * 4) in
                        if decide (idx + 3 < len pixelData) then
                          R ← index pixelData (idx + 2);
                          G ← index pixelData (idx + 1);
                          B ← index pixelData idx;
                          A ← index pixelData (idx + 3);
                          image.Set_ img x y (R, G, B, A)
                        else Some img) img)
                (Z.to_nat Hh) 0 _ Hinit) as (out & Hout & _).
    { intros y p Hy Hp.
      destruct (for_loop_inv Inv
                  (fun x img =>
                     let idx := int64 (int64 ((Hh - 1 - y) * rowSize)
                                       + x * 4) in
                     if decide (idx + 3 < len pixelData) then
                       R ← index pixelData (idx + 2);
                       G ← index pixelData (idx + 1);
                       B ← index pixelData idx;
                       A ← index pixelData (idx + 3);
                       image.Set_ img x y (R, G, B, A)
                     else Some img) (Z.to_nat W) 0 p Hp)
        as (p' & Hp' & Hinv').
      - intros x q Hx Hq. cbv zeta.
        destruct (Hidx x y 4 ltac:(lia) ltac:(lia) ltac:(lia))
          as [-> Hnn].
        destruct (decide _) as [Hin|_]; [|now exists q].
        destruct (Hread ((Hh - 1 - y) * rowSize + x * 4 + 2) ltac:(lia))
          as (R & ->).
        destruct (Hread ((Hh - 1 - y) * rowSize + x * 4 + 1) ltac:(lia))
          as (G & ->).
        destruct (Hread ((Hh - 1 - y) * rowSize + x * 4) ltac:(lia))
          as (B & ->).
        destruct (Hread ((Hh - 1 - y) * rowSize + x * 4 + 3) ltac:(lia))
          as (A & ->).
        cbn [mbind option_bind].
        apply Hset; [lia|lia|exact Hq].
      - exists p'. split; [exact Hp'|exact Hinv']. }
    match goal with
    | |- match ?L with Some _ => _ | None => _ end <> _ =>
        replace L with (Some out) by (symmetry; exact Hout)
    end.
    discriminate.
  + destruct (decide (dib.BitCount h = 24)) as [H24|Hn24];
      [|discriminate].
    destruct (for_loop_inv Inv
                (fun y img =>
                   for_loop (Z.to_nat W) 0
                     (fun x img =>
                        let idx := int64 (int64 ((Hh - 1 - y) * rowSize)
                                          + x * 3) in
                        if decide (idx + 2 < len pixelData) then
                          R ← index pixelData (idx + 2);
                          G ← index pixelData (idx + 1);
                          B ← index pixelData idx;
                          image.Set_ img x y (R, G, B, xff)
                        else Some img) img)
                (Z.to_nat Hh) 0 _ Hinit) as (out & Hout & _).
    { intros y p Hy Hp.
      destruct (for_loop_inv Inv
                  (fun x img =>
                     let idx := int64 (int64 ((Hh - 1 - y) * rowSize)
                                       + x * 3) in
                     if decide (idx + 2 < len pixelData) then
                       R ← index pixelData (idx + 2);
                       G ← index pixelData (idx + 1);
                       B ← index pixelData idx;
                       image.Set_ img x y (R, G, B, xff)
                     else Some img) (Z.to_nat W) 0 p Hp)
        as (p' & Hp' & Hinv').
      - intros x q Hx Hq. cbv zeta.
        destruct (Hidx x y 3 ltac:(lia) ltac:(lia) ltac:(lia))
          as [-> Hnn].
        destruct (decide _) as [Hin|_]; [|now exists q].
        destruct (Hread ((Hh - 1 - y) * rowSize + x * 3 + 2) ltac:(lia))
          as (R & ->).
        destruct (Hread ((Hh - 1 - y) * rowSize + x * 3 + 1) ltac:(lia))
          as (G & ->).
        destruct (Hread ((Hh - 1 - y) * rowSize + x * 3) ltac:(lia))
          as (B & ->).
        cbn [mbind option_bind].
        apply Hset; [lia|lia|exact Hq].
      - exists p'. split; [exact Hp'|exact Hinv']. }
    match goal with
    | |- match ?L with Some _ => _ | None => _ end <> _ =>
        replace L with (Some out) by (symmetry; exact Hout)
    end.
    discriminate.
Qed.

(** Without the pixels, dibToImage panics. *)
Lemma dibToImage_not_allocated (data : list byte)
    (h : dib.bitmapInfoHeader) :
  dib.well_typed h -> 0 <= dib.Width h ->
  allocates (4 * dib.Width h * Z.abs (dib.Height h)) = false ->
  dib.dibToImage data h = Panics.
Proof.
  intros (_ & HWr & HHr & _) HW0 Halloc.
  unfold dib.dibToImage.
  remember (dib.Width h) as W eqn:EW.
  remember (if decide (dib.Height h < 0) then - dib.Height h
            else dib.Height h) as Hh eqn:EHh.
  assert (HHh : 0 <= Hh <= 2147483648 /\ Hh = Z.abs (dib.Height h)).
  { subst Hh. destruct (decide _); lia. }
  destruct HHh as [HHh Habs]. rewrite <- Habs in Halloc.
  clear Habs EHh.
  assert (Hrect : image.Rect 0 0 W Hh = image.mkRectangle 0 0 W Hh).
  { unfold image.Rect.
    destruct (decide (0 > W)) as [|_]; [lia|].
    destruct (decide (0 > Hh)) as [|_]; [lia|]. reflexivity. }
  rewrite Hrect.
  assert (HWHh : 0 <= W * Hh <= 2147483648 * 2147483648) by nia.
  assert (Hnew : image.NewRGBA (image.mkRectangle 0 0 W Hh) = None).
  { unfold image.NewRGBA, image.Dx, image.Dy. cbn [image.Max_X
      image.Min_X image.Max_Y image.Min_Y].
    rewrite !Z.sub_0_r.
    rewrite (int64_small W), (int64_small Hh) by (unfold int_range; lia).
    destruct (decide _) as [_|_]; [reflexivity|].
    now rewrite Halloc. }
  now rewrite Hnew.
Qed.

(** When dibToImage panics.  On a header with a width that is not
    negative and at most 32 bits per pixel, dibToImage panics exactly when
    the pixels of the image cannot be allocated, whatever the data,
    however short; otherwise it returns an image or an error.  Both
    conditions are needed: a header of a 32-bit bitmap with width -2,
    height 1 and one colour-table entry makes it panic on every data of
    40 to 43 bytes (the slice of the pixel data starts behind the end),
    and a header with width and height 2^31 - 1 makes it panic on every
    data (image.NewRGBA refuses the dimensions). *)
Theorem dibToImage_panics (data : list byte) (h : dib.bitmapInfoHeader) :
  (dib.well_typed h -> 0 <= dib.Width h -> dib.BitCount h <= 32 ->
   (dib.dibToImage data h = Panics
    <-> allocates (4 * dib.Width h * Z.abs (dib.Height h)) = false)) /\
  (dib.Width h = -2 -> dib.Height h = 1 -> dib.BitCount h = 32 ->
   dib.ClrUsed h = 1 -> 40 <= len data < 44 ->
   dib.dibToImage data h = Panics) /\
  (dib.Width h = 2147483647 -> dib.Height h = 2147483647 ->
   dib.dibToImage data h = Panics).
Proof.
  split; [|split].
  - intros Hty HW0 Hbc32.
    destruct (allocates (4 * dib.Width h * Z.abs (dib.Height h)))
      eqn:Halloc.
    + split; [|discriminate]. intros Hp.
      now elim (dibToImage_allocated data h Hty HW0 Hbc32 Halloc).
    + split; [reflexivity|]. intros _.
      now apply dibToImage_not_allocated.
  - apply dibToImage_negative_width.
  - apply dibToImage_huge.
Qed.
End dib_theorems.

(** * Where dibToImage reads a pixel *)

Section dib_reads.
Context `{Heap}.
Local Open Scope Z_scope.

(** Two nested loops that set every pixel of a fresh image. *)
Lemma loops_Set (W Hh : Z) (px : Z -> Z -> byte * byte * byte * byte)
    (body : Z -> Z -> image.RGBA -> option image.RGBA) :
  0 < W -> 0 < Hh -> 4 * W * Hh < 2147483648 ->
  (forall x y p, 0 <= x < W -> 0 <= y < Hh ->
     body y x p = image.Set_ p x y (px x y)) ->
  exists out,
    for_loop (Z.to_nat Hh) 0
      (fun y p => for_loop (Z.to_nat W) 0 (body y) p)
      (image.mkRGBA (replicate (Z.to_nat (4 * W * Hh)) x00) (4 * W)
                    (image.mkRectangle 0 0 W Hh))
    = Some out /\
    image.RGBA_Rect out = image.mkRectangle 0 0 W Hh /\
    forall x y, 0 <= x < W -> 0 <= y < Hh ->
      image.RGBAAt out x y = Some (px x y).
Proof.
  intros HW HH Hsize Hbody.
  assert (HWH : W <= W * Hh) by nia.
  assert (HHW : Hh <= W * Hh) by nia.
  set (rect := image.mkRectangle 0 0 W Hh).
  assert (Hoff : forall p x y, 0 <= x < W -> 0 <= y < Hh ->
            image.Stride p = 4 * W -> image.RGBA_Rect p = rect ->
            image.PixOffset p x y = y * (4 * W) + 4 * x).
  { intros p x y Hx Hy Hst Hrp. unfold image.PixOffset. rewrite Hrp, Hst.
    cbn [rect image.Min_X image.Min_Y]. rewrite !Z.sub_0_r.
    rewrite (int64_small y), (int64_small x) by (unfold int_range; lia).
    assert (0 <= y * (4 * W) <= (Hh - 1) * (4 * W)) by nia.
    rewrite (int64_small (y * (4 * W))), (int64_small (x * 4))
      by (unfold int_range; lia).
    rewrite int64_small by (unfold int_range; lia). lia. }
  destruct (grid_fill image.Pix
              (fun p => image.Stride p = 4 * W /\ image.RGBA_Rect p = rect)
              W Hh (fun y => y) (fun x y k => dib.rgba (px x y) k) body
              (image.mkRGBA (replicate (Z.to_nat (4 * W * Hh)) x00)
                            (4 * W) rect))
    as (out & Hout & (Hstride & Hr) & Hlenout & Hpix).
  - exact HW.
  - exact HH.
  - now split.
  - cbn [image.Pix]. unfold len. rewrite length_replicate. lia.
  - intros y y' _ _ Heq. exact Heq.
  - intros y Hy. exact Hy.
  - intros x y p Hx Hy (Hst & Hrp) Hlp. rewrite (Hbody x y p Hx Hy).
    destruct (px x y) as [[[r g] b] a] eqn:Hpx.
    unfold image.Set_. rewrite Hrp.
    destruct (decide (image.In x y rect)) as [_|Hn].
    2:{ elim Hn. unfold image.In. cbn. lia. }
    rewrite (Hoff p x y Hx Hy Hst Hrp).
    assert (Hpos : 0 <= y * (4 * W) + 4 * x /\
                   y * (4 * W) + 4 * x + 4 <= 4 * W * Hh) by nia.
    destruct (decide _) as [_|Hn]; [|lia].
    eexists. split; [reflexivity|]. cbn [image.Stride image.RGBA_Rect
      image.Pix].
    destruct (quad_lookup (image.Pix p) (y * (4 * W) + 4 * x) r g b a)
      as (Hl & Hc0 & Hc1 & Hc2 & Hc3 & Hother); [lia..|].
    split; [now split|]. split; [lia|]. split.
    + intros k Hk. unfold dib.rgba.
      assert (Hcase : k = 0 \/ k = 1 \/ k = 2 \/ k = 3) by lia.
      destruct Hcase as [-> | [-> | [-> | ->]]]; cbn.
      * now rewrite Z.add_0_r.
      * exact Hc1.
      * exact Hc2.
      * exact Hc3.
    + exact Hother.
  - exists out. split; [exact Hout|]. split; [exact Hr|].
    intros x y Hx Hy. unfold image.RGBAAt. rewrite Hr.
    destruct (decide (image.In x y rect)) as [_|Hn].
    2:{ elim Hn. unfold image.In. cbn. lia. }
    rewrite (Hoff out x y Hx Hy Hstride Hr).
    assert (Hpos : 0 <= y * (4 * W) + 4 * x /\
                   y * (4 * W) + 4 * x + 4 <= 4 * W * Hh) by nia.
    destruct (decide _) as [_|Hn]; [|lia].
    pose proof (Hpix x y 0 Hx Hy ltac:(lia)) as P0.
    rewrite Z.add_0_r in P0.
    rewrite P0, (Hpix x y 1), (Hpix x y 2), (Hpix x y 3) by lia.
    cbn [mbind option_bind]. now destruct (px x y) as [[[r g] b] a].
Qed.

(** A byte of a slice behind a prefix of it. *)
Lemma index_drop (data : list byte) (offset i : Z) :
  0 <= offset -> 0 <= i -> offset + i < len data ->
  index (drop (Z.to_nat offset) data) i
  = Some (default x00 (data !! Z.to_nat (offset + i))) /\
  data !! Z.to_nat (offset + i)
  = Some (default x00 (data !! Z.to_nat (offset + i))).
Proof.
  intros Ho Hi Hlt. unfold index, len in *.
  destruct (lookup_lt_is_Some_2 data (Z.to_nat (offset + i))) as [v Hv];
    [lia|].
  rewrite Hv. split; [|reflexivity].
  destruct (decide _) as [_|Hn].
  - rewrite lookup_drop.
    replace (Z.to_nat offset + Z.to_nat i)%nat with (Z.to_nat (offset + i))
      by lia.
    rewrite Hv. reflexivity.
  - rewrite length_drop in Hn. lia.
Qed.

(** The row size of a bitmap of 24 or 32 bits per pixel. *)
Lemma rowSize_bounds (W bpp : Z) :
  0 < W -> bpp = 3 \/ bpp = 4 ->
  bpp * W <= Z.quot (W * (8 * bpp) + 31) 32 * 4 <= 4 * W.
Proof.
  intros HW Hb.
  pose proof (Z.quot_rem' (W * (8 * bpp) + 31) 32) as Hqr.
  pose proof (Z.rem_bound_pos (W * (8 * bpp) + 31) 32) as Hrem.
  destruct Hb as [-> | ->]; lia.
Qed.

(** Where dibToImage reads.  For a bitmap of 24 or 32 bits per pixel with
    a positive width, a height other than zero, less than 2^31 bytes of
    pixels in the result and data that holds every row, dibToImage
    returns an image on (0, 0)-(width, |height|).  Its pixel at (x, y) is
    read at the position [at] = 40 + 4 * ClrUsed + (|height| - 1 - y) *
    rowSize + x * (BitCount / 8) of the data: blue at [at], green at
    [at + 1], red at [at + 2], and alpha at [at + 3] for 32 bits and 255
    for 24 bits.  The sign of the height makes no difference: row y of the
    image is always row |height| - 1 - y of the data. *)
Theorem dibToImage_reads (data : list byte) (h : dib.bitmapInfoHeader)
    (bpp : Z) :
  let W := dib.Width h in
  let Hh := Z.abs (dib.Height h) in
  let offset := 40 + dib.ClrUsed h * 4 in
  let rowSize := Z.quot (W * dib.BitCount h + 31) 32 * 4 in
  bpp = 3 \/ bpp = 4 -> dib.BitCount h = 8 * bpp ->
  0 <= dib.ClrUsed h < 4294967296 ->
  0 < W -> 0 < Hh -> 4 * W * Hh < 2147483648 ->
  offset + rowSize * Hh <= len data ->
  exists out,
    dib.dibToImage data h = Returns out /\
    image.RGBA_Rect out = image.mkRectangle 0 0 W Hh /\
    forall x y, 0 <= x < W -> 0 <= y < Hh ->
      let at_ := offset + (Hh - 1 - y) * rowSize + x * bpp in
      exists r g b a,
        data !! Z.to_nat at_ = Some b /\
        data !! Z.to_nat (at_ + 1) = Some g /\
        data !! Z.to_nat (at_ + 2) = Some r /\
        (if decide (bpp = 4) then data !! Z.to_nat (at_ + 3) = Some a
         else a = xff) /\
        image.RGBAAt out x y = Some (r, g, b, a).
Proof.
  intros W Hh offset rowSize Hbpp Hbc Hclr HW HH Hsize Hlen.
  assert (Habs : (if decide (dib.Height h < 0) then - dib.Height h
                  else dib.Height h) = Hh).
  { unfold Hh. destruct (decide (dib.Height h < 0)) as [Hneg|Hpos].
    - symmetry. apply Z.abs_neq. apply Z.lt_le_incl, Hneg.
    - symmetry. apply Z.abs_eq. apply Z.nlt_ge, Hpos. }
  assert (HWdef : dib.Width h = W) by reflexivity.
  assert (Hoffdef : 40 + dib.ClrUsed h * 4 = offset) by reflexivity.
  assert (Hrowdef : Z.quot (W * dib.BitCount h + 31) 32 * 4 = rowSize)
    by reflexivity.
  clearbody W Hh offset rowSize.
  assert (HWH : W <= W * Hh) by nia.
  assert (HHW : Hh <= W * Hh) by nia.
  assert (Hrow : bpp * W <= rowSize <= 4 * W).
  { rewrite <- Hrowdef, Hbc. now apply rowSize_bounds. }
  assert (Hrows : 0 <= rowSize * Hh <= 4 * W * Hh) by nia.
  assert (Hcell : forall x y k, 0 <= x < W -> 0 <= y < Hh -> 0 <= k < bpp ->
            0 <= (Hh - 1 - y) * rowSize /\
            (Hh - 1 - y) * rowSize <= 4 * W * Hh /\
            (Hh - 1 - y) * rowSize + x * bpp + k < rowSize * Hh).
  { intros x y k Hx Hy Hk.
    assert (0 <= (Hh - 1 - y) * rowSize <= (Hh - 1) * rowSize) by nia.
    assert (x * bpp + k < rowSize) by nia.
    nia. }
  set (byte_at := fun i => default x00 (data !! Z.to_nat (offset + i))).
  set (px := fun x y =>
         let idx := (Hh - 1 - y) * rowSize + x * bpp in
         (byte_at (idx + 2), byte_at (idx + 1), byte_at idx,
          if decide (bpp = 4) then byte_at (idx + 3) else xff)).
  assert (Hget : forall x y k, 0 <= x < W -> 0 <= y < Hh -> 0 <= k < bpp ->
            index (drop (Z.to_nat offset) data)
                  ((Hh - 1 - y) * rowSize + x * bpp + k)
            = Some (byte_at ((Hh - 1 - y) * rowSize + x * bpp + k)) /\
            data !! Z.to_nat (offset + (Hh - 1 - y) * rowSize + x * bpp + k)
            = Some (byte_at ((Hh - 1 - y) * rowSize + x * bpp + k))).
  { intros x y k Hx Hy Hk. destruct (Hcell x y k Hx Hy Hk) as (? & ? & ?).
    unfold byte_at.
    replace (offset + (Hh - 1 - y) * rowSize + x * bpp + k)
      with (offset + ((Hh - 1 - y) * rowSize + x * bpp + k)) by lia.
    apply index_drop; lia. }
  assert (Hpx : forall x y,
            px x y
            = (byte_at ((Hh - 1 - y) * rowSize + x * bpp + 2),
               byte_at ((Hh - 1 - y) * rowSize + x * bpp + 1),
               byte_at ((Hh - 1 - y) * rowSize + x * bpp),
               if decide (bpp = 4)
               then byte_at ((Hh - 1 - y) * rowSize + x * bpp + 3)
               else xff)) by reflexivity.
  clearbody px. clearbody byte_at.
  assert (Hdone : forall body,
    (forall x y p, 0 <= x < W -> 0 <= y < Hh ->
       body y x p = image.Set_ p x y (px x y)) ->
    exists out,
      match
        for_loop (Z.to_nat Hh) 0
          (fun y p => for_loop (Z.to_nat W) 0 (body y) p)
          (image.mkRGBA (replicate (Z.to_nat (4 * W * Hh)) x00) (4 * W)
                        (image.mkRectangle 0 0 W Hh))
      with
      | None => Panics
      | Some img => Returns img
      end = Returns out /\
      image.RGBA_Rect out = image.mkRectangle 0 0 W Hh /\
      forall x y, 0 <= x < W -> 0 <= y < Hh ->
        let at_ := offset + (Hh - 1 - y) * rowSize + x * bpp in
        exists r g b a,
          data !! Z.to_nat at_ = Some b /\
          data !! Z.to_nat (at_ + 1) = Some g /\
          data !! Z.to_nat (at_ + 2) = Some r /\
          (if decide (bpp = 4) then data !! Z.to_nat (at_ + 3) = Some a
           else a = xff) /\
          image.RGBAAt out x y = Some (r, g, b, a)).
  { intros body Hbody.
    destruct (loops_Set W Hh px body HW HH Hsize Hbody)
      as (out & Hout & Hr & Hpix).
    exists out. rewrite Hout. split; [reflexivity|]. split; [exact Hr|].
    intros x y Hx Hy at_.
    set (idx := (Hh - 1 - y) * rowSize + x * bpp).
    exists (byte_at (idx + 2)), (byte_at (idx + 1)), (byte_at idx),
           (if decide (bpp = 4) then byte_at (idx + 3) else xff).
    specialize (Hpix x y Hx Hy). rewrite Hpx in Hpix. fold idx in Hpix.
    pose proof (proj2 (Hget x y 0 Hx Hy ltac:(lia))) as G0.
    pose proof (proj2 (Hget x y 1 Hx Hy ltac:(lia))) as G1.
    pose proof (proj2 (Hget x y 2 Hx Hy ltac:(lia))) as G2.
    rewrite !Z.add_0_r in G0. fold idx in G0, G1, G2.
    split; [exact G0|]. split; [exact G1|]. split; [exact G2|].
    split; [|exact Hpix].
    destruct (decide (bpp = 4)) as [Hb4|_]; [|reflexivity].
    apply (proj2 (Hget x y 3 Hx Hy ltac:(lia))). }
  unfold dib.dibToImage. rewrite HWdef, Habs. clear Habs.
  assert (Hrect : image.Rect 0 0 W Hh = image.mkRectangle 0 0 W Hh).
  { unfold image.Rect.
    destruct (decide (0 > W)) as [|_]; [lia|].
    destruct (decide (0 > Hh)) as [|_]; [lia|]. reflexivity. }
  rewrite Hrect.
  assert (Hnew : image.NewRGBA (image.mkRectangle 0 0 W Hh)
                 = Some (image.mkRGBA (replicate (Z.to_nat (4 * W * Hh)) x00)
                                      (4 * W) (image.mkRectangle 0 0 W Hh))).
  { unfold image.NewRGBA, image.Dx, image.Dy. cbn [image.Max_X
      image.Min_X image.Max_Y image.Min_Y].
    rewrite !Z.sub_0_r.
    rewrite (int64_small W), (int64_small Hh), (int64_small (4 * W))
      by (unfold int_range; lia).
    destruct (decide (W < 0 \/ _)) as [Hbad|_]; [lia|].
    now rewrite allocates_small by lia. }
  rewrite Hnew, Hrowdef, Hoffdef.
  rewrite (int64_small (rowSize * Hh)) by (unfold int_range; lia).
  rewrite (int64_small (offset + rowSize * Hh))
    by (unfold int_range; lia).
  destruct (decide (len data < offset + rowSize * Hh)) as [|_]; [lia|].
  destruct (decide (offset > len data)) as [|_]; [lia|].
  assert (Hpd : len (drop (Z.to_nat offset) data) = len data - offset).
  { unfold len in *. rewrite length_drop. lia. }
  assert (Hidx : forall x y, 0 <= x < W -> 0 <= y < Hh ->
            int64 (int64 ((Hh - 1 - y) * rowSize) + x * bpp)
            = (Hh - 1 - y) * rowSize + x * bpp).
  { intros x y Hx Hy. destruct (Hcell x y 0 Hx Hy ltac:(lia)) as (? & ? & ?).
    rewrite (int64_small ((Hh - 1 - y) * rowSize))
      by (unfold int_range; lia).
    apply int64_small. unfold int_range. lia. }
  destruct Hbpp as [-> | ->]; rewrite Hbc.
  - (* 24 bits *)
    destruct (decide (8 * 3 = 32)) as [|_]; [lia|].
    destruct (decide (8 * 3 = 24)) as [_|]; [|lia].
    apply Hdone. intros x y p Hx Hy. cbv zeta.
    rewrite (Hidx x y Hx Hy).
    destruct (Hcell x y 2 Hx Hy ltac:(lia)) as (? & ? & ?).
    destruct (decide (_ < len _)) as [_|Hn]; [|lia].
    rewrite (proj1 (Hget x y 2 Hx Hy ltac:(lia))).
    rewrite (proj1 (Hget x y 1 Hx Hy ltac:(lia))).
    pose proof (proj1 (Hget x y 0 Hx Hy ltac:(lia))) as G0.
    rewrite Z.add_0_r in G0. rewrite G0.
    cbn [mbind option_bind]. rewrite Hpx.
    destruct (decide (3 = 4)) as [|_]; [lia|]. reflexivity.
  - (* 32 bits *)
    destruct (decide (8 * 4 = 32)) as [_|]; [|lia].
    apply Hdone. intros x y p Hx Hy. cbv zeta.
    rewrite (Hidx x y Hx Hy).
    destruct (Hcell x y 3 Hx Hy ltac:(lia)) as (? & ? & ?).
    destruct (decide (_ < len _)) as [_|Hn]; [|lia].
    rewrite (proj1 (Hget x y 2 Hx Hy ltac:(lia))).
    rewrite (proj1 (Hget x y 1 Hx Hy ltac:(lia))).
    rewrite (proj1 (Hget x y 3 Hx Hy ltac:(lia))).
    pose proof (proj1 (Hget x y 0 Hx Hy ltac:(lia))) as G0.
    rewrite Z.add_0_r in G0. rewrite G0.
    cbn [mbind option_bind]. rewrite Hpx.
    destruct (decide (4 = 4)) as [_|]; [|lia]. reflexivity.
Qed.

End dib_reads.

(** * The clipboard: images and copying back *)

Section board_facts.
Context `{BlockPrims} `{StorePrims} `{ErrorTexts} `{clipboard.ImagePrims}
        `{clipboard.TextPrims} `{Heap}.
Local Open Scope Z_scope.

(** An image written to the clipboard is read back, within the window of
    2^30 bytes.  When no system call fails, writeClipboardImage of an image
    the header can describe succeeds and removes the text if the 40 bytes
    of the header and the four bytes per pixel make at most 2^30 bytes;
    readClipboardImage on the resulting clipboard then returns an image on
    (0, 0)-(width, height) with the 8-bit pixels of the original if the
    memory block, slack included, has at most 2^30 bytes, and panics if it
    has more.  A bitmap of more than 2^30 bytes makes writeClipboardImage
    panic, after it has emptied the clipboard. *)
Theorem clipboard_image_round_trip (img : image.Image)
    (b : clipboard.Board) :
  dib.describable img ->
  clipboard.open_fails b = false -> clipboard.empty_fails b = false ->
  clipboard.alloc_fails b = false -> clipboard.lock_fails b = false ->
  clipboard.set_fails b = false ->
  let W := image.Max_X (image.Bounds img) - image.Min_X (image.Bounds img) in
  let Hh := image.Max_Y (image.Bounds img) - image.Min_Y (image.Bounds img) in
  let size := 40 + 4 * W * Hh in
  let b' := (clipboard.writeClipboardImage img b).2 in
  (size <= 1073741824 ->
   (clipboard.writeClipboardImage img b).1 = Returns tt /\
   clipboard.ReadAll b' = Err (clipboard.no_text b) /\
   (size + len (clipboard.slack b) <= 1073741824 ->
    exists out,
      clipboard.readClipboardImage b' = Returns out /\
      image.RGBA_Rect out = image.mkRectangle 0 0 W Hh /\
      forall x y, 0 <= x < W -> 0 <= y < Hh ->
        image.RGBAAt out x y = Some (dib.pixel8 img x y)) /\
   (size + len (clipboard.slack b) > 1073741824 ->
    clipboard.readClipboardImage b' = Panics)) /\
  (size > 1073741824 ->
   (clipboard.writeClipboardImage img b).1 = Panics /\
   clipboard.has_DIB b' = false /\ clipboard.block b' = None /\
   clipboard.ReadAll b' = Err (clipboard.no_text b)).
Proof.
  intros Hd Hopen Hempty Halloc Hlock Hset W Hh size b'.
  destruct (imageToDIB_dibToImage img Hd) as (data & Hdib & Hlen & _ & Hback).
  fold W Hh in Hlen, Hback. fold size in Hlen.
  assert (Hpos : 0 < W * Hh).
  { destruct Hd as (_ & _ & _ & _ & HW & HH & _). fold W in HW.
    fold Hh in HH. nia. }
  assert (Hb' : clipboard.writeClipboardImage img b
                = if decide (len data > 1073741824)
                  then (Panics,
                        clipboard.with_content b
                          (Err (clipboard.no_text b)) false None)
                  else (Returns tt,
                        clipboard.with_content b
                          (Err (clipboard.no_text b)) true
                          (Some (data ++ clipboard.slack b)))).
  { unfold clipboard.writeClipboardImage. rewrite Hdib, Hopen, Hempty.
    cbn [clipboard.with_content clipboard.alloc_fails clipboard.lock_fails
         clipboard.set_fails clipboard.slack clipboard.no_text
         clipboard.errno].
    rewrite Halloc, Hlock, Hset. now destruct (decide _). }
  unfold b'. rewrite Hb'. rewrite Hlen. clear Hb' b'.
  split.
  - intros Hsize.
    destruct (decide (size > 1073741824)) as [|_]; [lia|]. cbn [fst snd].
    split; [reflexivity|]. split; [reflexivity|].
    assert (Hl : len (data ++ clipboard.slack b)
                 = size + len (clipboard.slack b)).
    { unfold len in *. rewrite length_app. lia. }
    assert (Hread : clipboard.readClipboardImage
                      (clipboard.with_content b
                         (Err (clipboard.no_text b)) true
                         (Some (data ++ clipboard.slack b)))
                    = if decide (len (data ++ clipboard.slack b)
                                 > 1073741824)
                      then Panics
                      else
                        match dib.dibToImage (data ++ clipboard.slack b)
                                (dib.binary_Read
                                   (take 40 (data ++ clipboard.slack b)))
                        with
                        | Fails e =>
                            Fails (Errorf
                                     ("failed to convert DIB to image: "
                                      +:+ Error e))
                        | Panics => Panics
                        | Returns img => Returns img
                        end).
    { unfold clipboard.readClipboardImage.
      cbn [clipboard.with_content clipboard.open_fails clipboard.has_DIB
           clipboard.has_DIBV5 clipboard.block clipboard.lock_fails negb
           andb].
      rewrite Hopen, Hlock.
      destruct (decide (len (data ++ clipboard.slack b) = 0)) as [|_];
        [unfold len in *; lia|].
      destruct (decide (len (data ++ clipboard.slack b) > 1073741824))
        as [|_]; [reflexivity|].
      destruct (decide (len (data ++ clipboard.slack b) < 40)) as [|_];
        [unfold len in *; lia|].
      reflexivity. }
    rewrite Hread, Hl. clear Hread. split.
    + intros Hfits.
      destruct (decide (_ > 1073741824)) as [|_]; [lia|].
      destruct (Hback (clipboard.slack b)) as (out & Hout & Hrect & Hpix).
      exists out. rewrite Hout. auto.
    + intros Hover. now destruct (decide (_ > 1073741824)) as [_|]; [|lia].
  - intros Hsize.
    destruct (decide (size > 1073741824)) as [_|]; [|lia]. cbn [fst snd].
    repeat split.
Qed.

Lemma CopyToClipboard_text (d : Database) (id : string)
    (item : ClipboardItem) (content : list byte) (b : clipboard.Board) :
  GetItem d id = Ok (item, content) -> Type_ item = "text" ->
  clipboard.CopyToClipboard d id b
  = match clipboard.WriteAll (string_of_list_byte content) b with
    | (Fails e, b1) =>
        (Fails (Wrapf "failed to write to clipboard" e), b1)
    | (Panics, b1) => (Panics, b1)
    | (Returns _, b1) => (Returns tt, b1)
    end.
Proof.
  intros Hget Htype. unfold clipboard.CopyToClipboard.
  rewrite Hget. destruct (decide _) as [_|]; [|contradiction].
  reflexivity.
Qed.

(** What CopyToClipboard does: an ID that GetItem rejects leaves the
    clipboard alone and gives "failed to get item" around the error of
    GetItem; for a text item exactly the decrypted bytes are handed to
    clipboard.WriteAll, whose error comes back wrapped; an item whose
    type is neither "text" nor "image" gives "unknown item type" and
    leaves the clipboard alone.  So a text that AddItem has just inserted
    is handed to WriteAll unchanged under the ID it was given. *)
Theorem CopyToClipboard_outcomes (d : Database) (id : string)
    (b : clipboard.Board) :
  (forall e, GetItem d id = Err e ->
     clipboard.CopyToClipboard d id b
     = (Fails (Wrapf "failed to get item" e), b)) /\
  (forall item content,
     GetItem d id = Ok (item, content) -> Type_ item = "text" ->
     (forall b1,
        clipboard.WriteAll (string_of_list_byte content) b
        = (Returns tt, b1) ->
        clipboard.CopyToClipboard d id b = (Returns tt, b1)) /\
     (forall e b1,
        clipboard.WriteAll (string_of_list_byte content) b
        = (Fails e, b1) ->
        clipboard.CopyToClipboard d id b
        = (Fails (Wrapf "failed to write to clipboard" e), b1))) /\
  (forall item content,
     GetItem d id = Ok (item, content) ->
     Type_ item <> "text" -> Type_ item <> "image" ->
     clipboard.CopyToClipboard d id b
     = (Fails (Errorf ("unknown item type: " +:+ Type_ item)), b)) /\
  (forall (t : string) (w : World) (b1 : clipboard.Board),
     len (list_byte_of_string t) <= MaxItemSize ->
     list_find (sameContent (contentHashOf (list_byte_of_string t)) "text")
               (Items d) = None ->
     countUnpinned (Items d) < maxItems d ->
     key_size_ok (key d) -> (12 <= length (entropy w))%nat ->
     clipboard.WriteAll t b = (Returns tt, b1) ->
     let d' := (AddItem d "text" (list_byte_of_string t) w).1.1 in
     clipboard.CopyToClipboard d' (Sprintf_d (clock w 0)) b
     = (Returns tt, b1)).
Proof.
  split; [|split; [|split]].
  - intros e He. unfold clipboard.CopyToClipboard. now rewrite He.
  - intros item content Hget Htype.
    rewrite (CopyToClipboard_text d id item content b Hget Htype).
    split.
    + intros b1 Hw. rewrite Hw. reflexivity.
    + intros e b1 Hw. rewrite Hw. reflexivity.
  - intros item content Hget Hnt Hni. unfold clipboard.CopyToClipboard.
    rewrite Hget.
    destruct (decide _) as [|_]; [contradiction|].
    destruct (decide _) as [|_]; [contradiction|]. reflexivity.
  - intros t w b1 Hsize Hfind Hroom Hk Hent Hwrite d'.
    destruct (Encrypt_draws (list_byte_of_string t) (key d) w Hk Hent)
      as (enc & w1 & Henc & _ & Hclock & _).
    pose proof (AddItem_insert d "text" (list_byte_of_string t) w w1 enc
                  Hsize Hfind Hroom Henc) as Hadd.
    cbv zeta in Hadd. unfold d'. rewrite Hadd. cbn [fst]. rewrite Hclock.
    set (item := mkItem (Sprintf_d (clock w 0)) "text" enc (clock w 1) false
                        (len (list_byte_of_string t))
                        (contentHashOf (list_byte_of_string t))).
    set (d1 := mkDatabase (item :: Items d) (key d) (maxItems d)).
    assert (Hget : GetItem d1 (Sprintf_d (clock w 0))
                   = Ok (item, list_byte_of_string t)).
    { unfold GetItem. cbn [d1 item Items list_find ID key Content].
      destruct (decide _) as [_|Hn]; [|now elim Hn].
      cbn. now rewrite (Decrypt_of_Encrypt _ _ _ _ _ Henc). }
    rewrite (CopyToClipboard_text d1 _ item _ b Hget eq_refl).
    rewrite string_of_list_byte_of_string, Hwrite. reflexivity.
Qed.

Lemma handleText_db (m : clipboard.Monitor) (t : string) (w : World) :
  (clipboard.handleText m t w).1.1 = m
  \/ clipboard.db (clipboard.handleText m t w).1.1
     = (AddItem (clipboard.db m) "text" (list_byte_of_string t) w).1.1.
Proof.
  unfold clipboard.handleText.
  destruct (bool_decide _); [now left|right].
  unfold mbind, M_bind, mret, M_ret.
  cbn [clipboard.db clipboard.lastTextHash clipboard.lastImageHash
       clipboard.running clipboard.onChange clipboard.onLimitWarn].
  destruct (AddItem _ _ _ w) as [[d [e|]] w1]; [|reflexivity].
  destruct (_ && _); [reflexivity|]. now destruct (_ && _).
Qed.

(** Copying back does not duplicate.  When a text item of a reachable
    store is copied to the clipboard, WriteAll succeeds, and the clipboard
    then offers no image and gives this text to ReadAll, the monitor's
    check of the clipboard adds no item: either the store stays as it is
    (the monitor has seen this text last, or the text is empty), or
    AddItem finds this very item by its digest and moves it to the front
    with a new timestamp. *)
Theorem copy_back_does_not_duplicate (m : clipboard.Monitor)
    (id : string) (item : ClipboardItem) (content : list byte)
    (b b1 : clipboard.Board) (e : error) (w : World) :
  reachable (clipboard.db m) ->
  GetItem (clipboard.db m) id = Ok (item, content) ->
  Type_ item = "text" ->
  clipboard.CopyToClipboard (clipboard.db m) id b = (Returns tt, b1) ->
  clipboard.ReadClipboardImage b1 = Fails e ->
  clipboard.ReadAll b1 = Ok (string_of_list_byte content) ->
  exists m' calls,
    (clipboard.checkClipboard m b1 w).1 = Some (m', calls) /\
    GetItemCount (clipboard.db m') = GetItemCount (clipboard.db m) /\
    (Items (clipboard.db m') = Items (clipboard.db m)
     \/ exists i,
          Items (clipboard.db m) !! i = Some item /\
          Items (clipboard.db m')
          = withTimestamp item (clock w 0)
              :: (take i (Items (clipboard.db m))
                  ++ drop (S i) (Items (clipboard.db m)))).
Proof.
  intros Hreach Hget Htype _ Himage Hread.
  set (t := string_of_list_byte content) in *.
  assert (Hcheck :
    clipboard.checkClipboard m b1 w
    = if decide (t <> EmptyString)
      then (Some (clipboard.handleText m t w).1,
            (clipboard.handleText m t w).2)
      else (Some (m, []), w)).
  { unfold clipboard.checkClipboard. rewrite Himage, Hread.
    destruct (decide _); [|reflexivity].
    unfold mbind, M_bind, mret, M_ret.
    now destruct (clipboard.handleText m t w). }
  rewrite Hcheck. clear Hcheck.
  destruct (decide (t <> EmptyString)) as [Hne|_]; cbn [fst].
  2:{ exists m, []. auto. }
  destruct (clipboard.handleText m t w) as [[m' calls] w'] eqn:Hh.
  cbn [fst]. exists m', calls. split; [reflexivity|].
  destruct (handleText_db m t w) as [Hsame|Hdb]; rewrite Hh in *;
    cbn [fst] in *.
  { subst m'. auto. }
  rewrite Hdb. unfold t.
  rewrite list_byte_of_string_of_list_byte.
  (* the item is sealed: its digest is that of the content *)
  unfold GetItem in Hget.
  destruct (list_find (fun x => ID x = id) (Items (clipboard.db m)))
    as [[j x]|] eqn:Hj; [|discriminate].
  destruct (Decrypt (Content x) (key (clipboard.db m))) as [c|] eqn:Hdec;
    [|discriminate].
  injection Hget as -> ->.
  apply list_find_Some in Hj as (Hj & _ & _).
  pose proof (reachable_well_sealed _ Hreach) as Hsealed.
  unfold well_sealed in Hsealed. rewrite Forall_forall in Hsealed.
  destruct (Hsealed item (list_elem_of_lookup_2 _ _ _ Hj))
    as (c & Hc & _ & Hhash & Hsize).
  rewrite Hdec in Hc. injection Hc as <-.
  destruct (list_find (sameContent (contentHashOf content) "text")
              (Items (clipboard.db m))) as [[i existing]|] eqn:Hfind.
  2:{ apply list_find_None in Hfind. rewrite Forall_forall in Hfind.
      elim (Hfind item (list_elem_of_lookup_2 _ _ _ Hj)). now split. }
  pose proof (AddItem_duplicate (clipboard.db m) "text" content w i existing
                Hsize Hfind) as Hadd.
  cbv zeta in Hadd. rewrite Hadd. cbn [fst Items].
  apply list_find_Some in Hfind as (Hi & (Hh1 & Hh2) & _).
  assert (Hij : i = j).
  { apply (unique_lookup (Items (clipboard.db m)) i j existing item);
      [apply reachable_unique_content, Hreach|exact Hi|exact Hj|].
    unfold digestKind. congruence. }
  subst i. rewrite Hj in Hi. injection Hi as <-.
  assert (Hlt : (j < length (Items (clipboard.db m)))%nat)
    by (apply lookup_lt_is_Some; eauto).
  split.
  - unfold GetItemCount, len. cbn [Items length].
    rewrite length_app, length_take, length_drop. lia.
  - right. exists j. split; [exact Hj|reflexivity].
Qed.

Lemma handleImage_lastTextHash (m : clipboard.Monitor) (img : image.Image)
    (w : World) :
  clipboard.lastTextHash (clipboard.handleImage m img w).1.1
  = clipboard.lastTextHash m.
Proof.
  unfold clipboard.handleImage.
  destruct (clipboard.png_Encode img) as [content|e]; [|reflexivity].
  destruct (bool_decide _); [reflexivity|].
  unfold mbind, M_bind, mret, M_ret.
  cbn [clipboard.db clipboard.lastTextHash clipboard.lastImageHash
       clipboard.running clipboard.onChange clipboard.onLimitWarn].
  destruct (AddItem _ _ _ w) as [[d [e|]] w1]; [|reflexivity].
  destruct (_ && _); [reflexivity|]. now destruct (_ && _).
Qed.

(** What a check of the clipboard does.  An image on the clipboard is
    handled and the text is not looked at (the text digest stays); if
    reading the image fails, a text that is not empty is handled, and
    otherwise nothing happens; if reading the image panics, the check
    panics.  The last case occurs: a clipboard block of 40 to 43 bytes
    whose header announces a 32-bit bitmap of width -2 and height 1 with
    one colour-table entry makes the check panic. *)
Theorem checkClipboard_dispatch (m : clipboard.Monitor)
    (b : clipboard.Board) (w : World) :
  (forall img, clipboard.ReadClipboardImage b = Returns img ->
     (clipboard.checkClipboard m b w).1
     = Some (clipboard.handleImage m (clipboard.RGBA_Image img) w).1 /\
     clipboard.lastTextHash
       (clipboard.handleImage m (clipboard.RGBA_Image img) w).1.1
     = clipboard.lastTextHash m) /\
  (forall e, clipboard.ReadClipboardImage b = Fails e ->
     clipboard.checkClipboard m b w
     = match clipboard.ReadAll b with
       | Ok t =>
           if decide (t <> EmptyString)
           then (Some (clipboard.handleText m t w).1,
                 (clipboard.handleText m t w).2)
           else (Some (m, []), w)
       | Err _ => (Some (m, []), w)
       end) /\
  (clipboard.ReadClipboardImage b = Panics ->
   (clipboard.checkClipboard m b w).1 = None) /\
  (forall data,
     clipboard.open_fails b = false -> clipboard.has_DIB b = true ->
     clipboard.block b = Some data -> clipboard.lock_fails b = false ->
     40 <= len data < 44 ->
     dib.Width (dib.binary_Read (take 40 data)) = -2 ->
     dib.Height (dib.binary_Read (take 40 data)) = 1 ->
     dib.BitCount (dib.binary_Read (take 40 data)) = 32 ->
     dib.ClrUsed (dib.binary_Read (take 40 data)) = 1 ->
     (clipboard.checkClipboard m b w).1 = None).
Proof.
  assert (Hpanic : clipboard.ReadClipboardImage b = Panics ->
                   (clipboard.checkClipboard m b w).1 = None).
  { intros Hp. unfold clipboard.checkClipboard. now rewrite Hp. }
  split; [|split; [|split; [exact Hpanic|]]].
  - intros img Hr. split; [|apply handleImage_lastTextHash].
    unfold clipboard.checkClipboard. rewrite Hr.
    unfold mbind, M_bind, mret, M_ret.
    now destruct (clipboard.handleImage m _ w).
  - intros e Hr. unfold clipboard.checkClipboard. rewrite Hr.
    destruct (clipboard.ReadAll b) as [t|]; [|reflexivity].
    destruct (decide _); [|reflexivity].
    unfold mbind, M_bind, mret, M_ret.
    now destruct (clipboard.handleText m t w).
  - intros data Hopen Hdib Hblock Hlock Hlen HW HH Hbc Hclr.
    apply Hpanic.
    unfold clipboard.ReadClipboardImage, clipboard.readClipboardImage.
    rewrite Hopen, Hdib, Hblock, Hlock. cbn [negb andb].
    destruct (decide (len data = 0)) as [|_]; [lia|].
    destruct (decide (len data > 1073741824)) as [|_]; [reflexivity|].
    destruct (decide (len data < 40)) as [|_]; [lia|].
    now rewrite (dibToImage_negative_width data _ HW HH Hbc Hclr Hlen).
Qed.
End board_facts.

(** * The store with the fixed limit *)

Section legacy_facts.
Context `{BlockPrims} `{legacy.Prims}.
Local Open Scope Z_scope.




End legacy_facts.

(** * More of the model at work on the small instance *)

Section more_examples.
Import sample sample_more.
Local Open Scope Z_scope.

(** "hello" is sealed under the first twelve random bytes of the sample
    world, which are then gone; a source of five bytes is used up without
    an envelope. *)
Lemma Encrypt_outcomes_witness :
  (exists w',
     Encrypt (text "hello") secret world
     = (Ok (base64.EncodeToString
              (take 12 (entropy world)
               ++ cipher.Seal (cipher.mkAEAD (aes.mkBlock secret)) []
                    (take 12 (entropy world)) (text "hello") [])), w')
     /\ entropy w' = drop 12 (entropy world)
     /\ clock w' = clock world /\ same_files world w')
  /\ Encrypt (text "hello") secret fiveBytes
     = (Err (Wrapf "failed to generate nonce" ErrUnexpectedEOF),
        with_entropy fiveBytes []).
Proof.
  split.
  - apply (proj2 (proj2 (proj2
             (Encrypt_outcomes (text "hello") secret world)))).
    + exact secret_size.
    + vm_compute. lia.
  - apply (proj1 (proj2 (proj2
             (Encrypt_outcomes (text "hello") secret fiveBytes)))).
    + exact secret_size.
    + vm_compute. lia.
Defined.

(** A text that is not base64 is rejected as such. *)
Lemma Decrypt_failures_witness :
  Decrypt "no envelope" secret
  = Err (Wrapf "failed to decode base64" CorruptInputError).
Proof.
  apply (proj1 (Decrypt_failures "no envelope" secret)).
  vm_compute. reflexivity.
Defined.

(** The envelope of "hello" decodes to a nonce and the sealed text. *)
Lemma Decrypt_accepts_only_sealed_witness :
  key_size_ok secret /\
  exists nonce,
    length nonce = 12%nat /\
    base64.DecodeString helloEnvelope
    = Ok (nonce ++ cipher.Seal (cipher.mkAEAD (aes.mkBlock secret)) [] nonce
                               (text "hello") []).
Proof.
  apply (Decrypt_accepts_only_sealed helloEnvelope secret (text "hello")).
  vm_compute. reflexivity.
Defined.

(** Two different texts never share an envelope. *)
Lemma envelope_determines_plaintext_and_nonce_witness :
  (Encrypt (text "hello") secret world).1
  <> (Encrypt (text "hullo") secret world).1.
Proof.
  destruct (Encrypt (text "hello") secret world) as [[e1|e1] w1] eqn:H1;
    [|apply (f_equal fst) in H1; vm_compute in H1; discriminate].
  destruct (Encrypt (text "hullo") secret world) as [[e2|e2] w2] eqn:H2;
    [|apply (f_equal fst) in H2; vm_compute in H2; discriminate].
  cbn [fst]. intros Heq. injection Heq as ->.
  destruct (envelope_determines_plaintext_and_nonce _ _ _ _ _ _ _ _ H1 H2)
    as [Hp _].
  vm_compute in Hp. discriminate.
Defined.

(** The envelope of the five bytes of "hello" has 44 characters. *)
Lemma envelope_length_witness :
  String.length helloEnvelope = 44%nat.
Proof.
  unfold helloEnvelope.
  destruct (Encrypt (text "hello") secret world) as [[e|e] w'] eqn:He;
    [|apply (f_equal fst) in He; vm_compute in He; discriminate].
  cbn [fst]. exact (envelope_length _ _ _ _ _ He).
Defined.

(** "hello" is found again under the ID it was stored with. *)
Lemma GetItem_after_AddItem_witness :
  exists item,
    Items (AddItem store0 "text" (text "hello") world).1.1
    = item :: Items store0 /\
    ID item = stamp /\
    GetItem (AddItem store0 "text" (text "hello") world).1.1 (ID item)
    = Ok (item, text "hello").
Proof.
  destruct (GetItem_after_AddItem store0 "text" (text "hello") world)
    as (item & Hitems & Hid & _ & _ & _ & _ & Hget).
  - unfold len, MaxItemSize, text. simpl. lia.
  - vm_compute. reflexivity.
  - vm_compute. reflexivity.
  - exact secret_size.
  - vm_compute. lia.
  - exists item. repeat split; assumption.
Defined.

(** Deleting the "hello" item leaves one item. *)
Lemma DeleteItem_outcomes_witness :
  S (length (Items (DeleteItem helloStore stamp world).1.1))
  = length (Items helloStore)
  /\ GetItem (DeleteItem helloStore stamp world).1.1 stamp
     = Err (Errorf "item not found").
Proof.
  destruct (proj1 (DeleteItem_outcomes helloStore stamp world)
              1%nat helloItem)
    as (_ & Hlen & _ & _ & _ & _ & Hgone).
  - vm_compute. reflexivity.
  - split; [exact Hlen|]. apply Hgone.
    intros j y Hj Hy.
    destruct j as [|[|j]]; [|reflexivity|destruct j; discriminate].
    vm_compute in Hj. injection Hj as <-. vm_compute in Hy. discriminate.
Defined.

(** Pinning "hello" leaves the lookup of the other item alone. *)
Lemma GetItem_after_TogglePin_witness :
  GetItem (TogglePin helloStore stamp world).1.1 "7"
  = GetItem helloStore "7".
Proof.
  destruct (proj1 (GetItem_after_TogglePin helloStore stamp world)
              1%nat helloItem) as (Hother & _).
  - vm_compute. reflexivity.
  - apply Hother. discriminate.
Defined.

(** A store without pinned items is shown as it is. *)
Lemma GetAllItems_pinned_first_witness :
  GetAllItems fullStore = Items fullStore.
Proof.
  destruct (GetAllItems_pinned_first fullStore)
    as (_ & _ & _ & _ & _ & _ & Hsame).
  apply Hsame. right. repeat constructor.
Defined.

(** Ten unpinned items under a cap of ten: the store is full. *)
Lemma counts_add_up_witness : IsFull fullStore = true.
Proof.
  apply (proj1 (proj2 (proj2 (counts_add_up fullStore)))).
  vm_compute. discriminate.
Defined.

(** Two items under a cap of fifty stay in place. *)
Lemma SetMaxItems_settles_witness :
  Items (SetMaxItems helloStore 50 world).1 = Items helloStore.
Proof.
  destruct (SetMaxItems_settles helloStore 50 world)
    as (_ & _ & Hfit & _).
  apply Hfit. vm_compute. discriminate.
Defined.

Lemma sample_persistence_once : persistence_works helloStore world 1.
Proof.
  split; [exact secret_size|].
  split; [intros items; eexists; reflexivity|].
  split; [discriminate|].
  split; [reflexivity|]. split; [reflexivity|].
  vm_compute. lia.
Defined.

(** Clearing the store with the pinned item is saved without error. *)
Lemma ClearAll_empties_witness :
  (ClearAll helloStore world).1.2 = None
  /\ persisted (ClearAll helloStore world).1.1 (ClearAll helloStore world).2.
Proof.
  destruct (ClearAll_empties helloStore world)
    as (_ & _ & _ & _ & _ & _ & _ & _ & Hsaved).
  exact (Hsaved sample_persistence_once).
Defined.

(** On a full disk the store in memory becomes what it becomes on a good
    one. *)
Lemma memory_ignores_files_witness :
  (perform store0 (add "a0") world).1
  = (perform store0 (add "a0") diskFull).1.
Proof.
  apply (memory_ignores_files store0 (add "a0") world diskFull);
    reflexivity.
Defined.

(** The cap stays in range along the sample sequence. *)
Lemma performAll_key_and_cap_witness :
  10 <= maxItems (performAll store0 overflowing world).1 <= 500.
Proof.
  destruct (performAll_key_and_cap overflowing store0 world)
    as (_ & _ & Hrange).
  apply Hrange. vm_compute. split; discriminate.
Defined.

(** The store after one AddItem is well sealed. *)
Lemma reachable_items_open_witness :
  well_sealed (perform store0 (add "a0") world).1.
Proof.
  apply (reachable_items_open (perform store0 (add "a0") world).1).
  apply reachable_step, reachable_empty.
Defined.

(** The collection of the pinned item and "hello" is read back after it
    was saved. *)
Lemma Load_after_save_witness :
  @Load block_prims codec_prims store0
        (@saveInternal block_prims codec_prims helloStore world).2
  = ((mkDatabase (Items helloStore) secret DefaultMaxItems, None),
     (@saveInternal block_prims codec_prims helloStore world).2).
Proof.
  destruct (@saveInternal block_prims codec_prims helloStore world)
    as [[e|] w'] eqn:Hs;
    [apply (f_equal fst) in Hs; vm_compute in Hs; discriminate|].
  cbn [snd].
  destruct (@Load_after_save block_prims codec_prims helloStore world w' Hs)
    as [Hload _].
  - reflexivity.
  - intros b Hb. injection Hb as <-. vm_compute. reflexivity.
  - exact (Hload store0 eq_refl).
Defined.

(** On a disk that fails after four bytes AddItem reports the failed
    write, and the file holds four bytes. *)
Lemma AddItem_write_failure_witness :
  (AddItem store0 "text" (text "hello") tornDisk).1.2
  = Some (Wrapf "failed to write database" (PathError "write" false))
  /\ GetItemCount (AddItem store0 "text" (text "hello") tornDisk).1.1 = 1
  /\ exists enc,
       file (AddItem store0 "text" (text "hello") tornDisk).2 = torn 4 enc.
Proof.
  destruct (AddItem_write_failure store0 "text" (text "hello") tornDisk
              (PathError "write" false))
    as (Herr & _ & Hcount & _ & Htorn).
  - unfold len, MaxItemSize, text. simpl. lia.
  - vm_compute. reflexivity.
  - vm_compute. reflexivity.
  - exact secret_size.
  - vm_compute. lia.
  - discriminate.
  - reflexivity.
  - intros items. eexists. reflexivity.
  - reflexivity.
  - split; [exact Herr|]. split; [exact Hcount|].
    destruct (Htorn 4%nat eq_refl) as (b & enc & _ & _ & Hfile).
    exists enc. exact Hfile.
Defined.

(** Without APPDATA no store is made; with it, the Pano directory is. *)
Lemma NewDatabase_outcomes_witness :
  NewDatabase homeless
  = (Err (Errorf "APPDATA environment variable not set"), homeless)
  /\ filepath.Join (appdata world) "Pano" ∈ dirs (NewDatabase world).2.
Proof.
  split.
  - destruct (NewDatabase_outcomes homeless) as (_ & Hpath & _).
    destruct (Hpath _ eq_refl) as (Hunset & _).
    apply Hunset. reflexivity.
  - destruct (NewDatabase_outcomes world) as (_ & Hpath & _).
    destruct (Hpath _ eq_refl) as (_ & _ & Hmade & _).
    apply Hmade; [discriminate|reflexivity].
Defined.

(** The fingerprint of the sample key has eight characters. *)
Lemma GetKeyFingerprint_prefix_witness :
  exists f,
    (GetKeyFingerprint world).1 = Ok f /\ String.length f = 8%nat.
Proof.
  destruct (GetKeyFingerprint_prefix world) as (_ & _ & Hok).
  destruct (Hok _ eq_refl) as (f & Hf & Hlen & _).
  exists f. split; assumption.
Defined.

(** A text that was refused is not offered again. *)
Lemma handleText_once_witness :
  clipboard.handleText (clipboard.handleText fullMonitor "new" world).1.1
                       "new" world
  = (((clipboard.handleText fullMonitor "new" world).1.1, []), world).
Proof.
  destruct (handleText_once fullMonitor "new" world)
    as (_ & _ & _ & _ & _ & Hagain).
  apply Hagain. reflexivity.
Defined.

(** A new text that meets the full store makes the limit callback run
    with 0. *)
Lemma handleText_reports_witness :
  (clipboard.handleText fullMonitor "new" world).1.2
  = [clipboard.limitCallback 0].
Proof.
  destruct (handleText_reports fullMonitor "new" world)
    as (_ & _ & _ & _ & _ & _ & Hfull).
  - discriminate.
  - apply Hfull.
    + unfold len, MaxItemSize. simpl. lia.
    + vm_compute. reflexivity.
    + vm_compute. discriminate.
Defined.

(** Left Ctrl, right Shift, V: the callback is launched at the V. *)
Lemma hotkey_fires_witness :
  system.listenForHotkey chord !! 2%nat = Some true.
Proof.
  destruct (hotkey_fires chord 2 (press system.vkV) eq_refl) as [Hiff _].
  apply Hiff.
  - repeat constructor.
  - split; [reflexivity|]. split; [reflexivity|]. split; [reflexivity|].
    split.
    + exists [], (system.ev (press system.scCtrlLeft)),
        [system.ev (press system.vkShiftRight)].
      repeat split. repeat constructor. intros [[=] _].
    + exists [system.ev (press system.scCtrlLeft)],
        (system.ev (press system.vkShiftRight)), [].
      repeat split. constructor.
Defined.

Lemma tile_describable : dib.describable tile.
Proof. unfold dib.describable, int_range. cbn. lia. Defined.

(** The two by two picture makes 40 + 16 bytes. *)
Lemma DIB_round_trip_witness :
  exists data, dib.imageToDIB tile = Returns data /\ len data = 56.
Proof.
  destruct (DIB_round_trip tile tile_describable)
    as (data & Hdib & Hlen & _).
  exists data. split; [exact Hdib|exact Hlen].
Defined.

(** The crafted bitmap makes dibToImage panic; the header of the two-row
    bitmap does not, even without data. *)
Lemma dibToImage_panics_witness :
  dib.dibToImage crafted (dib.binary_Read (take 40 crafted)) = Panics
  /\ dib.dibToImage [] topDownHeader <> Panics.
Proof.
  split.
  - apply (proj1 (proj2 (dibToImage_panics crafted
                           (dib.binary_Read (take 40 crafted))))).
    + vm_compute. reflexivity.
    + vm_compute. reflexivity.
    + vm_compute. reflexivity.
    + vm_compute. reflexivity.
    + vm_compute. split; [discriminate|reflexivity].
  - intros Hp.
    apply (proj1 (dibToImage_panics [] topDownHeader)) in Hp.
    + vm_compute in Hp. discriminate.
    + unfold dib.well_typed. cbn. lia.
    + cbn. lia.
    + cbn. lia.
Defined.

(** The picture is written to the empty clipboard and read back. *)
Lemma clipboard_image_round_trip_witness :
  (clipboard.writeClipboardImage tile board0).1 = Returns tt
  /\ exists out,
       clipboard.readClipboardImage
         (clipboard.writeClipboardImage tile board0).2 = Returns out
       /\ image.RGBAAt out 0 0 = Some (dib.pixel8 tile 0 0).
Proof.
  destruct (clipboard_image_round_trip tile board0 tile_describable
              eq_refl eq_refl eq_refl eq_refl eq_refl) as [Hfits _].
  destruct Hfits as (Hwrite & _ & Hread & _); [vm_compute; discriminate|].
  split; [exact Hwrite|].
  destruct Hread as (out & Hout & _ & Hpix); [vm_compute; discriminate|].
  exists out. split; [exact Hout|]. apply Hpix; cbn; lia.
Defined.

(** "hello" comes back on the clipboard. *)
Lemma CopyToClipboard_outcomes_witness :
  clipboard.ReadAll
    (clipboard.CopyToClipboard
       (AddItem store0 "text" (list_byte_of_string "hello") world).1.1
       (Sprintf_d (clock world 0)) board0).2
  = Ok "hello".
Proof.
  destruct (CopyToClipboard_outcomes store0 stamp board0)
    as (_ & _ & _ & Hback).
  rewrite (Hback "hello" world
             (clipboard.with_content board0 (Ok "hello") false None)).
  - reflexivity.
  - unfold len, MaxItemSize. simpl. lia.
  - vm_compute. reflexivity.
  - vm_compute. reflexivity.
  - exact secret_size.
  - vm_compute. lia.
  - reflexivity.
Defined.

(** Copying "a0" back and checking the clipboard leaves one item. *)
Lemma copy_back_does_not_duplicate_witness :
  exists m' calls,
    (clipboard.checkClipboard monitor1
       (clipboard.with_content board0 (Ok "a0") false None) world).1
    = Some (m', calls) /\
    GetItemCount (clipboard.db m') = GetItemCount store1.
Proof.
  assert (Hitem : match GetItem store1 stamp with
                  | Ok (i, c) => Type_ i = "text" /\ c = text "a0"
                  | Err _ => False
                  end) by (vm_compute; split; reflexivity).
  revert Hitem.
  destruct (GetItem store1 stamp) as [[item content]|e] eqn:Hget;
    [|contradiction].
  intros [Htype ->].
  destruct (copy_back_does_not_duplicate monitor1 stamp item (text "a0")
              board0 (clipboard.with_content board0 (Ok "a0") false None)
              (Errorf "no image format available in clipboard") world)
    as (m' & calls & Hcheck & Hcount & _).
  - apply reachable_step, reachable_empty.
  - exact Hget.
  - exact Htype.
  - unfold clipboard.CopyToClipboard.
    change (clipboard.db monitor1) with store1. rewrite Hget.
    destruct (decide _) as [_|]; [|contradiction]. reflexivity.
  - reflexivity.
  - reflexivity.
  - exists m', calls. split; [exact Hcheck|exact Hcount].
Defined.

(** The upper pixel of the two-row bitmap is read from its second row. *)
Lemma dibToImage_reads_witness :
  exists out,
    dib.dibToImage topDown (dib.binary_Read (take 40 topDown)) = Returns out /\
    image.RGBAAt out 0 0 = Some (x06, x05, x04, xff).
Proof.
  change (dib.binary_Read (take 40 topDown)) with topDownHeader.
  destruct (dibToImage_reads topDown topDownHeader 3)
    as (out & Hret & _ & Hpix).
  - left. reflexivity.
  - reflexivity.
  - cbn. lia.
  - cbn. lia.
  - cbn. lia.
  - cbn. lia.
  - vm_compute. discriminate.
  - exists out. split; [exact Hret|].
    destruct (Hpix 0 0) as (r & g & b & a & Hb & Hg & Hr & Ha & Hat);
      [cbn; lia..|].
    vm_compute in Hb, Hg, Hr.
    destruct (decide (3 = 4)) as [|_]; [discriminate|].
    congruence.
Defined.

(** The crafted bitmap on the clipboard makes the check panic. *)
Lemma checkClipboard_dispatch_witness :
  (clipboard.checkClipboard monitor1 craftedBoard world).1 = None.
Proof.
  destruct (checkClipboard_dispatch monitor1 craftedBoard world)
    as (_ & _ & _ & Hcrash).
  apply (Hcrash crafted); try reflexivity.
  vm_compute. split; [discriminate|reflexivity].
Defined.

End more_examples.
